(** * BowlingFun: the throw lifecycle of [game.js]

    A shallow embedding of the game logic of [src/game.js]: the phase
    machine ([GameState]), the aim oscillator, the charge ramp, the launch
    impulse, the pin-fall scoring pass, the settle detector with its
    deferred reset, and the two reset routines.

    Modelling conventions.
    - JavaScript numbers are idealised as real numbers ([R]); the score is
      an integer counter ([Z]); array indices and timer handles are [nat].
    - The module-level [let] variables of the script are the fields of one
      record, [Game], threaded through every function.
    - The host is part of the state: the value of [performance.now()], the
      queue of pending [setTimeout] callbacks and the next timer handle.
    - The physics engine is an environment: an event replaces the poses and
      velocities of the bodies that own a physics impostor; the calls the
      game makes on an impostor (velocity setters, [wakeUp], [applyImpulse])
      are recorded on it.
    - Rendering attributes (materials, textures, colours, camera, lights,
      the lane) carry no game logic and are left out.
    - [currentScene.metadata] is absent until the scene-ready callback
      installs it. That callback is only registered by [createScene]; the
      engine runs it later, once, at a moment of its own choosing, so it is
      an event like a key or a timer.
    - A handler may end by throwing. The only place where the script can
      is the assignment to [currentScene.metadata.resetTimer] in the render
      loop while the metadata is absent: as in every assignment to a
      property, the right-hand side is evaluated first (the call to
      [setTimeout]) and the write then fails with a [TypeError]. The state
      the handler leaves behind is kept; what the engine does with the
      exception is not modelled, and every later event stays possible.
    - The repository holds a second, earlier copy of the script with the
      same functions; the embedding follows [game.js]. *)

From Stdlib Require Import Reals Lra Lia ZArith List.
From stdpp Require Import base gmap sets list.

#[local] Set Warnings "-clear-no-such-hyp".

Local Open Scope R_scope.

(** ** Comparisons of numbers

    The three comparisons the script makes on numbers. They are the
    decisions of the real numbers, kept opaque so that no proof depends on
    how the reals decide an order. *)

Lemma number_eq_dec (a b : R) : {a = b} + {a <> b}.
Proof. apply Req_dec_T. Qed.

Lemma number_lt_dec (a b : R) : {a < b} + {~ a < b}.
Proof. apply Rlt_dec. Qed.

Lemma number_le_dec (a b : R) : {a <= b} + {~ a <= b}.
Proof. apply Rle_dec. Qed.

(** ** Engine primitives used by the script *)

Module BABYLON.

Record Vector3 : Type := mkVector3 { x : R; y : R; z : R }.

Definition Vector3_Zero : Vector3 := mkVector3 0 0 0.
Definition Axis_Y : Vector3 := mkVector3 0 1 0.

Definition Vector3_Dot (a b : Vector3) : R :=
  x a * x b + y a * y b + z a * z b.

Definition lengthSquared (v : Vector3) : R :=
  x v * x v + y v * y v + z v * z v.

Definition length (v : Vector3) : R := sqrt (lengthSquared v).

Definition scale (v : Vector3) (k : R) : Vector3 :=
  mkVector3 (x v * k) (y v * k) (z v * k).

(** [normalize] leaves a vector of length 0 or 1 as it is and scales any
    other by the inverse of its length. *)
Definition normalize (v : Vector3) : Vector3 :=
  let len := length v in
  if number_eq_dec len 0 then v
  else if number_eq_dec len 1 then v
  else scale v (1 / len).

End BABYLON.

Import BABYLON.

(** JavaScript [a < b] on numbers. *)
Definition js_lt (a b : R) : bool := if number_lt_dec a b then true else false.

(** The value of an [&&] chain: a boolean or the [null] it stopped at. *)
Inductive JsValue : Type :=
| JsBool (b : bool)
| JsNull.

Definition truthy (v : JsValue) : bool :=
  match v with
  | JsBool b => b
  | JsNull => false
  end.

(** ** Constants *)

Definition LANE_HEIGHT : R := 0.1.
Definition LANE_POS_Y : R := 0.

Definition PIN_HEIGHT : R := 1.0.
Definition PIN_FALLEN_THRESHOLD : R := 0.7.

Definition BALL_DIAMETER : R := 0.8.
Definition MIN_LAUNCH_FORCE : R := 20.
Definition MAX_LAUNCH_FORCE : R := 150.
Definition MAX_CHARGE_TIME : R := 1500.

Definition ARROW_OSCILLATION_SPEED : R := 1.5.
Definition ARROW_MAX_ANGLE : R := PI / 6.
Definition ARROW_LENGTH_MIN : R := 1.5.
Definition ARROW_LENGTH_MAX : R := 4.0.

Definition LANE_TOP_Y : R := LANE_POS_Y + (LANE_HEIGHT / 2).
Definition PIN_BASE_OFFSET_Y : R := PIN_HEIGHT / 2.
Definition PIN_START_Y : R := LANE_TOP_Y + PIN_BASE_OFFSET_Y.

Definition BALL_RADIUS : R := BALL_DIAMETER / 2.
Definition BALL_START_Y : R := LANE_TOP_Y + BALL_RADIUS.

Definition pinPositions : list Vector3 :=
  [ mkVector3 (-1.5) PIN_START_Y 20; mkVector3 (-0.5) PIN_START_Y 20;
    mkVector3 0.5 PIN_START_Y 20; mkVector3 1.5 PIN_START_Y 20;
    mkVector3 (-1) PIN_START_Y 19; mkVector3 0 PIN_START_Y 19;
    mkVector3 1 PIN_START_Y 19;
    mkVector3 (-0.5) PIN_START_Y 18; mkVector3 0.5 PIN_START_Y 18;
    mkVector3 0 PIN_START_Y 17 ].

Definition BALL_START_POS : Vector3 := mkVector3 0 BALL_START_Y (-5).

(** Delays of the two deferred callbacks, in milliseconds. *)
Definition SETTLE_DELAY : R := 500.
Definition AIMING_DELAY : R := 100.

(** ** Data model *)

Inductive GameState : Type :=
| AIMING
| CHARGING
| BALL_ROLLING
| RESETTING
| ENDED.

Definition GameState_eqb (a b : GameState) : bool :=
  match a, b with
  | AIMING, AIMING | CHARGING, CHARGING | BALL_ROLLING, BALL_ROLLING
  | RESETTING, RESETTING | ENDED, ENDED => true
  | _, _ => false
  end.

(** A physics impostor: what its velocity accessors return ([None] is the
    [null] an accessor may give), whether it was woken, and the impulses
    applied to it (impulse, contact point) since the engine last
    integrated. *)
Record PhysicsImpostor : Type := mkImpostor {
  linearVelocity : option Vector3;
  angularVelocity : option Vector3;
  awake : bool;
  impulses : list (Vector3 * Vector3)
}.

(** A mesh that may own a physics impostor (the ball, a pin). [up] is the
    world-space direction of the mesh's local Y axis. *)
Record Mesh : Type := mkMesh {
  position : Vector3;
  up : Vector3;
  physicsImpostor : option PhysicsImpostor
}.

(** The aim indicator. *)
Record ArrowMesh : Type := mkArrow {
  arrow_position : Vector3;
  rotation_x : R;
  rotation_z : R;
  scaling_y : R;
  isVisible : bool
}.

(** The object the scene-ready callback installs as [scene.metadata]; its
    [resetTimer] property is a timer handle, or absent. *)
Record Metadata : Type := mkMetadata {
  md_resetTimer : option nat
}.

(** The two callbacks handed to [setTimeout]. *)
Inductive Callback : Type :=
| SettleReset   (* render loop: resetForNextThrow(); resetTimer = null *)
| ToAiming.     (* resetForNextThrow: if RESETTING then AIMING *)

Record Timer : Type := mkTimer {
  timer_id : nat;
  deadline : R;
  callback : Callback
}.

Record Game : Type := mkGame {
  bowlingBall : option Mesh;
  pins : list (option Mesh);
  directionArrow : option ArrowMesh;
  score : Z;
  scoreText : option Z;                 (* the number shown after "Score: " *)
  fallenPinIndicesThisThrow : gset nat;
  currentGameState : GameState;
  currentAimAngle : R;
  chargeStartTime : R;
  launchPower : R;
  metadata : option Metadata;           (* currentScene.metadata *)
  timers : list Timer;                  (* pending setTimeout callbacks *)
  nextTimerId : nat;
  now : R;                              (* performance.now() *)
  lastFrameTime : R;
  onReadyObservable : bool              (* the scene-ready callback is registered *)
}.

(** The value of [currentScene.metadata?.resetTimer]. *)
Definition resetTimer (g : Game) : option nat :=
  match metadata g with
  | Some m => md_resetTimer m
  | None => None
  end.

(** Field updates. *)

Definition set_bowlingBall (v : option Mesh) (g : Game) : Game :=
  mkGame v (pins g) (directionArrow g) (score g) (scoreText g)
    (fallenPinIndicesThisThrow g) (currentGameState g) (currentAimAngle g)
    (chargeStartTime g) (launchPower g) (metadata g) (timers g)
    (nextTimerId g) (now g) (lastFrameTime g) (onReadyObservable g).

Definition set_pins (v : list (option Mesh)) (g : Game) : Game :=
  mkGame (bowlingBall g) v (directionArrow g) (score g) (scoreText g)
    (fallenPinIndicesThisThrow g) (currentGameState g) (currentAimAngle g)
    (chargeStartTime g) (launchPower g) (metadata g) (timers g)
    (nextTimerId g) (now g) (lastFrameTime g) (onReadyObservable g).

Definition set_directionArrow (v : option ArrowMesh) (g : Game) : Game :=
  mkGame (bowlingBall g) (pins g) v (score g) (scoreText g)
    (fallenPinIndicesThisThrow g) (currentGameState g) (currentAimAngle g)
    (chargeStartTime g) (launchPower g) (metadata g) (timers g)
    (nextTimerId g) (now g) (lastFrameTime g) (onReadyObservable g).

Definition set_score (v : Z) (g : Game) : Game :=
  mkGame (bowlingBall g) (pins g) (directionArrow g) v (scoreText g)
    (fallenPinIndicesThisThrow g) (currentGameState g) (currentAimAngle g)
    (chargeStartTime g) (launchPower g) (metadata g) (timers g)
    (nextTimerId g) (now g) (lastFrameTime g) (onReadyObservable g).

Definition set_scoreText (v : option Z) (g : Game) : Game :=
  mkGame (bowlingBall g) (pins g) (directionArrow g) (score g) v
    (fallenPinIndicesThisThrow g) (currentGameState g) (currentAimAngle g)
    (chargeStartTime g) (launchPower g) (metadata g) (timers g)
    (nextTimerId g) (now g) (lastFrameTime g) (onReadyObservable g).

Definition set_fallenPinIndicesThisThrow (v : gset nat) (g : Game) : Game :=
  mkGame (bowlingBall g) (pins g) (directionArrow g) (score g) (scoreText g)
    v (currentGameState g) (currentAimAngle g)
    (chargeStartTime g) (launchPower g) (metadata g) (timers g)
    (nextTimerId g) (now g) (lastFrameTime g) (onReadyObservable g).

Definition set_currentGameState (v : GameState) (g : Game) : Game :=
  mkGame (bowlingBall g) (pins g) (directionArrow g) (score g) (scoreText g)
    (fallenPinIndicesThisThrow g) v (currentAimAngle g)
    (chargeStartTime g) (launchPower g) (metadata g) (timers g)
    (nextTimerId g) (now g) (lastFrameTime g) (onReadyObservable g).

Definition set_currentAimAngle (v : R) (g : Game) : Game :=
  mkGame (bowlingBall g) (pins g) (directionArrow g) (score g) (scoreText g)
    (fallenPinIndicesThisThrow g) (currentGameState g) v
    (chargeStartTime g) (launchPower g) (metadata g) (timers g)
    (nextTimerId g) (now g) (lastFrameTime g) (onReadyObservable g).

Definition set_chargeStartTime (v : R) (g : Game) : Game :=
  mkGame (bowlingBall g) (pins g) (directionArrow g) (score g) (scoreText g)
    (fallenPinIndicesThisThrow g) (currentGameState g) (currentAimAngle g)
    v (launchPower g) (metadata g) (timers g)
    (nextTimerId g) (now g) (lastFrameTime g) (onReadyObservable g).

Definition set_launchPower (v : R) (g : Game) : Game :=
  mkGame (bowlingBall g) (pins g) (directionArrow g) (score g) (scoreText g)
    (fallenPinIndicesThisThrow g) (currentGameState g) (currentAimAngle g)
    (chargeStartTime g) v (metadata g) (timers g)
    (nextTimerId g) (now g) (lastFrameTime g) (onReadyObservable g).

Definition set_metadata (v : option Metadata) (g : Game) : Game :=
  mkGame (bowlingBall g) (pins g) (directionArrow g) (score g) (scoreText g)
    (fallenPinIndicesThisThrow g) (currentGameState g) (currentAimAngle g)
    (chargeStartTime g) (launchPower g) v (timers g)
    (nextTimerId g) (now g) (lastFrameTime g) (onReadyObservable g).

Definition set_timers (v : list Timer) (g : Game) : Game :=
  mkGame (bowlingBall g) (pins g) (directionArrow g) (score g) (scoreText g)
    (fallenPinIndicesThisThrow g) (currentGameState g) (currentAimAngle g)
    (chargeStartTime g) (launchPower g) (metadata g) v
    (nextTimerId g) (now g) (lastFrameTime g) (onReadyObservable g).

Definition set_nextTimerId (v : nat) (g : Game) : Game :=
  mkGame (bowlingBall g) (pins g) (directionArrow g) (score g) (scoreText g)
    (fallenPinIndicesThisThrow g) (currentGameState g) (currentAimAngle g)
    (chargeStartTime g) (launchPower g) (metadata g) (timers g)
    v (now g) (lastFrameTime g) (onReadyObservable g).

Definition set_now (v : R) (g : Game) : Game :=
  mkGame (bowlingBall g) (pins g) (directionArrow g) (score g) (scoreText g)
    (fallenPinIndicesThisThrow g) (currentGameState g) (currentAimAngle g)
    (chargeStartTime g) (launchPower g) (metadata g) (timers g)
    (nextTimerId g) v (lastFrameTime g) (onReadyObservable g).

Definition set_lastFrameTime (v : R) (g : Game) : Game :=
  mkGame (bowlingBall g) (pins g) (directionArrow g) (score g) (scoreText g)
    (fallenPinIndicesThisThrow g) (currentGameState g) (currentAimAngle g)
    (chargeStartTime g) (launchPower g) (metadata g) (timers g)
    (nextTimerId g) (now g) v (onReadyObservable g).

Definition set_onReadyObservable (v : bool) (g : Game) : Game :=
  mkGame (bowlingBall g) (pins g) (directionArrow g) (score g) (scoreText g)
    (fallenPinIndicesThisThrow g) (currentGameState g) (currentAimAngle g)
    (chargeStartTime g) (launchPower g) (metadata g) (timers g)
    (nextTimerId g) (now g) (lastFrameTime g) v.

(** The guarded write
    [if (currentScene.metadata) currentScene.metadata.resetTimer = v]. *)
Definition set_resetTimer (v : option nat) (g : Game) : Game :=
  match metadata g with
  | Some _ => set_metadata (Some (mkMetadata v)) g
  | None => g
  end.

Definition set_isVisible (v : bool) (a : ArrowMesh) : ArrowMesh :=
  mkArrow (arrow_position a) (rotation_x a) (rotation_z a) (scaling_y a) v.

Definition set_rotation_z (v : R) (a : ArrowMesh) : ArrowMesh :=
  mkArrow (arrow_position a) (rotation_x a) v (scaling_y a) (isVisible a).

Definition set_scaling_y (v : R) (a : ArrowMesh) : ArrowMesh :=
  mkArrow (arrow_position a) (rotation_x a) (rotation_z a) v (isVisible a).

Definition set_arrow_position (v : Vector3) (a : ArrowMesh) : ArrowMesh :=
  mkArrow v (rotation_x a) (rotation_z a) (scaling_y a) (isVisible a).

Definition set_position (v : Vector3) (m : Mesh) : Mesh :=
  mkMesh v (up m) (physicsImpostor m).

Definition set_physicsImpostor (v : option PhysicsImpostor) (m : Mesh) : Mesh :=
  mkMesh (position m) (up m) v.

(** ** The physics facade *)

Definition setLinearVelocity (v : Vector3) (i : PhysicsImpostor) : PhysicsImpostor :=
  mkImpostor (Some v) (angularVelocity i) (awake i) (impulses i).

Definition setAngularVelocity (v : Vector3) (i : PhysicsImpostor) : PhysicsImpostor :=
  mkImpostor (linearVelocity i) (Some v) (awake i) (impulses i).

Definition wakeUp (i : PhysicsImpostor) : PhysicsImpostor :=
  mkImpostor (linearVelocity i) (angularVelocity i) true (impulses i).

Definition applyImpulse (force contactPoint : Vector3) (i : PhysicsImpostor)
  : PhysicsImpostor :=
  mkImpostor (linearVelocity i) (angularVelocity i) (awake i)
    ((force, contactPoint) :: impulses i).

(** A body the engine has just created: at rest, nothing applied. *)
Definition newPhysicsImpostor : PhysicsImpostor :=
  mkImpostor (Some Vector3_Zero) (Some Vector3_Zero) true [].

(** ** The host's timers *)

(** A timer handle is a positive number; [0] and [null] are falsy. *)
Definition timer_truthy (h : option nat) : bool :=
  match h with
  | Some (S _) => true
  | _ => false
  end.

Definition setTimeout (cb : Callback) (delay : R) (g : Game) : nat * Game :=
  let id := nextTimerId g in
  (id, set_nextTimerId (S id)
         (set_timers (timers g ++ [mkTimer id (now g + delay) cb]) g)).

Definition clearTimeout (id : nat) (g : Game) : Game :=
  set_timers (List.filter (fun t => negb (Nat.eqb (timer_id t) id)) (timers g)) g.

(** ** Helper functions of the script *)

Definition updateScoreDisplay (g : Game) : Game :=
  match scoreText g with
  | Some _ => set_scoreText (Some (score g)) g
  | None => g
  end.

(** Where the aim indicator sits: the ball's start position, slightly ahead
    and above. *)
Definition arrowStartPosition : Vector3 :=
  mkVector3 (x BALL_START_POS) (y BALL_START_POS + 0.1)
            (z BALL_START_POS + (BALL_RADIUS + 0.2)).

(** A mesh builder's result: default transform, visible. *)
Definition CreateCylinder : ArrowMesh := mkArrow Vector3_Zero 0 0 1 true.

(** [MergeMeshes] gives [null] for an empty list and a new mesh otherwise. *)
Definition MergeMeshes (meshes : list ArrowMesh) : option ArrowMesh :=
  match meshes with
  | [] => None
  | _ :: _ => Some CreateCylinder
  end.

Definition createDirectionArrow : option ArrowMesh :=
  let body := CreateCylinder in
  let head := CreateCylinder in
  match MergeMeshes [body; head] with
  | None => None
  | Some arrowMesh =>
      Some (mkArrow arrowStartPosition (PI / 2) (rotation_z arrowMesh)
                    ARROW_LENGTH_MIN false)
  end.

Definition updateArrowAiming (arrow : ArrowMesh) (time : R) (g : Game) : Game :=
  let g := set_currentAimAngle (sin (time * ARROW_OSCILLATION_SPEED) * ARROW_MAX_ANGLE) g in
  set_directionArrow (Some (set_rotation_z (currentAimAngle g) arrow)) g.

Definition chargeRatio (chargedTime : R) : R :=
  Rmin (chargedTime / MAX_CHARGE_TIME) 1.0.

Definition updateArrowCharging (arrow : ArrowMesh) (chargedTime : R) (g : Game) : Game :=
  let g := set_launchPower
             (MIN_LAUNCH_FORCE + (MAX_LAUNCH_FORCE - MIN_LAUNCH_FORCE) * chargeRatio chargedTime) g in
  set_directionArrow
    (Some (set_scaling_y
             (ARROW_LENGTH_MIN + (ARROW_LENGTH_MAX - ARROW_LENGTH_MIN) * chargeRatio chargedTime)
             arrow)) g.

(** The dot product [checkFallenPins] compares with the threshold. *)
Definition dotProduct (pin : Mesh) : R :=
  let localUp := up pin in
  Vector3_Dot (normalize localUp) Axis_Y.

(** The body of the [forEach] callback of [checkFallenPins]; the second
    component is [pinsDownThisCheck]. *)
Definition checkPin (pin : option Mesh) (index : nat) (st : Game * Z) : Game * Z :=
  let '(g, pinsDownThisCheck) := st in
  match pin with
  | None => st
  | Some p =>
      match physicsImpostor p with
      | None => st
      | Some _ =>
          if decide (index ∈ fallenPinIndicesThisThrow g) then st
          else if js_lt (dotProduct p) PIN_FALLEN_THRESHOLD then
            (set_fallenPinIndicesThisThrow
               ({[ index ]} ∪ fallenPinIndicesThisThrow g)
               (set_score (score g + 1)%Z g),
             (pinsDownThisCheck + 1)%Z)
          else st
      end
  end.

Fixpoint forEachPin (l : list (option Mesh)) (index : nat) (st : Game * Z) : Game * Z :=
  match l with
  | [] => st
  | pin :: rest => forEachPin rest (S index) (checkPin pin index st)
  end.

Definition checkFallenPins (g : Game) : Game :=
  let '(g', pinsDownThisCheck) := forEachPin (pins g) 0 (g, 0%Z) in
  if (0 <? pinsDownThisCheck)%Z then updateScoreDisplay g' else g'.

Definition isBallStopped (g : Game) : JsValue :=
  match bowlingBall g with
  | None => JsBool true
  | Some ball =>
      match physicsImpostor ball with
      | None => JsBool true
      | Some imp =>
          let threshold := 0.1 in
          match linearVelocity imp with
          | None => JsNull
          | Some linVel =>
              match angularVelocity imp with
              | None => JsNull
              | Some angVel =>
                  JsBool (js_lt (lengthSquared linVel) threshold
                          && js_lt (lengthSquared angVel) threshold)
              end
          end
      end
  end.

Definition resetForNextThrow (g : Game) : Game :=
  let g := set_currentGameState RESETTING g in
  let g :=
    match bowlingBall g with
    | Some ball =>
        match physicsImpostor ball with
        | Some imp =>
            set_bowlingBall
              (Some (set_physicsImpostor
                       (Some (setAngularVelocity Vector3_Zero
                                (setLinearVelocity Vector3_Zero imp))) ball)) g
        | None => g
        end
    | None => g
    end in
  let g :=
    match bowlingBall g with
    | Some ball => set_bowlingBall (Some (set_position BALL_START_POS ball)) g
    | None => g
    end in
  let g :=
    match directionArrow g with
    | Some arrow =>
        set_directionArrow
          (Some (set_arrow_position arrowStartPosition
                   (set_isVisible true
                      (set_scaling_y ARROW_LENGTH_MIN
                         (set_rotation_z 0 arrow))))) g
    | None => g
    end in
  let g := set_fallenPinIndicesThisThrow ∅ g in
  let g := set_launchPower MIN_LAUNCH_FORCE g in
  let g := set_currentAimAngle 0 g in
  snd (setTimeout ToAiming AIMING_DELAY g).

(** The full reset. Disposing a mesh leaves no trace in the state beyond
    the variable being cleared; the material and texture work is rendering
    only. *)
Definition resetGame (g : Game) : Game :=
  let g := set_currentGameState RESETTING g in
  let g := set_bowlingBall None g in
  let g := set_pins [] g in
  let g := set_directionArrow None g in
  let g :=
    set_pins
      (pins g ++ map (fun pos => Some (mkMesh pos Axis_Y (Some newPhysicsImpostor)))
                     pinPositions) g in
  let g := set_bowlingBall (Some (mkMesh BALL_START_POS Axis_Y (Some newPhysicsImpostor))) g in
  let g := set_directionArrow createDirectionArrow g in
  let g := set_score 0%Z g in
  let g := updateScoreDisplay g in
  resetForNextThrow g.

(** ** The render loop and the input handlers *)

(** How a handler ends: normally, or by throwing a [TypeError]. Either way
    it leaves a state behind. *)
Inductive Completion : Type :=
| Normal (g : Game)
| Throw (g : Game).

Definition stateOf (c : Completion) : Game :=
  match c with
  | Normal g => g
  | Throw g => g
  end.

(** The callback given to [engine.runRenderLoop]. In the Rolling case the
    assignment [currentScene.metadata.resetTimer = setTimeout(...)] first
    calls [setTimeout] and then writes the property, which throws while
    the metadata is absent. *)
Definition renderLoop (g : Game) : Completion :=
  let timeSeconds := now g / 1000.0 in
  match currentGameState g with
  | AIMING =>
      match directionArrow g with
      | Some arrow => Normal (updateArrowAiming (set_isVisible true arrow) timeSeconds g)
      | None => Normal g
      end
  | CHARGING =>
      match directionArrow g with
      | Some arrow =>
          let chargedTime := now g - chargeStartTime g in
          Normal (updateArrowCharging arrow chargedTime g)
      | None => Normal g
      end
  | BALL_ROLLING =>
      let g :=
        match directionArrow g with
        | Some arrow => set_directionArrow (Some (set_isVisible false arrow)) g
        | None => g
        end in
      let g := checkFallenPins g in
      if truthy (isBallStopped g) then
        if negb (timer_truthy (resetTimer g)) then
          let '(id, g) := setTimeout SettleReset SETTLE_DELAY g in
          match metadata g with
          | Some _ => Normal (set_metadata (Some (mkMetadata (Some id))) g)
          | None => Throw g
          end
        else Normal g
      else
        match resetTimer g with
        | Some (S _ as id) => Normal (set_resetTimer None (clearTimeout id g))
        | _ => Normal g
        end
  | RESETTING => Normal g
  | ENDED => Normal g
  end.

Inductive Key : Type :=
| Space
| KeyR
| OtherKey.

Definition keydown (k : Key) (g : Game) : Game :=
  match k with
  | Space =>
      match currentGameState g with
      | AIMING =>
          let g := set_currentGameState CHARGING g in
          let g := set_chargeStartTime (now g) g in
          match directionArrow g with
          | Some arrow => updateArrowCharging arrow 0 g
          | None => g
          end
      | _ => g
      end
  | _ => g
  end.

(** The direction the ball is launched in. *)
Definition launchDirection (g : Game) : Vector3 :=
  normalize (mkVector3 (- sin (currentAimAngle g)) 0 (cos (currentAimAngle g))).

Definition keyup (k : Key) (g : Game) : Game :=
  match k with
  | Space =>
      match currentGameState g with
      | CHARGING =>
          let g := set_currentGameState BALL_ROLLING g in
          let g :=
            match bowlingBall g with
            | Some ball =>
                match physicsImpostor ball with
                | Some imp =>
                    let contactPoint := position ball in
                    set_bowlingBall
                      (Some (set_physicsImpostor
                               (Some (applyImpulse
                                        (scale (launchDirection g) (launchPower g))
                                        contactPoint (wakeUp imp))) ball)) g
                | None => g
                end
            | None => g
            end in
          match directionArrow g with
          | Some arrow => set_directionArrow (Some (set_isVisible false arrow)) g
          | None => g
          end
      | _ => g
      end
  | KeyR =>
      match currentGameState g with
      | RESETTING => g
      | _ =>
          let g :=
            match resetTimer g with
            | Some (S _ as id) => set_resetTimer None (clearTimeout id g)
            | _ => g
            end in
          resetGame g
      end
  | OtherKey => g
  end.

(** What each deferred callback does when the host runs it. *)
Definition runCallback (cb : Callback) (g : Game) : Game :=
  match cb with
  | SettleReset => set_resetTimer None (resetForNextThrow g)
  | ToAiming =>
      match currentGameState g with
      | RESETTING => set_currentGameState AIMING g
      | _ => g
      end
  end.

(** The host runs the pending callback with handle [id], once its delay has
    passed, and forgets it; any other handle does nothing. *)
Definition fireTimeout (id : nat) (g : Game) : Game :=
  match List.find (fun t => Nat.eqb (timer_id t) id) (timers g) with
  | Some t =>
      if number_le_dec (deadline t) (now g) then runCallback (callback t) (clearTimeout id g)
      else g
  | None => g
  end.

(** ** The physics engine as environment *)

Record BodyReading : Type := mkReading {
  r_position : Vector3;
  r_up : Vector3;
  r_linearVelocity : option Vector3;
  r_angularVelocity : option Vector3
}.

(** The engine moves a mesh only through its impostor; integrating consumes
    the impulses applied since the last step. *)
Definition integrate (r : BodyReading) (m : Mesh) : Mesh :=
  match physicsImpostor m with
  | Some imp =>
      mkMesh (r_position r) (r_up r)
             (Some (mkImpostor (r_linearVelocity r) (r_angularVelocity r) (awake imp) []))
  | None => m
  end.

Definition physicsStep (ballR : BodyReading) (pinR : nat -> BodyReading) (g : Game) : Game :=
  set_pins (imap (fun i => option_map (integrate (pinR i))) (pins g))
    (set_bowlingBall (option_map (integrate ballR) (bowlingBall g)) g).

(** ** Start-up *)

(** The script's globals before [createScene] runs: a new scene has no
    metadata and no observer. The first timer handle is positive. *)
Definition blank : Game :=
  mkGame None [] None 0%Z None ∅ AIMING 0 0 MIN_LAUNCH_FORCE None [] 1%nat 0 0 false.

Definition createGUI (g : Game) : Game := set_scoreText (Some 0%Z) g.

(** The callback [createScene] hands to [scene.onReadyObservable.addOnce]. *)
Definition sceneReady (g : Game) : Game :=
  let g := set_lastFrameTime (now g) g in
  let g :=
    match metadata g with
    | Some _ => g
    | None => set_metadata (Some (mkMetadata None)) g
    end in
  let g :=
    match currentGameState g with
    | AIMING | RESETTING => g
    | _ => set_currentGameState AIMING g
    end in
  match directionArrow g with
  | Some arrow =>
      set_directionArrow
        (Some (set_isVisible (GameState_eqb (currentGameState g) AIMING) arrow)) g
  | None => g
  end.

(** [createScene] builds the GUI, runs the full reset and registers the
    scene-ready callback; it does not run it. *)
Definition createScene (g : Game) : Game :=
  let g := createGUI g in
  let g := resetGame g in
  set_onReadyObservable true g.

(** The engine notifies the observers of [onReadyObservable]: a callback
    added with [addOnce] runs and is removed. *)
Definition notifyOnReady (g : Game) : Game :=
  if onReadyObservable g then sceneReady (set_onReadyObservable false g) else g.

(** The state when the script has been loaded. *)
Definition init : Game := createScene blank.

(** ** Events and reachable states *)

Inductive Event : Type :=
| Elapse (dt : nonnegreal)                                   (* time passes *)
| Physics (ballR : BodyReading) (pinR : nat -> BodyReading)  (* engine step *)
| Frame                                                      (* render loop *)
| KeyDown (k : Key)
| KeyUp (k : Key)
| Timeout (id : nat)                                         (* a timer is due *)
| SceneReady.                                                (* the scene is ready *)

Definition handle (e : Event) (g : Game) : Game :=
  match e with
  | Elapse dt => set_now (now g + nonneg dt) g
  | Physics ballR pinR => physicsStep ballR pinR g
  | Frame => stateOf (renderLoop g)
  | KeyDown k => keydown k g
  | KeyUp k => keyup k g
  | Timeout id => fireTimeout id g
  | SceneReady => notifyOnReady g
  end.

Definition run (es : list Event) (g : Game) : Game :=
  fold_left (fun g e => handle e g) es g.

Inductive reachable : Game -> Prop :=
| reachable_init : reachable init
| reachable_step (e : Event) (g : Game) : reachable g -> reachable (handle e g).


(** * Vocabulary of the properties *)

(** ** The scoring pass *)

(** Whether the [forEach] callback credits [pin] at [index], given the
    fallen set [F] it sees. *)
Definition fallsNow (F : gset nat) (pin : option Mesh) (index : nat) : bool :=
  match pin with
  | Some p =>
      match physicsImpostor p with
      | Some _ =>
          bool_decide (index ∉ F) && js_lt (dotProduct p) PIN_FALLEN_THRESHOLD
      | None => false
      end
  | None => false
  end.

(** The indices one pass over [l] (numbered from [index]) credits. *)
Fixpoint newlyFallen (F : gset nat) (l : list (option Mesh)) (index : nat) : gset nat :=
  match l with
  | [] => ∅
  | pin :: rest =>
      (if fallsNow F pin index then {[ index ]} else ∅) ∪ newlyFallen F rest (S index)
  end.

(** [g'] is [g] but for the score, the fallen set and the score display. *)
Definition scoring_frame (g g' : Game) : Prop :=
  g' = set_scoreText (scoreText g')
         (set_fallenPinIndicesThisThrow (fallenPinIndicesThisThrow g')
            (set_score (score g') g)).

(** The pins credited by one scoring pass over the state [g]. *)
Definition newlyFallenPins (g : Game) : gset nat :=
  newlyFallen (fallenPinIndicesThisThrow g) (pins g) 0.

(** ** The invariants of reachable states *)

(** The mesh exists and owns a physics impostor. *)
Definition pin_ok (p : option Mesh) : Prop :=
  exists m imp, p = Some m /\ physicsImpostor m = Some imp.

(** What holds of the bodies and the game variables in every state the
    game can reach. *)
Record Inv (g : Game) : Prop := mkInv {
  inv_pins_length : List.length (pins g) = 10%nat;
  inv_pins : Forall pin_ok (pins g);
  inv_ball : pin_ok (bowlingBall g);
  inv_arrow : exists a, directionArrow g = Some a;
  inv_fallen : forall i, i ∈ fallenPinIndicesThisThrow g -> (i < 10)%nat;
  inv_score : (0 <= score g)%Z;
  inv_power : MIN_LAUNCH_FORCE <= launchPower g <= MAX_LAUNCH_FORCE;
  inv_aim : - ARROW_MAX_ANGLE <= currentAimAngle g <= ARROW_MAX_ANGLE;
  inv_clock : chargeStartTime g <= now g;
  inv_next : (1 <= nextTimerId g)%nat;
  inv_state : currentGameState g <> ENDED
}.

(** What holds of the pending callbacks in every state the game can
    reach: handles are positive, distinct and older than the next one; a
    recorded reset timer exists only while Rolling and names a pending
    settle reset; and the scene-ready callback is still registered exactly
    as long as the metadata is absent. *)
Definition handles_ok (g : Game) : Prop :=
  (forall t, In t (timers g) -> (1 <= timer_id t < nextTimerId g)%nat)
  /\ List.NoDup (map timer_id (timers g))
  /\ (onReadyObservable g = true <-> metadata g = None).

Definition recorded_ok (g : Game) : Prop :=
  forall id, resetTimer g = Some id ->
    currentGameState g = BALL_ROLLING
    /\ exists t, In t (timers g) /\ timer_id t = id /\ callback t = SettleReset.

Record Queue (g : Game) : Prop := mkQueue {
  q_handles : handles_ok g;
  q_recorded : recorded_ok g
}.

(** Which callbacks are pending, phase by phase, when nothing has gone
    wrong. *)
Definition timers_shape (g : Game) : Prop :=
  match currentGameState g with
  | AIMING | CHARGING => resetTimer g = None /\ timers g = []
  | BALL_ROLLING =>
      (resetTimer g = None /\ timers g = [])
      \/ exists t, resetTimer g = Some (timer_id t) /\ (1 <= timer_id t)%nat
                   /\ timers g = [t] /\ callback t = SettleReset
  | RESETTING =>
      resetTimer g = None /\ exists t, timers g = [t] /\ callback t = ToAiming
  | ENDED => False
  end.

(** The scene was ready in time: the scene-ready callback has installed the
    metadata, and no frame failed on its absence before that, so the
    pending callbacks are exactly those the phase accounts for. *)
Record Orderly (g : Game) : Prop := mkOrderly {
  ord_metadata : metadata g <> None;
  ord_timers : timers_shape g
}.

(** ** Views of the reset and of the Rolling frame *)

(** The state in which [resetGame] calls [resetForNextThrow]. *)
Definition rebuilt (g : Game) : Game :=
  updateScoreDisplay
    (set_score 0%Z
       (set_directionArrow createDirectionArrow
          (set_bowlingBall (Some (mkMesh BALL_START_POS Axis_Y (Some newPhysicsImpostor)))
             (set_pins (map (fun pos => Some (mkMesh pos Axis_Y (Some newPhysicsImpostor)))
                            pinPositions)
                (set_currentGameState RESETTING g))))).

(** The state after [setTimeout] in the settle detector, before the handle
    is written to the metadata. *)
Definition scheduled (g : Game) : Game := snd (setTimeout SettleReset SETTLE_DELAY g).

(** The settle detector's part of the render loop, run on the state the
    scoring pass leaves. *)
Definition settleStep (g : Game) : Completion :=
  if truthy (isBallStopped g) then
    if negb (timer_truthy (resetTimer g)) then
      match metadata g with
      | Some _ => Normal (set_metadata (Some (mkMetadata (Some (nextTimerId g)))) (scheduled g))
      | None => Throw (scheduled g)
      end
    else Normal g
  else
    match resetTimer g with
    | Some (S _ as id) => Normal (set_resetTimer None (clearTimeout id g))
    | _ => Normal g
    end.

(** The first statement of the Rolling case of the render loop. *)
Definition hideArrow (g : Game) : Game :=
  match directionArrow g with
  | Some arrow => set_directionArrow (Some (set_isVisible false arrow)) g
  | None => g
  end.

(** A frame throws. *)
Definition throws (g : Game) : Prop := exists g', renderLoop g = Throw g'.

(** ** Runs *)

(** The time that passes during a run. *)
Fixpoint elapsed (es : list Event) : R :=
  match es with
  | [] => 0
  | Elapse dt :: es' => nonneg dt + elapsed es'
  | _ :: es' => elapsed es'
  end.


(** ** Physics readings *)

(** The ball's reading shows it moving: a velocity is missing or has a
    squared magnitude of at least 0.1. *)
Definition readsMoving (r : BodyReading) : Prop :=
  r_linearVelocity r = None \/ r_angularVelocity r = None
  \/ (exists v, r_linearVelocity r = Some v /\ 0.1 <= lengthSquared v)
  \/ (exists v, r_angularVelocity r = Some v /\ 0.1 <= lengthSquared v).

(** A reading of a ball that has all but come to rest near the pins. *)
Definition restReading : BodyReading :=
  mkReading (mkVector3 0 BALL_START_Y 18) Axis_Y (Some (mkVector3 0 0 0.1))
            (Some Vector3_Zero).

(** A reading of a ball moving down the lane, ten units from the start. *)
Definition rollingReading : BodyReading :=
  mkReading (mkVector3 0 BALL_START_Y 5) Axis_Y (Some (mkVector3 0 0 1)) (Some Vector3_Zero).

(** Two unit up-vectors: one leaning, with vertical component 0.8, and one
    falling, with vertical component 0.6. *)
Definition leaningUp : Vector3 := mkVector3 0.6 0.8 0.

Definition fallingUp : Vector3 := mkVector3 0.8 0.6 0.

(** Readings of the ten pins in which pin 0 has the up-vector [u] and the
    other nine stand upright. *)
Definition rack (u : Vector3) (i : nat) : BodyReading :=
  mkReading Vector3_Zero (if Nat.eqb i 0 then u else Axis_Y)
            (Some Vector3_Zero) (Some Vector3_Zero).

(** ** Sample states, reached by short runs from [init] *)

Definition ms100 : nonnegreal :=
  mknonnegreal 100 (Rlt_le 0 100 (IZR_lt 0 100 eq_refl)).

Definition ms400 : nonnegreal :=
  mknonnegreal 400 (Rlt_le 0 400 (IZR_lt 0 400 eq_refl)).

Definition ms500 : nonnegreal :=
  mknonnegreal 500 (Rlt_le 0 500 (IZR_lt 0 500 eq_refl)).

Definition ms1500 : nonnegreal :=
  mknonnegreal 1500 (Rlt_le 0 1500 (IZR_lt 0 1500 eq_refl)).

(** The scene became ready before anything else happened. *)
Abbreviation sampleReady := (handle SceneReady init) (only parsing).

(** The first aiming state: the start-up timer has fired after 100 ms. *)
Abbreviation sampleAiming := (handle (Timeout 1) (handle (Elapse ms100) sampleReady))
  (only parsing).

(** The launch key has just been pressed. *)
Abbreviation sampleCharging := (handle (KeyDown Space) sampleAiming) (only parsing).

(** The key was held for 1500 ms and a frame was drawn. *)
Abbreviation sampleCharged := (handle Frame (handle (Elapse ms1500) sampleCharging))
  (only parsing).

(** The key has been released. *)
Abbreviation sampleRolling := (handle (KeyUp Space) sampleCharged) (only parsing).

(** A Rolling state whose ball has been lost. *)
Abbreviation sampleNoBall := (set_bowlingBall None sampleRolling) (only parsing).

(** The ball has come to rest after the launch, all pins standing. *)
Abbreviation sampleStopped :=
  (handle (Physics restReading (fun _ => restReading)) sampleRolling) (only parsing).

(** A frame has found the ball stopped and scheduled the settle reset. *)
Abbreviation sampleScheduled := (handle Frame sampleStopped) (only parsing).

(** 100 ms later the ball is reported moving again. *)
Abbreviation sampleResumed :=
  (handle (Physics rollingReading (fun _ => restReading))
     (handle (Elapse ms100) sampleScheduled)) (only parsing).

(** Another 400 ms pass without a frame. *)
Abbreviation sampleLate := (handle (Elapse ms400) sampleResumed) (only parsing).

(** 500 ms pass after the scheduling with the ball still at rest. *)
Abbreviation sampleDue := (handle (Elapse ms500) sampleScheduled) (only parsing).

(** The ball rolls and pin 0 leans, and a frame has been drawn. *)
Abbreviation sampleLeaning :=
  (handle Frame (handle (Physics rollingReading (rack leaningUp)) sampleRolling))
  (only parsing).

(** Pin 0 has tilted further, below the threshold. *)
Abbreviation sampleFalling :=
  (handle (Physics rollingReading (rack fallingUp)) sampleLeaning) (only parsing).

(** A frame has credited pin 0. *)
Abbreviation sampleScored := (handle Frame sampleFalling) (only parsing).

(** Pin 0 has swung back above the threshold and below it again, with a
    frame drawn each time. *)
Abbreviation sampleSwung :=
  (handle (Physics rollingReading (rack fallingUp))
     (handle Frame (handle (Physics rollingReading (rack leaningUp)) sampleScored)))
  (only parsing).

(** The game was started before the scene was ready: the ball has been
    launched and has stopped, and the metadata is still absent. *)
Abbreviation sampleEarly :=
  (handle (Physics restReading (fun _ => restReading))
     (handle (KeyUp Space)
        (handle (KeyDown Space)
           (handle (Timeout 1) (handle (Elapse ms100) init))))) (only parsing).

(** A frame has failed on the missing metadata, the scene has then become
    ready, and 500 ms have passed. *)
Abbreviation sampleStale :=
  (handle (Elapse ms500) (handle SceneReady (handle Frame sampleEarly))) (only parsing).

(** A small rack for trying the scoring pass: an upright pin, a tipped pin,
    a missing pin and a tipped pin without a physics body. *)
Definition uprightPin : Mesh := mkMesh Vector3_Zero Axis_Y (Some newPhysicsImpostor).

Definition tippedPin : Mesh := mkMesh Vector3_Zero (mkVector3 1 0 0) (Some newPhysicsImpostor).

Definition bodilessPin : Mesh := mkMesh Vector3_Zero (mkVector3 1 0 0) None.

Definition demoRack : Game :=
  mkGame None [Some uprightPin; Some tippedPin; None; Some bodilessPin] None 0%Z (Some 0%Z)
         ∅ BALL_ROLLING 0 0 MIN_LAUNCH_FORCE None [] 1%nat 0 0 false.

(** ** Charging, resets, settling, callbacks *)

(** The launch power a charge of duration [d] gives. *)
Definition powerAfter (d : R) : R :=
  MIN_LAUNCH_FORCE + (MAX_LAUNCH_FORCE - MIN_LAUNCH_FORCE) * chargeRatio d.

(** Every state along the run [es] from [g], [g] included, is Charging. *)
Fixpoint staysCharging (es : list Event) (g : Game) : Prop :=
  currentGameState g = CHARGING
  /\ match es with
     | [] => True
     | e :: es' => staysCharging es' (handle e g)
     end.

(** The event is the reset key, released outside Resetting: it runs
    [resetGame]. *)
Definition fullReset (e : Event) (g : Game) : bool :=
  match e with
  | KeyUp KeyR => negb (GameState_eqb (currentGameState g) RESETTING)
  | _ => false
  end.

(** The event is a due timer whose callback is the settle reset: it runs
    [resetForNextThrow]. *)
Definition settleDue (e : Event) (g : Game) : bool :=
  match e with
  | Timeout id =>
      match List.find (fun t => Nat.eqb (timer_id t) id) (timers g) with
      | Some t =>
          match callback t with
          | SettleReset => if number_le_dec (deadline t) (now g) then true else false
          | ToAiming => false
          end
      | None => false
      end
  | _ => false
  end.

(** The event starts a new throw: one of the two resets runs. *)
Definition startsThrow (e : Event) (g : Game) : bool :=
  fullReset e g || settleDue e g.

(** No event of the run starts a new throw. *)
Fixpoint sameThrow (es : list Event) (g : Game) : Prop :=
  match es with
  | [] => True
  | e :: es' => startsThrow e g = false /\ sameThrow es' (handle e g)
  end.





(** ** What the player sees agrees with the game variables *)

(** The aim indicator shows the aim angle and the launch power: it is
    rotated by the aim angle, its length is the image of the launch power
    under the linear map that sends the force range onto the length range,
    it lies at its start pose, and it is hidden while the ball rolls. *)
Definition arrow_coherent (g : Game) : Prop :=
  exists a, directionArrow g = Some a
    /\ rotation_z a = currentAimAngle g
    /\ (scaling_y a - ARROW_LENGTH_MIN) * (MAX_LAUNCH_FORCE - MIN_LAUNCH_FORCE)
       = (launchPower g - MIN_LAUNCH_FORCE) * (ARROW_LENGTH_MAX - ARROW_LENGTH_MIN)
    /\ rotation_x a = PI / 2
    /\ arrow_position a = arrowStartPosition
    /\ (currentGameState g = BALL_ROLLING -> isVisible a = false).

(** The score display shows the score, every index of the fallen set has
    been credited, and the indicator is coherent. *)
Record Coherent (g : Game) : Prop := mkCoherent {
  coh_display : scoreText g = Some (score g);
  coh_credit : (Z.of_nat (size (fallenPinIndicesThisThrow g)) <= score g)%Z;
  coh_arrow : arrow_coherent g
}.

(** ** Deadlines of the pending callbacks *)

(** The delay a callback is scheduled with. *)
Definition delayOf (cb : Callback) : R :=
  match cb with
  | SettleReset => SETTLE_DELAY
  | ToAiming => AIMING_DELAY
  end.

(** No pending callback is due later than its delay from now. *)
Definition deadlines_ok (g : Game) : Prop :=
  forall t, In t (timers g) -> deadline t <= now g + delayOf (callback t).

(** * Verification *)

(** ** Vector facts *)

Lemma js_lt_true (a b : R) : js_lt a b = true <-> a < b.
Proof.
  unfold js_lt. destruct (number_lt_dec a b); split; intros; auto; discriminate.
Qed.

Lemma js_lt_false (a b : R) : js_lt a b = false <-> ~ a < b.
Proof.
  unfold js_lt. destruct (number_lt_dec a b); split; intros; auto; try discriminate.
  contradiction.
Qed.

Lemma aim_vector_length (a : R) :
  BABYLON.length (mkVector3 (- sin a) 0 (cos a)) = 1.
Proof.
  unfold BABYLON.length, lengthSquared. simpl.
  replace (- sin a * - sin a + 0 * 0 + cos a * cos a) with ((sin a)² + (cos a)²)
    by (unfold Rsqr; ring).
  rewrite sin2_cos2. apply sqrt_1.
Qed.

Lemma normalize_aim_vector (a : R) :
  normalize (mkVector3 (- sin a) 0 (cos a)) = mkVector3 (- sin a) 0 (cos a).
Proof.
  unfold normalize. rewrite aim_vector_length.
  destruct (number_eq_dec 1 0) as [E | _]; [lra |].
  destruct (number_eq_dec 1 1) as [_ | N]; [reflexivity | lra].
Qed.

Lemma length_scale (v : Vector3) (k : R) :
  0 <= k -> BABYLON.length (scale v k) = k * BABYLON.length v.
Proof.
  intros Hk. unfold BABYLON.length, lengthSquared, scale. simpl.
  replace (x v * k * (x v * k) + y v * k * (y v * k) + z v * k * (z v * k))
    with (k² * (x v * x v + y v * y v + z v * z v)) by (unfold Rsqr; ring).
  rewrite sqrt_mult_alt by apply Rle_0_sqr.
  rewrite sqrt_Rsqr by exact Hk. reflexivity.
Qed.

Lemma normalize_axis_y : normalize Axis_Y = Axis_Y.
Proof.
  unfold normalize.
  assert (L : BABYLON.length Axis_Y = 1).
  { unfold BABYLON.length, lengthSquared, Axis_Y. simpl.
    replace (0 * 0 + 1 * 1 + 0 * 0) with 1 by ring. apply sqrt_1. }
  rewrite L.
  destruct (number_eq_dec 1 0) as [E | _]; [lra |].
  destruct (number_eq_dec 1 1) as [_ | N]; [reflexivity | lra].
Qed.

(** ** The scoring pass *)

Lemma scoring_frame_refl (g : Game) : scoring_frame g g.
Proof. destruct g; reflexivity. Qed.

Lemma scoring_frame_trans (g1 g2 g3 : Game) :
  scoring_frame g1 g2 -> scoring_frame g2 g3 -> scoring_frame g1 g3.
Proof.
  unfold scoring_frame. intros H12 H23.
  rewrite H23 at 1. rewrite H12 at 1. reflexivity.
Qed.

Lemma newlyFallen_lower (F : gset nat) (l : list (option Mesh)) (index i : nat) :
  i ∈ newlyFallen F l index -> (index <= i)%nat.
Proof.
  revert index. induction l as [| pin rest IH]; intros index; simpl.
  - set_solver.
  - rewrite elem_of_union. intros [H | H].
    + destruct (fallsNow F pin index); set_solver.
    + apply IH in H. lia.
Qed.

Lemma newlyFallen_elem (F : gset nat) (l : list (option Mesh)) (index i : nat) :
  i ∈ newlyFallen F l index <->
  exists k, i = (index + k)%nat /\ fallsNow F (default None (l !! k)) i = true
            /\ (k < List.length l)%nat.
Proof.
  revert index. induction l as [| pin rest IH]; intros index; simpl.
  - split; [set_solver |]. intros (k & _ & _ & Hk). lia.
  - rewrite elem_of_union, IH. split.
    + intros [H | (k & -> & Hf & Hk)].
      * destruct (fallsNow F pin index) eqn:E; [| set_solver].
        apply elem_of_singleton in H. subst i.
        exists 0%nat. simpl. rewrite Nat.add_0_r. split; [reflexivity |].
        split; [exact E | lia].
      * exists (S k). simpl. split; [lia |]. split; [exact Hf | lia].
    + intros ([| k] & -> & Hf & Hk); simpl in *.
      * left. rewrite Nat.add_0_r in *. rewrite Hf. set_solver.
      * right. exists k. split; [lia |]. split; [exact Hf | lia].
Qed.

Lemma fallsNow_insert (F : gset nat) (pin : option Mesh) (j i : nat) :
  j <> i -> fallsNow ({[ j ]} ∪ F) pin i = fallsNow F pin i.
Proof.
  intros Hne. unfold fallsNow. destruct pin as [p |]; [| reflexivity].
  destruct (physicsImpostor p); [| reflexivity].
  f_equal. apply bool_decide_ext. set_solver.
Qed.

Lemma newlyFallen_insert (F : gset nat) (l : list (option Mesh)) (j index : nat) :
  (j < index)%nat -> newlyFallen ({[ j ]} ∪ F) l index = newlyFallen F l index.
Proof.
  revert index. induction l as [| pin rest IH]; intros index Hlt; simpl.
  - reflexivity.
  - rewrite fallsNow_insert by lia. rewrite IH by lia. reflexivity.
Qed.

Lemma checkPin_fallsNow (pin : option Mesh) (index : nat) (g : Game) (n : Z) :
  checkPin pin index (g, n) =
  if fallsNow (fallenPinIndicesThisThrow g) pin index then
    (set_fallenPinIndicesThisThrow ({[ index ]} ∪ fallenPinIndicesThisThrow g)
       (set_score (score g + 1)%Z g), (n + 1)%Z)
  else (g, n).
Proof.
  unfold checkPin, fallsNow. destruct pin as [p |]; [| reflexivity].
  destruct (physicsImpostor p); [| reflexivity].
  destruct (decide (index ∈ fallenPinIndicesThisThrow g)) as [Hin | Hout].
  - rewrite bool_decide_eq_false_2 by (intros H; apply H; exact Hin). reflexivity.
  - rewrite bool_decide_eq_true_2 by exact Hout. simpl.
    destruct (js_lt (dotProduct p) PIN_FALLEN_THRESHOLD); reflexivity.
Qed.

(** What the [forEach] loop of [checkFallenPins] computes. *)
Lemma forEachPin_spec (l : list (option Mesh)) (index : nat) (g : Game) (n : Z) :
  let F := fallenPinIndicesThisThrow g in
  let N := newlyFallen F l index in
  let r := forEachPin l index (g, n) in
  scoring_frame g (fst r)
  /\ scoreText (fst r) = scoreText g
  /\ fallenPinIndicesThisThrow (fst r) = N ∪ F
  /\ score (fst r) = (score g + Z.of_nat (size N))%Z
  /\ snd r = (n + Z.of_nat (size N))%Z.
Proof.
  revert index g n.
  induction l as [| pin rest IH]; intros index g n; cbn [forEachPin newlyFallen fst snd].
  - split; [apply scoring_frame_refl |]. split; [reflexivity |].
    split; [set_solver |]. rewrite size_empty. split; lia.
  - rewrite checkPin_fallsNow.
    destruct (fallsNow (fallenPinIndicesThisThrow g) pin index) eqn:E.
    + set (g1 := set_fallenPinIndicesThisThrow _ _).
      specialize (IH (S index) g1 (n + 1)%Z). cbn zeta in IH.
      destruct IH as (Hfr & Htxt & Hfal & Hsc & Hn).
      change (fallenPinIndicesThisThrow g1)
        with ({[ index ]} ∪ fallenPinIndicesThisThrow g) in Hfal, Hsc, Hn.
      rewrite newlyFallen_insert in Hfal, Hsc, Hn by lia.
      assert (Hdisj : ({[ index ]} : gset nat)
                        ## newlyFallen (fallenPinIndicesThisThrow g) rest (S index)).
      { intros i Hi Hj. apply elem_of_singleton in Hi. subst i.
        apply newlyFallen_lower in Hj. lia. }
      rewrite size_union by exact Hdisj. rewrite size_singleton.
      split.
      { eapply scoring_frame_trans; [| exact Hfr]. destruct g; reflexivity. }
      split; [rewrite Htxt; reflexivity |].
      split; [rewrite Hfal; set_solver |].
      change (score g1) with (score g + 1)%Z in Hsc. split; lia.
    + specialize (IH (S index) g n). cbn zeta in IH.
      destruct IH as (Hfr & Htxt & Hfal & Hsc & Hn).
      rewrite (left_id_L ∅ (∪)).
      repeat split; assumption.
Qed.

Lemma updateScoreDisplay_frame (g : Game) : scoring_frame g (updateScoreDisplay g).
Proof. unfold updateScoreDisplay. destruct g as [? ? ? ? [t |] ? ? ? ? ? ? ? ? ? ? ?]; reflexivity. Qed.

Lemma updateScoreDisplay_score (g : Game) : score (updateScoreDisplay g) = score g.
Proof. unfold updateScoreDisplay. destruct (scoreText g); reflexivity. Qed.

Lemma updateScoreDisplay_fallen (g : Game) :
  fallenPinIndicesThisThrow (updateScoreDisplay g) = fallenPinIndicesThisThrow g.
Proof. unfold updateScoreDisplay. destruct (scoreText g); reflexivity. Qed.

Lemma checkFallenPins_spec (g : Game) :
  scoring_frame g (checkFallenPins g)
  /\ fallenPinIndicesThisThrow (checkFallenPins g)
     = newlyFallenPins g ∪ fallenPinIndicesThisThrow g
  /\ score (checkFallenPins g) = (score g + Z.of_nat (size (newlyFallenPins g)))%Z.
Proof.
  unfold checkFallenPins, newlyFallenPins.
  pose proof (forEachPin_spec (pins g) 0 g 0%Z) as H. cbn zeta in H.
  destruct (forEachPin (pins g) 0 (g, 0%Z)) as [g' n]. cbn [fst snd] in H.
  destruct H as (Hfr & _ & Hfal & Hsc & _).
  destruct (0 <? n)%Z.
  - split; [eapply scoring_frame_trans; [exact Hfr | apply updateScoreDisplay_frame] |].
    rewrite updateScoreDisplay_fallen, updateScoreDisplay_score. split; assumption.
  - repeat split; assumption.
Qed.

Lemma scoring_frame_fields (g g' : Game) :
  scoring_frame g g' ->
  bowlingBall g' = bowlingBall g /\ pins g' = pins g
  /\ directionArrow g' = directionArrow g
  /\ currentGameState g' = currentGameState g
  /\ currentAimAngle g' = currentAimAngle g
  /\ chargeStartTime g' = chargeStartTime g
  /\ launchPower g' = launchPower g
  /\ resetTimer g' = resetTimer g /\ timers g' = timers g
  /\ nextTimerId g' = nextTimerId g /\ now g' = now g
  /\ metadata g' = metadata g /\ lastFrameTime g' = lastFrameTime g
  /\ onReadyObservable g' = onReadyObservable g.
Proof.
  unfold scoring_frame. intros ->. repeat split; reflexivity.
Qed.

(** ** The metadata and its reset timer *)

Lemma resetTimer_None (g : Game) : metadata g = None -> resetTimer g = None.
Proof. unfold resetTimer. intros ->. reflexivity. Qed.

Lemma resetTimer_Some_metadata (g : Game) (id : nat) :
  resetTimer g = Some id -> metadata g <> None.
Proof. unfold resetTimer. destruct (metadata g); [discriminate | discriminate]. Qed.

Lemma resetTimer_cleared (g : Game) : resetTimer (set_resetTimer None g) = None.
Proof.
  unfold set_resetTimer, resetTimer.
  destruct (metadata g) eqn:E; cbn [metadata set_metadata md_resetTimer]; [reflexivity |].
  rewrite E. reflexivity.
Qed.

Lemma set_resetTimer_same (g : Game) :
  resetTimer g = None -> set_resetTimer None g = g.
Proof.
  unfold resetTimer, set_resetTimer. destruct g as [? ? ? ? ? ? ? ? ? ? [[m] |] ? ? ? ? ?];
    cbn; [intros -> |]; reflexivity.
Qed.

(** The guarded write changes nothing but the metadata, and never removes
    or installs it. *)
Lemma set_resetTimer_fields (v : option nat) (g : Game) :
  let g' := set_resetTimer v g in
  bowlingBall g' = bowlingBall g /\ pins g' = pins g
  /\ directionArrow g' = directionArrow g
  /\ score g' = score g /\ scoreText g' = scoreText g
  /\ fallenPinIndicesThisThrow g' = fallenPinIndicesThisThrow g
  /\ currentGameState g' = currentGameState g
  /\ currentAimAngle g' = currentAimAngle g
  /\ chargeStartTime g' = chargeStartTime g
  /\ launchPower g' = launchPower g /\ timers g' = timers g
  /\ nextTimerId g' = nextTimerId g /\ now g' = now g
  /\ lastFrameTime g' = lastFrameTime g
  /\ onReadyObservable g' = onReadyObservable g
  /\ (metadata g' = None <-> metadata g = None).
Proof.
  cbv zeta. unfold set_resetTimer.
  destruct (metadata g) eqn:E; cbn; rewrite ?E; repeat split; try reflexivity;
    discriminate.
Qed.

(** ** The invariant of the bodies and the game variables *)

Lemma ARROW_MAX_ANGLE_pos : 0 < ARROW_MAX_ANGLE.
Proof. unfold ARROW_MAX_ANGLE. pose proof PI_RGT_0. lra. Qed.

Lemma chargeRatio_range (d : R) : 0 <= d -> 0 <= chargeRatio d <= 1.
Proof.
  intros Hd. unfold chargeRatio, MAX_CHARGE_TIME.
  assert (0 <= d / 1500) by (apply Rmult_le_pos; lra).
  unfold Rmin. destruct (Rle_dec (d / 1500) 1.0); lra.
Qed.

Lemma aim_range (t : R) :
  - ARROW_MAX_ANGLE <= sin t * ARROW_MAX_ANGLE <= ARROW_MAX_ANGLE.
Proof.
  pose proof (SIN_bound t) as [Hl Hu]. pose proof ARROW_MAX_ANGLE_pos as Hp.
  split; nra.
Qed.

Lemma pinPositions_length : List.length pinPositions = 10%nat.
Proof. reflexivity. Qed.

(** The post-state of [resetForNextThrow], field by field. *)
Lemma resetForNextThrow_fields (g : Game) :
  let g' := resetForNextThrow g in
  pins g' = pins g /\ score g' = score g /\ scoreText g' = scoreText g
  /\ fallenPinIndicesThisThrow g' = ∅
  /\ currentGameState g' = RESETTING
  /\ currentAimAngle g' = 0 /\ launchPower g' = MIN_LAUNCH_FORCE
  /\ chargeStartTime g' = chargeStartTime g /\ resetTimer g' = resetTimer g
  /\ timers g' = timers g ++ [mkTimer (nextTimerId g) (now g + AIMING_DELAY) ToAiming]
  /\ nextTimerId g' = S (nextTimerId g) /\ now g' = now g
  /\ bowlingBall g' =
     option_map (fun ball =>
       mkMesh BALL_START_POS (up ball)
         (option_map (fun imp => mkImpostor (Some Vector3_Zero) (Some Vector3_Zero)
                                            (awake imp) (impulses imp))
                     (physicsImpostor ball))) (bowlingBall g)
  /\ directionArrow g' =
     option_map (fun arrow => mkArrow arrowStartPosition (rotation_x arrow) 0
                                      ARROW_LENGTH_MIN true) (directionArrow g)
  /\ metadata g' = metadata g /\ lastFrameTime g' = lastFrameTime g
  /\ onReadyObservable g' = onReadyObservable g.
Proof.
  destruct g as [[[bp bu [imp |]] |] ps [a |] sc st F ph aim cs lp md ts nid t lf ob];
    cbv zeta; unfold resetForNextThrow; cbn; repeat split; reflexivity.
Qed.

(** A state that differs only in the queue of callbacks, the metadata, the
    display or the observer keeps the invariant. *)
Lemma Inv_same (g h : Game) :
  pins h = pins g -> bowlingBall h = bowlingBall g ->
  directionArrow h = directionArrow g ->
  fallenPinIndicesThisThrow h = fallenPinIndicesThisThrow g -> score h = score g ->
  launchPower h = launchPower g -> currentAimAngle h = currentAimAngle g ->
  chargeStartTime h = chargeStartTime g -> now h = now g ->
  (nextTimerId g <= nextTimerId h)%nat -> currentGameState h = currentGameState g ->
  Inv g -> Inv h.
Proof.
  intros E1 E2 E3 E4 E5 E6 E7 E8 E9 E10 E11 [H1 H2 H3 H4 H5 H6 H7 H8 H9 H10 H11].
  constructor; rewrite ?E1, ?E2, ?E3, ?E4, ?E5, ?E6, ?E7, ?E8, ?E9, ?E11;
    try assumption. lia.
Qed.

Lemma Inv_set_resetTimer (v : option nat) (g : Game) : Inv g -> Inv (set_resetTimer v g).
Proof.
  intros H. pose proof (set_resetTimer_fields v g) as F. cbv zeta in F.
  revert F. generalize (set_resetTimer v g). intros h F.
  destruct F as (E1 & E2 & E3 & E4 & _ & E5 & E6 & E7 & E8 & E9 & _ & E10 & E11 & _).
  apply (Inv_same g h); try assumption. rewrite E10. lia.
Qed.

Lemma Inv_clearTimeout (id : nat) (g : Game) : Inv g -> Inv (clearTimeout id g).
Proof. intros H. apply (Inv_same g); first [reflexivity | lia | exact H]. Qed.

Lemma Inv_scheduled (g : Game) : Inv g -> Inv (scheduled g).
Proof.
  intros H. apply (Inv_same g); first [reflexivity | exact H | idtac].
  unfold scheduled. cbn. lia.
Qed.

Lemma Inv_set_metadata (v : option Metadata) (g : Game) : Inv g -> Inv (set_metadata v g).
Proof. intros H. apply (Inv_same g); first [reflexivity | lia | exact H]. Qed.

Lemma resetForNextThrow_Inv (g : Game) : Inv g -> Inv (resetForNextThrow g).
Proof.
  intros [H1 H2 H3 H4 H5 H6 H7 H8 H9 H10 H11].
  destruct H3 as (b & imp & Hb & Himp). destruct H4 as (a & Ha).
  pose proof (resetForNextThrow_fields g) as H. cbv zeta in H.
  revert H. generalize (resetForNextThrow g). intros g' H.
  destruct H as (Hp & Hs & _ & Hf & Hph & Haim & Hlp & Hcs & Hr & Ht & Hn & Hnow
                 & Hball & Harr & _).
  constructor.
  - rewrite Hp. exact H1.
  - rewrite Hp. exact H2.
  - rewrite Hball, Hb. simpl. rewrite Himp. simpl. do 2 eexists. split; reflexivity.
  - rewrite Harr, Ha. simpl. eexists. reflexivity.
  - rewrite Hf. set_solver.
  - rewrite Hs. exact H6.
  - rewrite Hlp. unfold MIN_LAUNCH_FORCE, MAX_LAUNCH_FORCE. lra.
  - rewrite Haim. pose proof ARROW_MAX_ANGLE_pos. lra.
  - rewrite Hcs, Hnow. exact H9.
  - rewrite Hn. lia.
  - rewrite Hph. discriminate.
Qed.

Lemma createDirectionArrow_some : exists a, createDirectionArrow = Some a.
Proof. unfold createDirectionArrow. simpl. eexists. reflexivity. Qed.

Lemma resetGame_rebuilt (g : Game) : resetGame g = resetForNextThrow (rebuilt g).
Proof. reflexivity. Qed.

Lemma rebuilt_fields (g : Game) :
  pins (rebuilt g)
  = map (fun pos => Some (mkMesh pos Axis_Y (Some newPhysicsImpostor))) pinPositions
  /\ bowlingBall (rebuilt g) = Some (mkMesh BALL_START_POS Axis_Y (Some newPhysicsImpostor))
  /\ directionArrow (rebuilt g) = createDirectionArrow
  /\ score (rebuilt g) = 0%Z
  /\ chargeStartTime (rebuilt g) = chargeStartTime g
  /\ resetTimer (rebuilt g) = resetTimer g /\ timers (rebuilt g) = timers g
  /\ nextTimerId (rebuilt g) = nextTimerId g /\ now (rebuilt g) = now g
  /\ metadata (rebuilt g) = metadata g /\ lastFrameTime (rebuilt g) = lastFrameTime g
  /\ onReadyObservable (rebuilt g) = onReadyObservable g
  /\ fallenPinIndicesThisThrow (rebuilt g) = fallenPinIndicesThisThrow g
  /\ launchPower (rebuilt g) = launchPower g
  /\ currentAimAngle (rebuilt g) = currentAimAngle g
  /\ currentGameState (rebuilt g) = RESETTING.
Proof.
  unfold rebuilt, updateScoreDisplay.
  destruct g as [b ps a sc [st |] F ph aim cs lp md ts nid t lf ob]; cbn;
    repeat split; reflexivity.
Qed.

Lemma rebuilt_Inv (g : Game) :
  fallenPinIndicesThisThrow g = ∅ \/ Inv g ->
  MIN_LAUNCH_FORCE <= launchPower g <= MAX_LAUNCH_FORCE ->
  - ARROW_MAX_ANGLE <= currentAimAngle g <= ARROW_MAX_ANGLE ->
  chargeStartTime g <= now g -> (1 <= nextTimerId g)%nat ->
  Inv (rebuilt g).
Proof.
  intros HF Hlp Haim Hclk Hnext.
  destruct (rebuilt_fields g)
    as (Hp & Hb & Ha & Hs & Hcs & _ & _ & Hn & Hnow & _ & _ & _ & Ef & El & Ea & Eph).
  constructor.
  - rewrite Hp. reflexivity.
  - rewrite Hp. apply Forall_forall. intros p Hin.
    apply list_elem_of_In, in_map_iff in Hin. destruct Hin as (pos & <- & _).
    do 2 eexists. split; reflexivity.
  - rewrite Hb. do 2 eexists. split; reflexivity.
  - rewrite Ha. apply createDirectionArrow_some.
  - rewrite Ef. destruct HF as [-> | HI]; [set_solver | apply (inv_fallen _ HI)].
  - rewrite Hs. lia.
  - rewrite El. exact Hlp.
  - rewrite Ea. exact Haim.
  - rewrite Hcs, Hnow. exact Hclk.
  - rewrite Hn. exact Hnext.
  - rewrite Eph. discriminate.
Qed.

Lemma resetGame_Inv (g : Game) : Inv g -> Inv (resetGame g).
Proof.
  intros H. rewrite resetGame_rebuilt. apply resetForNextThrow_Inv.
  apply rebuilt_Inv; [right; exact H | apply H ..].
Qed.

Lemma Inv_set_directionArrow (a : ArrowMesh) (g : Game) :
  Inv g -> Inv (set_directionArrow (Some a) g).
Proof.
  intros [H1 H2 H3 H4 H5 H6 H7 H8 H9 H10 H11].
  constructor; try assumption. eexists. reflexivity.
Qed.

Lemma Inv_set_onReadyObservable (v : bool) (g : Game) :
  Inv g -> Inv (set_onReadyObservable v g).
Proof. intros H. apply (Inv_same g); first [reflexivity | lia | exact H]. Qed.

Lemma Inv_set_lastFrameTime (v : R) (g : Game) : Inv g -> Inv (set_lastFrameTime v g).
Proof. intros H. apply (Inv_same g); first [reflexivity | lia | exact H]. Qed.

Lemma init_Inv : Inv init.
Proof.
  unfold init, createScene. apply Inv_set_onReadyObservable.
  rewrite resetGame_rebuilt. apply resetForNextThrow_Inv.
  apply rebuilt_Inv.
  - left. reflexivity.
  - cbn. unfold MIN_LAUNCH_FORCE, MAX_LAUNCH_FORCE. lra.
  - cbn. pose proof ARROW_MAX_ANGLE_pos. lra.
  - cbn. lra.
  - cbn. lia.
Qed.

Lemma Inv_elapse (dt : nonnegreal) (g : Game) :
  Inv g -> Inv (handle (Elapse dt) g).
Proof.
  intros [H1 H2 H3 H4 H5 H6 H7 H8 H9 H10 H11].
  constructor; try assumption.
  simpl. pose proof (cond_nonneg dt). lra.
Qed.

Lemma integrate_ok (r : BodyReading) (p : option Mesh) :
  pin_ok p -> pin_ok (option_map (integrate r) p).
Proof.
  intros (m & imp & -> & Himp). simpl. unfold integrate. rewrite Himp.
  do 2 eexists. split; reflexivity.
Qed.

Lemma Inv_physics (ballR : BodyReading) (pinR : nat -> BodyReading) (g : Game) :
  Inv g -> Inv (handle (Physics ballR pinR) g).
Proof.
  intros [H1 H2 H3 H4 H5 H6 H7 H8 H9 H10 H11].
  constructor; try assumption.
  - simpl. rewrite length_imap. exact H1.
  - simpl. apply Forall_lookup. intros i p Hi.
    rewrite list_lookup_imap in Hi.
    destruct (pins g !! i) as [q |] eqn:E; simpl in Hi; [| discriminate].
    injection Hi as <-. apply integrate_ok.
    rewrite Forall_lookup in H2. eapply H2. exact E.
  - simpl. apply integrate_ok. exact H3.
Qed.

Lemma Inv_keydown (k : Key) (g : Game) : Inv g -> Inv (handle (KeyDown k) g).
Proof.
  intros H. simpl. unfold keydown. destruct k; try exact H.
  destruct (currentGameState g) eqn:Hph; try exact H.
  destruct H as [H1 H2 H3 H4 H5 H6 H7 H8 H9 H10 H11].
  destruct H4 as [a Ha]. simpl. rewrite Ha.
  constructor; try assumption.
  - eexists. reflexivity.
  - simpl. unfold chargeRatio, MIN_LAUNCH_FORCE, MAX_LAUNCH_FORCE, MAX_CHARGE_TIME.
    replace (0 / 1500) with 0 by lra.
    unfold Rmin. destruct (Rle_dec 0 1.0); lra.
  - simpl. lra.
  - simpl. discriminate.
Qed.

Lemma Inv_keyup (k : Key) (g : Game) : Inv g -> Inv (handle (KeyUp k) g).
Proof.
  intros H. simpl. unfold keyup. destruct k; try exact H.
  - (* Space *)
    destruct (currentGameState g) eqn:Hph; try exact H.
    destruct H as [H1 H2 H3 H4 H5 H6 H7 H8 H9 H10 H11].
    destruct H4 as [a Ha]. destruct H3 as (b & imp & Hb & Himp).
    simpl. rewrite Hb, Himp. simpl. rewrite Ha.
    constructor; try assumption.
    + do 2 eexists. split; reflexivity.
    + eexists. reflexivity.
    + simpl. discriminate.
  - (* R *)
    destruct (currentGameState g) eqn:Hph; try exact H;
      apply resetGame_Inv;
      (destruct (resetTimer g) as [[| n] |];
       [exact H | apply Inv_set_resetTimer, Inv_clearTimeout; exact H | exact H]).
Qed.

Lemma fireTimeout_cases (id : nat) (g : Game) :
  fireTimeout id g = g
  \/ exists t, In t (timers g) /\ timer_id t = id /\ deadline t <= now g
               /\ List.find (fun t => Nat.eqb (timer_id t) id) (timers g) = Some t
               /\ fireTimeout id g = runCallback (callback t) (clearTimeout id g).
Proof.
  unfold fireTimeout.
  destruct (List.find (fun t => Nat.eqb (timer_id t) id) (timers g)) as [t |] eqn:E;
    [| left; reflexivity].
  destruct (number_le_dec (deadline t) (now g)) as [Hdue |]; [| left; reflexivity].
  right. exists t. apply find_some in E. destruct E as [Hin Hid].
  apply Nat.eqb_eq in Hid. repeat split; assumption.
Qed.

Lemma Inv_runCallback (cb : Callback) (g : Game) : Inv g -> Inv (runCallback cb g).
Proof.
  intros H. destruct cb; unfold runCallback.
  - apply Inv_set_resetTimer, resetForNextThrow_Inv. exact H.
  - destruct (currentGameState g); try exact H.
    destruct H as [H1 H2 H3 H4 H5 H6 H7 H8 H9 H10 H11].
    constructor; try assumption. simpl. discriminate.
Qed.

Lemma Inv_timeout (id : nat) (g : Game) : Inv g -> Inv (handle (Timeout id) g).
Proof.
  intros H. simpl.
  destruct (fireTimeout_cases id g) as [-> | (t & _ & _ & _ & _ & ->)]; [exact H |].
  apply Inv_runCallback, Inv_clearTimeout. exact H.
Qed.

Lemma newlyFallenPins_bound (g : Game) (i : nat) :
  i ∈ newlyFallenPins g -> (i < List.length (pins g))%nat.
Proof.
  unfold newlyFallenPins. rewrite newlyFallen_elem.
  intros (k & -> & _ & Hk). simpl. exact Hk.
Qed.

Lemma Inv_checkFallenPins (g : Game) : Inv g -> Inv (checkFallenPins g).
Proof.
  intros [H1 H2 H3 H4 H5 H6 H7 H8 H9 H10 H11].
  destruct (checkFallenPins_spec g) as (Hfr & Hfal & Hsc).
  apply scoring_frame_fields in Hfr.
  destruct Hfr as (Eb & Ep & Ea & Eph & Eaim & Ecs & Elp & Ert & Ets & Enid & Enow & _).
  constructor.
  - rewrite Ep. exact H1.
  - rewrite Ep. exact H2.
  - rewrite Eb. exact H3.
  - rewrite Ea. exact H4.
  - intros i. rewrite Hfal, elem_of_union. intros [Hi | Hi].
    + apply newlyFallenPins_bound in Hi. lia.
    + apply H5. exact Hi.
  - rewrite Hsc. lia.
  - rewrite Elp. exact H7.
  - rewrite Eaim. exact H8.
  - rewrite Ecs, Enow. exact H9.
  - rewrite Enid. exact H10.
  - rewrite Eph. exact H11.
Qed.

Lemma renderLoop_rolling (g : Game) :
  currentGameState g = BALL_ROLLING ->
  renderLoop g = settleStep (checkFallenPins (hideArrow g)).
Proof. intros H. unfold renderLoop. rewrite H. reflexivity. Qed.

Lemma Inv_hideArrow (g : Game) : Inv g -> Inv (hideArrow g).
Proof.
  intros H. unfold hideArrow. destruct (directionArrow g); [| exact H].
  apply Inv_set_directionArrow. exact H.
Qed.

Lemma Inv_settleStep (g : Game) : Inv g -> Inv (stateOf (settleStep g)).
Proof.
  intros H. unfold settleStep. destruct (truthy (isBallStopped g)).
  - destruct (negb (timer_truthy (resetTimer g))); [| exact H].
    destruct (metadata g); cbn [stateOf].
    + apply Inv_set_metadata, Inv_scheduled. exact H.
    + apply Inv_scheduled. exact H.
  - destruct (resetTimer g) as [[| n] |]; cbn [stateOf]; try exact H.
    apply Inv_set_resetTimer, Inv_clearTimeout. exact H.
Qed.

Lemma hideArrow_state (g : Game) : currentGameState (hideArrow g) = currentGameState g.
Proof. unfold hideArrow. destruct (directionArrow g); reflexivity. Qed.

Lemma checkFallenPins_state (g : Game) :
  currentGameState (checkFallenPins g) = currentGameState g.
Proof.
  destruct (checkFallenPins_spec g) as (Hfr & _).
  apply scoring_frame_fields in Hfr. tauto.
Qed.

Lemma Inv_frame (g : Game) : Inv g -> Inv (handle Frame g).
Proof.
  intros H. simpl.
  destruct (currentGameState g) eqn:Hph.
  - (* AIMING *)
    unfold renderLoop. rewrite Hph.
    destruct H as [H1 H2 H3 H4 H5 H6 H7 H8 H9 H10 H11].
    destruct H4 as [a Ha]. rewrite Ha. cbn [stateOf].
    constructor; try assumption.
    + eexists. reflexivity.
    + simpl. apply aim_range.
  - (* CHARGING *)
    unfold renderLoop. rewrite Hph.
    destruct H as [H1 H2 H3 H4 H5 H6 H7 H8 H9 H10 H11].
    destruct H4 as [a Ha]. rewrite Ha. cbn [stateOf].
    constructor; try assumption.
    + eexists. reflexivity.
    + simpl.
      assert (Hr : 0 <= chargeRatio (now g - chargeStartTime g) <= 1)
        by (apply chargeRatio_range; lra).
      unfold MIN_LAUNCH_FORCE, MAX_LAUNCH_FORCE. split; nra.
  - (* BALL_ROLLING *)
    rewrite renderLoop_rolling by exact Hph.
    apply Inv_settleStep, Inv_checkFallenPins, Inv_hideArrow. exact H.
  - unfold renderLoop. rewrite Hph. exact H.
  - unfold renderLoop. rewrite Hph. exact H.
Qed.

(** The post-state of the scene-ready callback, field by field. *)
Lemma sceneReady_fields (g : Game) :
  let g' := sceneReady g in
  bowlingBall g' = bowlingBall g /\ pins g' = pins g
  /\ score g' = score g /\ scoreText g' = scoreText g
  /\ fallenPinIndicesThisThrow g' = fallenPinIndicesThisThrow g
  /\ currentAimAngle g' = currentAimAngle g
  /\ chargeStartTime g' = chargeStartTime g
  /\ launchPower g' = launchPower g /\ timers g' = timers g
  /\ nextTimerId g' = nextTimerId g /\ now g' = now g
  /\ onReadyObservable g' = onReadyObservable g
  /\ lastFrameTime g' = now g
  /\ metadata g' = match metadata g with
                   | Some m => Some m
                   | None => Some (mkMetadata None)
                   end
  /\ currentGameState g' = match currentGameState g with
                           | RESETTING => RESETTING
                           | _ => AIMING
                           end
  /\ directionArrow g'
     = option_map (set_isVisible (GameState_eqb (currentGameState g') AIMING))
                  (directionArrow g).
Proof.
  destruct g as [b ps [a |] sc st F [] aim cs lp [m |] ts nid t lf ob]; cbn;
    repeat split; reflexivity.
Qed.

Lemma Inv_sceneReady (g : Game) : Inv g -> Inv (sceneReady g).
Proof.
  intros [H1 H2 H3 H4 H5 H6 H7 H8 H9 H10 H11].
  pose proof (sceneReady_fields g) as F. cbv zeta in F.
  revert F. generalize (sceneReady g). intros g' F.
  destruct F as (E1 & E2 & E3 & _ & E4 & E5 & E6 & E7 & _ & E8 & E9 & _ & _ & _ & E10 & E11).
  constructor; rewrite ?E1, ?E2, ?E3, ?E4, ?E5, ?E6, ?E7, ?E8, ?E9; try assumption.
  - destruct H4 as [a Ha]. rewrite E11, Ha. eexists. reflexivity.
  - rewrite E10. destruct (currentGameState g); discriminate.
Qed.

Lemma Inv_notifyOnReady (g : Game) : Inv g -> Inv (handle SceneReady g).
Proof.
  intros H. unfold handle, notifyOnReady. destruct (onReadyObservable g); [| exact H].
  apply Inv_sceneReady, Inv_set_onReadyObservable. exact H.
Qed.

Theorem reachable_Inv (g : Game) : reachable g -> Inv g.
Proof.
  induction 1 as [| e g Hr IH].
  - apply init_Inv.
  - destruct e.
    + apply Inv_elapse. exact IH.
    + apply Inv_physics. exact IH.
    + apply Inv_frame. exact IH.
    + apply Inv_keydown. exact IH.
    + apply Inv_keyup. exact IH.
    + apply Inv_timeout. exact IH.
    + apply Inv_notifyOnReady. exact IH.
Qed.

(** ** The invariant of the pending callbacks *)

Lemma clearTimeout_In_iff (id : nat) (g : Game) (t : Timer) :
  In t (timers (clearTimeout id g)) <-> In t (timers g) /\ timer_id t <> id.
Proof.
  unfold clearTimeout. cbn [timers set_timers]. rewrite filter_In.
  rewrite negb_true_iff, Nat.eqb_neq. reflexivity.
Qed.

Lemma NoDup_map_filter {A B : Type} (f : A -> B) (p : A -> bool) (l : list A) :
  List.NoDup (map f l) -> List.NoDup (map f (List.filter p l)).
Proof.
  induction l as [| a l IH]; cbn [map List.filter]; intros H.
  - exact H.
  - apply NoDup_cons_iff in H. destruct H as [Hn Hd].
    destruct (p a); cbn [map]; [| apply IH; exact Hd].
    apply NoDup_cons_iff. split; [| apply IH; exact Hd].
    intros Hin. apply Hn. apply in_map_iff in Hin. destruct Hin as (x & Hx & Hin).
    apply in_map_iff. exists x. split; [exact Hx |].
    apply filter_In in Hin. apply Hin.
Qed.

Lemma NoDup_map_snoc (l : list Timer) (t : Timer) :
  List.NoDup (map timer_id l) -> (forall t', In t' l -> timer_id t' <> timer_id t) ->
  List.NoDup (map timer_id (l ++ [t])).
Proof.
  induction l as [| a l IH]; cbn [map app]; intros H Hne.
  - apply NoDup_cons_iff. split; [intros [] | constructor].
  - apply NoDup_cons_iff in H. destruct H as [Hn Hd].
    apply NoDup_cons_iff. split.
    + intros Hin. apply in_map_iff in Hin. destruct Hin as (x & Hx & Hin).
      apply in_app_or in Hin. destruct Hin as [Hin | [<- | []]].
      * apply Hn. apply in_map_iff. exists x. split; assumption.
      * apply (Hne a); [left; reflexivity | symmetry; exact Hx].
    + apply IH; [exact Hd |]. intros t' Ht'. apply Hne. right. exact Ht'.
Qed.

Lemma NoDup_ids_unique (l : list Timer) (t t' : Timer) :
  List.NoDup (map timer_id l) -> In t l -> In t' l -> timer_id t = timer_id t' -> t = t'.
Proof.
  induction l as [| a l IH]; intros H Ht Ht' E; [contradiction |].
  cbn [map] in H. apply NoDup_cons_iff in H. destruct H as [Hn Hd].
  destruct Ht as [<- | Ht], Ht' as [<- | Ht'].
  - reflexivity.
  - exfalso. apply Hn. rewrite E. apply in_map. exact Ht'.
  - exfalso. apply Hn. rewrite <- E. apply in_map. exact Ht.
  - apply IH; assumption.
Qed.

(** States that agree on the queue, the next handle, the presence of the
    metadata and the observer agree on [handles_ok]. *)
Lemma handles_same (g h : Game) :
  timers h = timers g -> nextTimerId h = nextTimerId g ->
  (metadata h = None <-> metadata g = None) ->
  onReadyObservable h = onReadyObservable g ->
  handles_ok g -> handles_ok h.
Proof.
  intros E1 E2 E3 E4 (H1 & H2 & H3). unfold handles_ok.
  rewrite E1, E2, E3, E4. split; [exact H1 | split; [exact H2 | exact H3]].
Qed.

Lemma handles_clearTimeout (id : nat) (g : Game) :
  handles_ok g -> handles_ok (clearTimeout id g).
Proof.
  intros (H1 & H2 & H3). split; [| split].
  - intros t Ht. apply clearTimeout_In_iff in Ht. apply H1. apply Ht.
  - unfold clearTimeout. cbn [timers set_timers]. apply NoDup_map_filter. exact H2.
  - exact H3.
Qed.

(** Scheduling one more callback under the next handle. *)
Lemma handles_snoc (g h : Game) (d : R) (cb : Callback) :
  timers h = timers g ++ [mkTimer (nextTimerId g) d cb] ->
  nextTimerId h = S (nextTimerId g) -> (1 <= nextTimerId g)%nat ->
  (metadata h = None <-> metadata g = None) ->
  onReadyObservable h = onReadyObservable g ->
  handles_ok g -> handles_ok h.
Proof.
  intros E1 E2 Hn E3 E4 (H1 & H2 & H3). unfold handles_ok.
  rewrite E1, E2, E3, E4. split; [| split; [| exact H3]].
  - intros t Ht. apply in_app_or in Ht. destruct Ht as [Ht | [<- | []]].
    + specialize (H1 t Ht). lia.
    + cbn [timer_id]. lia.
  - apply NoDup_map_snoc; [exact H2 |].
    intros t' Ht'. specialize (H1 t' Ht'). cbn [timer_id]. lia.
Qed.

Lemma handles_set_resetTimer (v : option nat) (g : Game) :
  handles_ok g -> handles_ok (set_resetTimer v g).
Proof.
  intros H. pose proof (set_resetTimer_fields v g) as F. cbv zeta in F.
  apply (handles_same g); try apply F. exact H.
Qed.

Lemma handles_resetForNextThrow (g : Game) :
  (1 <= nextTimerId g)%nat -> handles_ok g -> handles_ok (resetForNextThrow g).
Proof.
  intros Hn H. pose proof (resetForNextThrow_fields g) as F. cbv zeta in F.
  destruct F as (_ & _ & _ & _ & _ & _ & _ & _ & _ & Ht & En & _ & _ & _ & Em & _ & Eo).
  apply (handles_snoc g _ _ _ Ht En Hn); [rewrite Em; reflexivity | exact Eo | exact H].
Qed.

Lemma handles_rebuilt (g : Game) : handles_ok g -> handles_ok (rebuilt g).
Proof.
  intros H.
  destruct (rebuilt_fields g) as (_ & _ & _ & _ & _ & _ & Et & En & _ & Em & _ & Eo & _).
  apply (handles_same g); try assumption. rewrite Em. reflexivity.
Qed.

Lemma handles_resetGame (g : Game) :
  (1 <= nextTimerId g)%nat -> handles_ok g -> handles_ok (resetGame g).
Proof.
  intros Hn H. rewrite resetGame_rebuilt. apply handles_resetForNextThrow.
  - destruct (rebuilt_fields g) as (_ & _ & _ & _ & _ & _ & _ & -> & _). exact Hn.
  - apply handles_rebuilt. exact H.
Qed.

Lemma handles_scheduled (g : Game) :
  (1 <= nextTimerId g)%nat -> handles_ok g -> handles_ok (scheduled g).
Proof.
  intros Hn H.
  apply (handles_snoc g (scheduled g) (now g + SETTLE_DELAY) SettleReset);
    try reflexivity; assumption.
Qed.

(** No timer is recorded once the recorded one has been cleared. *)
Lemma recorded_none (g : Game) : resetTimer g = None -> recorded_ok g.
Proof. intros H id Hid. rewrite H in Hid. discriminate. Qed.

Lemma recorded_same (g h : Game) :
  timers h = timers g -> metadata h = metadata g ->
  currentGameState h = currentGameState g ->
  recorded_ok g -> recorded_ok h.
Proof.
  intros E1 E2 E3 H id Hid. unfold resetTimer in Hid. rewrite E2 in Hid.
  rewrite E1, E3. apply H. exact Hid.
Qed.

Lemma recorded_positive (g : Game) (id : nat) :
  Queue g -> resetTimer g = Some id -> (1 <= id)%nat.
Proof.
  intros [(H1 & _) H2] Hid. destruct (H2 id Hid) as (_ & t & Hin & <- & _).
  apply H1. exact Hin.
Qed.

Lemma resetGame_resetTimer (g : Game) : resetTimer (resetGame g) = resetTimer g.
Proof.
  rewrite resetGame_rebuilt.
  pose proof (resetForNextThrow_fields (rebuilt g)) as F. cbv zeta in F.
  destruct F as (_ & _ & _ & _ & _ & _ & _ & _ & -> & _).
  apply rebuilt_fields.
Qed.

Lemma init_timers : timers init = [mkTimer 1 (0 + AIMING_DELAY) ToAiming].
Proof. reflexivity. Qed.

Lemma init_state : currentGameState init = RESETTING.
Proof. reflexivity. Qed.

Lemma init_metadata : metadata init = None.
Proof. reflexivity. Qed.

Lemma init_observer : onReadyObservable init = true.
Proof. reflexivity. Qed.

Lemma init_nextTimerId : nextTimerId init = 2%nat.
Proof. reflexivity. Qed.

Lemma init_Queue : Queue init.
Proof.
  constructor.
  - unfold handles_ok. rewrite init_timers, init_nextTimerId, init_metadata, init_observer.
    split; [| split].
    + intros t [<- | []]. cbn [timer_id]. lia.
    + cbn [map timer_id]. apply NoDup_cons_iff. split; [intros [] | constructor].
    + split; reflexivity.
  - apply recorded_none, resetTimer_None, init_metadata.
Qed.

Lemma Queue_same (g h : Game) :
  timers h = timers g -> nextTimerId h = nextTimerId g -> metadata h = metadata g ->
  currentGameState h = currentGameState g ->
  onReadyObservable h = onReadyObservable g ->
  Queue g -> Queue h.
Proof.
  intros E1 E2 E3 E4 E5 [H1 H2]. constructor.
  - apply (handles_same g); try assumption. rewrite E3. reflexivity.
  - apply (recorded_same g); assumption.
Qed.

Lemma hideArrow_fields (g : Game) :
  bowlingBall (hideArrow g) = bowlingBall g /\ pins (hideArrow g) = pins g
  /\ score (hideArrow g) = score g
  /\ fallenPinIndicesThisThrow (hideArrow g) = fallenPinIndicesThisThrow g
  /\ currentAimAngle (hideArrow g) = currentAimAngle g
  /\ resetTimer (hideArrow g) = resetTimer g /\ timers (hideArrow g) = timers g
  /\ nextTimerId (hideArrow g) = nextTimerId g /\ now (hideArrow g) = now g
  /\ metadata (hideArrow g) = metadata g
  /\ onReadyObservable (hideArrow g) = onReadyObservable g
  /\ lastFrameTime (hideArrow g) = lastFrameTime g
  /\ chargeStartTime (hideArrow g) = chargeStartTime g
  /\ launchPower (hideArrow g) = launchPower g
  /\ scoreText (hideArrow g) = scoreText g.
Proof.
  unfold hideArrow. destruct (directionArrow g); repeat split; reflexivity.
Qed.

(** The state the settle detector sees agrees with the frame's input on
    everything but the score, the fallen set, the display and the
    indicator's visibility. *)
Lemma settle_input (g : Game) :
  let g1 := checkFallenPins (hideArrow g) in
  bowlingBall g1 = bowlingBall g /\ pins g1 = pins g
  /\ currentGameState g1 = currentGameState g
  /\ currentAimAngle g1 = currentAimAngle g
  /\ chargeStartTime g1 = chargeStartTime g
  /\ launchPower g1 = launchPower g
  /\ metadata g1 = metadata g /\ resetTimer g1 = resetTimer g
  /\ timers g1 = timers g /\ nextTimerId g1 = nextTimerId g /\ now g1 = now g
  /\ lastFrameTime g1 = lastFrameTime g
  /\ onReadyObservable g1 = onReadyObservable g
  /\ isBallStopped g1 = isBallStopped g.
Proof.
  cbv zeta.
  destruct (checkFallenPins_spec (hideArrow g)) as (Hfr & _).
  apply scoring_frame_fields in Hfr.
  destruct Hfr as (Eb & Ep & _ & Eph & Eaim & Ecs & Elp & Ert & Ets & Enid & Enow
                   & Em & El & Eo).
  destruct (hideArrow_fields g)
    as (Eb' & Ep' & _ & _ & Eaim' & Ert' & Ets' & Enid' & Enow' & Em' & Eo' & El'
        & Ecs' & Elp' & _).
  rewrite hideArrow_state in Eph.
  rewrite Eb' in Eb. rewrite Ep' in Ep. rewrite Eaim' in Eaim. rewrite Ecs' in Ecs.
  rewrite Elp' in Elp. rewrite Ert' in Ert. rewrite Ets' in Ets.
  rewrite Enid' in Enid. rewrite Enow' in Enow. rewrite Em' in Em.
  rewrite El' in El. rewrite Eo' in Eo.
  repeat split; try assumption.
  unfold isBallStopped. rewrite Eb. reflexivity.
Qed.

Lemma Queue_settleStep (g : Game) :
  currentGameState g = BALL_ROLLING -> (1 <= nextTimerId g)%nat ->
  Queue g -> Queue (stateOf (settleStep g)).
Proof.
  intros Hph Hn HQ. pose proof HQ as [Hh Hr].
  unfold settleStep. destruct (truthy (isBallStopped g)).
  - destruct (negb (timer_truthy (resetTimer g))); [| exact HQ].
    destruct (metadata g) as [m |] eqn:Em; cbn [stateOf].
    + constructor.
      * apply (handles_same (scheduled g)); try reflexivity.
        -- cbn [metadata set_metadata]. unfold scheduled.
           cbn [setTimeout snd set_nextTimerId set_timers metadata]. rewrite Em.
           split; discriminate.
        -- apply handles_scheduled; assumption.
      * intros id Hid. cbn in Hid. injection Hid as <-.
        split; [exact Hph |].
        exists (mkTimer (nextTimerId g) (now g + SETTLE_DELAY) SettleReset).
        split; [| split; reflexivity].
        cbn. apply in_or_app. right. left. reflexivity.
    + constructor.
      * apply handles_scheduled; assumption.
      * apply recorded_none, resetTimer_None. exact Em.
  - destruct (resetTimer g) as [[| n] |]; cbn [stateOf]; try exact HQ.
    constructor.
    + apply handles_set_resetTimer, handles_clearTimeout. exact Hh.
    + apply recorded_none, resetTimer_cleared.
Qed.

Lemma Queue_frame (g : Game) : Inv g -> Queue g -> Queue (handle Frame g).
Proof.
  intros HI HQ. simpl. destruct (currentGameState g) eqn:Hph.
  - unfold renderLoop. rewrite Hph.
    destruct (directionArrow g); cbn [stateOf]; [| exact HQ].
    apply (Queue_same g); try reflexivity. exact HQ.
  - unfold renderLoop. rewrite Hph.
    destruct (directionArrow g); cbn [stateOf]; [| exact HQ].
    apply (Queue_same g); try reflexivity. exact HQ.
  - rewrite renderLoop_rolling by exact Hph.
    pose proof (settle_input g) as F. cbv zeta in F.
    destruct F as (_ & _ & Eph & _ & _ & _ & Em & _ & Ets & Enid & _ & _ & Eo & _).
    apply Queue_settleStep.
    + rewrite Eph. exact Hph.
    + rewrite Enid. apply (inv_next _ HI).
    + apply (Queue_same g); assumption.
  - unfold renderLoop. rewrite Hph. exact HQ.
  - unfold renderLoop. rewrite Hph. exact HQ.
Qed.

Lemma recorded_not_rolling (g : Game) :
  Queue g -> currentGameState g <> BALL_ROLLING -> resetTimer g = None.
Proof.
  intros [_ Hr] Hph. destruct (resetTimer g) as [id |] eqn:E; [| reflexivity].
  destruct (Hr id E) as [H _]. contradiction.
Qed.

Lemma Queue_keydown (k : Key) (g : Game) : Queue g -> Queue (handle (KeyDown k) g).
Proof.
  intros HQ. simpl. unfold keydown. destruct k; try exact HQ.
  destruct (currentGameState g) eqn:Hph; try exact HQ.
  assert (Hrt : resetTimer g = None)
    by (apply recorded_not_rolling; [exact HQ | rewrite Hph; discriminate]).
  destruct HQ as [Hh Hr].
  cbn [directionArrow set_chargeStartTime set_currentGameState].
  destruct (directionArrow g); (constructor;
    [apply (handles_same g); try reflexivity; exact Hh
    | apply recorded_none; exact Hrt]).
Qed.

Lemma keyup_space_fields (g : Game) :
  currentGameState g = CHARGING ->
  let g' := handle (KeyUp Space) g in
  currentGameState g' = BALL_ROLLING
  /\ pins g' = pins g /\ score g' = score g /\ scoreText g' = scoreText g
  /\ fallenPinIndicesThisThrow g' = fallenPinIndicesThisThrow g
  /\ currentAimAngle g' = currentAimAngle g
  /\ chargeStartTime g' = chargeStartTime g /\ launchPower g' = launchPower g
  /\ metadata g' = metadata g /\ resetTimer g' = resetTimer g
  /\ timers g' = timers g /\ nextTimerId g' = nextTimerId g /\ now g' = now g
  /\ lastFrameTime g' = lastFrameTime g
  /\ onReadyObservable g' = onReadyObservable g
  /\ directionArrow g' = option_map (set_isVisible false) (directionArrow g).
Proof.
  intros Hph. cbv zeta. unfold handle, keyup. rewrite Hph.
  destruct g as [[[bp bu [imp |]] |] ps [a |] sc st F ph aim cs lp md ts nid t lf ob];
    cbn; repeat split; reflexivity.
Qed.

Lemma Queue_keyup (k : Key) (g : Game) : Inv g -> Queue g -> Queue (handle (KeyUp k) g).
Proof.
  intros HI HQ. simpl. destruct k.
  - (* Space *)
    destruct (currentGameState g) eqn:Hph; try (unfold keyup; rewrite Hph; exact HQ).
    assert (Hrt : resetTimer g = None)
      by (apply recorded_not_rolling; [exact HQ | rewrite Hph; discriminate]).
    pose proof (keyup_space_fields g Hph) as F. cbv zeta in F.
    change (keyup Space g) with (handle (KeyUp Space) g).
    revert F. generalize (handle (KeyUp Space) g). intros g' F.
    destruct F as (_ & _ & _ & _ & _ & _ & _ & _ & Em & Ert & Ets & En & _ & _ & Eo & _).
    destruct HQ as [Hh Hr]. constructor.
    + apply (handles_same g); try assumption. rewrite Em. reflexivity.
    + apply recorded_none. rewrite Ert. exact Hrt.
  - (* R *)
    unfold keyup. destruct (currentGameState g) eqn:Hph; try exact HQ;
      (destruct (resetTimer g) as [[| n] |] eqn:Ert;
       [exfalso; pose proof (recorded_positive g 0 HQ Ert); lia
       | constructor;
         [apply handles_resetGame;
          [apply (inv_next _ (Inv_set_resetTimer None _ (Inv_clearTimeout (S n) g HI)))
          | apply handles_set_resetTimer, handles_clearTimeout, HQ]
         | apply recorded_none; rewrite resetGame_resetTimer; apply resetTimer_cleared]
       | constructor;
         [apply handles_resetGame; [apply (inv_next _ HI) | apply HQ]
         | apply recorded_none; rewrite resetGame_resetTimer; exact Ert]]).
  - exact HQ.
Qed.

Lemma Queue_timeout (id : nat) (g : Game) :
  Inv g -> Queue g -> Queue (handle (Timeout id) g).
Proof.
  intros HI HQ. simpl.
  destruct (fireTimeout_cases id g) as [-> | (t & Hin & Hid & _ & _ & ->)]; [exact HQ |].
  pose proof HQ as [Hh Hr].
  destruct (callback t) eqn:Hcb; unfold runCallback.
  - constructor.
    + apply handles_set_resetTimer, handles_resetForNextThrow.
      * apply (inv_next _ HI).
      * apply handles_clearTimeout. exact Hh.
    + apply recorded_none, resetTimer_cleared.
  - assert (Hkeep : recorded_ok (clearTimeout id g)).
    { intros id' Hid'. change (resetTimer (clearTimeout id g)) with (resetTimer g) in Hid'.
      destruct (Hr id' Hid') as (Hph & t' & Hin' & Hid'' & Hcb').
      split; [exact Hph |]. exists t'. split; [| split; assumption].
      apply clearTimeout_In_iff. split; [exact Hin' |].
      intros E. assert (t = t').
      { destruct Hh as (_ & Hnd & _). apply (NoDup_ids_unique (timers g)); try assumption.
        congruence. }
      subst t'. congruence. }
    change (currentGameState (clearTimeout id g)) with (currentGameState g).
    destruct (currentGameState g) eqn:Hph;
      try (constructor; [apply handles_clearTimeout; exact Hh | exact Hkeep]).
    constructor.
    + apply (handles_same (clearTimeout id g)); try reflexivity.
      apply handles_clearTimeout. exact Hh.
    + apply recorded_none.
      change (resetTimer (set_currentGameState AIMING (clearTimeout id g)))
        with (resetTimer g).
      apply recorded_not_rolling; [exact HQ | rewrite Hph; discriminate].
Qed.

Lemma Queue_notifyOnReady (g : Game) : Queue g -> Queue (handle SceneReady g).
Proof.
  intros HQ. unfold handle, notifyOnReady.
  destruct (onReadyObservable g) eqn:Eo; [| exact HQ].
  destruct HQ as [(H1 & H2 & H3) Hr].
  assert (Em : metadata g = None) by (apply H3; exact Eo).
  pose proof (sceneReady_fields (set_onReadyObservable false g)) as F. cbv zeta in F.
  revert F. generalize (sceneReady (set_onReadyObservable false g)). intros g' F.
  destruct F as (_ & _ & _ & _ & _ & _ & _ & _ & Ets & En & _ & Eo' & _ & Em' & _).
  cbn in Ets, En, Eo', Em'. rewrite Em in Em'.
  constructor.
  - unfold handles_ok. rewrite Ets, En, Eo', Em'.
    split; [exact H1 | split; [exact H2 |]]. split; discriminate.
  - apply recorded_none. unfold resetTimer. rewrite Em'. reflexivity.
Qed.

Theorem reachable_Queue (g : Game) : reachable g -> Queue g.
Proof.
  induction 1 as [| e g Hr IH].
  - apply init_Queue.
  - pose proof (reachable_Inv _ Hr) as HI. destruct e.
    + apply (Queue_same g); try reflexivity. exact IH.
    + apply (Queue_same g); try reflexivity. exact IH.
    + apply Queue_frame; assumption.
    + apply Queue_keydown. exact IH.
    + apply Queue_keyup; assumption.
    + apply Queue_timeout; assumption.
    + apply Queue_notifyOnReady. exact IH.
Qed.

(** ** Once installed, the metadata stays *)

Lemma resetGame_metadata (g : Game) : metadata (resetGame g) = metadata g.
Proof.
  rewrite resetGame_rebuilt.
  pose proof (resetForNextThrow_fields (rebuilt g)) as F. cbv zeta in F.
  destruct F as (_ & _ & _ & _ & _ & _ & _ & _ & _ & _ & _ & _ & _ & _ & -> & _).
  apply rebuilt_fields.
Qed.

Lemma set_resetTimer_metadata (v : option nat) (g : Game) :
  metadata g <> None -> metadata (set_resetTimer v g) <> None.
Proof.
  intros H E. apply H.
  pose proof (set_resetTimer_fields v g) as F. cbv zeta in F. apply F. exact E.
Qed.

Lemma runCallback_metadata (cb : Callback) (g : Game) :
  metadata g <> None -> metadata (runCallback cb g) <> None.
Proof.
  intros H. destruct cb; unfold runCallback.
  - apply set_resetTimer_metadata.
    pose proof (resetForNextThrow_fields g) as F. cbv zeta in F.
    destruct F as (_ & _ & _ & _ & _ & _ & _ & _ & _ & _ & _ & _ & _ & _ & -> & _).
    exact H.
  - destruct (currentGameState g); exact H.
Qed.

Lemma metadata_kept (e : Event) (g : Game) :
  metadata g <> None -> metadata (handle e g) <> None.
Proof.
  intros H. destruct e as [dt | ballR pinR | | k | k | id |].
  - exact H.
  - exact H.
  - unfold handle. destruct (currentGameState g) eqn:Hph.
    + unfold renderLoop. rewrite Hph. destruct (directionArrow g); exact H.
    + unfold renderLoop. rewrite Hph. destruct (directionArrow g); exact H.
    + rewrite renderLoop_rolling by exact Hph.
      pose proof (settle_input g) as F. cbv zeta in F.
      destruct F as (_ & _ & _ & _ & _ & _ & Em & _).
      rewrite <- Em in H. revert H. generalize (checkFallenPins (hideArrow g)).
      intros g1 H. unfold settleStep. destruct (truthy (isBallStopped g1)).
      * destruct (negb (timer_truthy (resetTimer g1))); [| exact H].
        destruct (metadata g1); [discriminate | contradiction].
      * destruct (resetTimer g1) as [[| n] |]; cbn [stateOf]; try exact H.
        apply set_resetTimer_metadata. exact H.
    + unfold renderLoop. rewrite Hph. exact H.
    + unfold renderLoop. rewrite Hph. exact H.
  - unfold handle, keydown. destruct k; try exact H.
    destruct (currentGameState g); try exact H.
    cbn [directionArrow set_chargeStartTime set_currentGameState].
    destruct (directionArrow g); exact H.
  - unfold handle. destruct k.
    + destruct (currentGameState g) eqn:Hph; try (unfold keyup; rewrite Hph; exact H).
      pose proof (keyup_space_fields g Hph) as F. cbv zeta in F.
      change (keyup Space g) with (handle (KeyUp Space) g).
      destruct F as (_ & _ & _ & _ & _ & _ & _ & _ & -> & _). exact H.
    + unfold keyup. destruct (currentGameState g); try exact H;
        rewrite resetGame_metadata;
        (destruct (resetTimer g) as [[| n] |]; try exact H;
         apply set_resetTimer_metadata; exact H).
    + exact H.
  - unfold handle.
    destruct (fireTimeout_cases id g) as [-> | (t & _ & _ & _ & _ & ->)]; [exact H |].
    apply runCallback_metadata. exact H.
  - unfold handle, notifyOnReady. destruct (onReadyObservable g); [| exact H].
    pose proof (sceneReady_fields (set_onReadyObservable false g)) as F. cbv zeta in F.
    destruct F as (_ & _ & _ & _ & _ & _ & _ & _ & _ & _ & _ & _ & _ & -> & _).
    cbn [metadata set_onReadyObservable]. destruct (metadata g); [discriminate | contradiction].
Qed.

(** ** An orderly queue stays orderly *)

Lemma clearTimeout_single (t : Timer) (g : Game) :
  timers g = [t] -> timers (clearTimeout (timer_id t) g) = [].
Proof.
  intros H. unfold clearTimeout. simpl. rewrite H. simpl.
  rewrite Nat.eqb_refl. reflexivity.
Qed.

Lemma fireTimeout_single (id : nat) (t : Timer) (g : Game) :
  timers g = [t] ->
  fireTimeout id g =
  if Nat.eqb (timer_id t) id then
    if number_le_dec (deadline t) (now g) then runCallback (callback t) (clearTimeout id g)
    else g
  else g.
Proof.
  intros H. unfold fireTimeout. rewrite H. simpl.
  destruct (Nat.eqb (timer_id t) id); reflexivity.
Qed.

Lemma fireTimeout_none (id : nat) (g : Game) :
  timers g = [] -> fireTimeout id g = g.
Proof. intros H. unfold fireTimeout. rewrite H. reflexivity. Qed.

(** The per-throw reset, run with no callback pending, leaves the queue the
    Resetting phase accounts for. *)
Lemma shape_reset (g : Game) :
  timers g = [] -> timers_shape (set_resetTimer None (resetForNextThrow g)).
Proof.
  intros Hts.
  pose proof (resetTimer_cleared (resetForNextThrow g)) as Hrt.
  pose proof (set_resetTimer_fields None (resetForNextThrow g)) as F. cbv zeta in F.
  revert Hrt F. generalize (set_resetTimer None (resetForNextThrow g)). intros h Hrt F.
  destruct F as (_ & _ & _ & _ & _ & _ & Eph & _ & _ & _ & Ets & _).
  pose proof (resetForNextThrow_fields g) as F. cbv zeta in F.
  destruct F as (_ & _ & _ & _ & Hph & _ & _ & _ & _ & Ht & _).
  unfold timers_shape. rewrite Eph, Hph. split; [exact Hrt |].
  rewrite Ets, Ht, Hts. eexists. split; reflexivity.
Qed.

Lemma shape_resetGame (g : Game) :
  timers g = [] -> resetTimer g = None -> timers_shape (resetGame g).
Proof.
  intros Hts Hrt. rewrite resetGame_rebuilt.
  destruct (rebuilt_fields g) as (_ & _ & _ & _ & _ & Er & Et & _).
  rewrite <- (set_resetTimer_same (resetForNextThrow (rebuilt g))).
  - apply shape_reset. rewrite Et. exact Hts.
  - pose proof (resetForNextThrow_fields (rebuilt g)) as F. cbv zeta in F.
    destruct F as (_ & _ & _ & _ & _ & _ & _ & _ & -> & _). rewrite Er. exact Hrt.
Qed.

Lemma shape_settleStep (g : Game) :
  currentGameState g = BALL_ROLLING -> (1 <= nextTimerId g)%nat ->
  metadata g <> None -> timers_shape g -> timers_shape (stateOf (settleStep g)).
Proof.
  intros Hph Hn Hm Hs. pose proof Hs as Hs'. unfold timers_shape in Hs'.
  rewrite Hph in Hs'.
  unfold settleStep. destruct (truthy (isBallStopped g)).
  - destruct Hs' as [[Hrt Hts] | (t & Hrt & Hid & Hts & Hcb)].
    + rewrite Hrt. cbn [timer_truthy negb].
      destruct (metadata g) as [m |]; [| contradiction]. cbn [stateOf].
      unfold timers_shape. cbn. rewrite Hph, Hts. right.
      exists (mkTimer (nextTimerId g) (now g + SETTLE_DELAY) SettleReset).
      split; [reflexivity |]. split; [exact Hn |]. split; reflexivity.
    + rewrite Hrt. destruct (timer_id t); [lia |]. exact Hs.
  - destruct Hs' as [[Hrt Hts] | (t & Hrt & Hid & Hts & Hcb)].
    + rewrite Hrt. exact Hs.
    + rewrite Hrt. destruct (timer_id t) as [| n] eqn:E; [lia |]. cbn [stateOf].
      pose proof (resetTimer_cleared (clearTimeout (S n) g)) as Hc.
      pose proof (set_resetTimer_fields None (clearTimeout (S n) g)) as F. cbv zeta in F.
      revert Hc F. generalize (set_resetTimer None (clearTimeout (S n) g)). intros h Hc F.
      destruct F as (_ & _ & _ & _ & _ & _ & Eph & _ & _ & _ & Ets & _).
      unfold timers_shape. rewrite Eph. cbn [clearTimeout currentGameState set_timers].
      rewrite Hph. left. split; [exact Hc |].
      rewrite Ets, <- E. apply clearTimeout_single. exact Hts.
Qed.

Lemma shape_same (g h : Game) :
  timers h = timers g -> metadata h = metadata g ->
  currentGameState h = currentGameState g ->
  timers_shape g -> timers_shape h.
Proof.
  intros E1 E2 E3. unfold timers_shape, resetTimer. rewrite E1, E2, E3. tauto.
Qed.

Lemma shape_frame (g : Game) :
  Inv g -> metadata g <> None -> timers_shape g -> timers_shape (handle Frame g).
Proof.
  intros HI Hm Hs. simpl. destruct (currentGameState g) eqn:Hph.
  - unfold renderLoop. rewrite Hph.
    destruct (directionArrow g); cbn [stateOf]; [| exact Hs].
    apply (shape_same g); try reflexivity; exact Hs.
  - unfold renderLoop. rewrite Hph.
    destruct (directionArrow g); cbn [stateOf]; [| exact Hs].
    apply (shape_same g); try reflexivity; exact Hs.
  - rewrite renderLoop_rolling by exact Hph.
    pose proof (settle_input g) as F. cbv zeta in F.
    destruct F as (_ & _ & Eph & _ & _ & _ & Em & _ & Ets & Enid & _).
    apply shape_settleStep.
    + rewrite Eph. exact Hph.
    + rewrite Enid. apply (inv_next _ HI).
    + rewrite Em. exact Hm.
    + apply (shape_same g); assumption.
  - unfold renderLoop. rewrite Hph. exact Hs.
  - unfold renderLoop. rewrite Hph. exact Hs.
Qed.

Lemma shape_keydown (k : Key) (g : Game) :
  timers_shape g -> timers_shape (handle (KeyDown k) g).
Proof.
  intros Hs. simpl. unfold keydown. destruct k; try exact Hs.
  destruct (currentGameState g) eqn:Hph; try exact Hs.
  unfold timers_shape in Hs. rewrite Hph in Hs.
  cbn [directionArrow set_chargeStartTime set_currentGameState].
  destruct (directionArrow g); exact Hs.
Qed.

Lemma shape_keyup (k : Key) (g : Game) :
  timers_shape g -> timers_shape (handle (KeyUp k) g).
Proof.
  intros Hs. simpl. destruct k.
  - destruct (currentGameState g) eqn:Hph; try (unfold keyup; rewrite Hph; exact Hs).
    unfold timers_shape in Hs. rewrite Hph in Hs.
    pose proof (keyup_space_fields g Hph) as F. cbv zeta in F.
    change (keyup Space g) with (handle (KeyUp Space) g).
    revert F. generalize (handle (KeyUp Space) g). intros g' F.
    destruct F as (Eph & _ & _ & _ & _ & _ & _ & _ & _ & Ert & Ets & _).
    unfold timers_shape. rewrite Eph, Ert, Ets. left. exact Hs.
  - pose proof Hs as Hs'. unfold timers_shape in Hs'. unfold keyup.
    destruct (currentGameState g) eqn:Hph; try exact Hs; try contradiction.
    + destruct Hs' as [Hrt Hts]. rewrite Hrt. apply shape_resetGame; assumption.
    + destruct Hs' as [Hrt Hts]. rewrite Hrt. apply shape_resetGame; assumption.
    + destruct Hs' as [[Hrt Hts] | (t & Hrt & Hid & Hts & Hcb)].
      * rewrite Hrt. apply shape_resetGame; assumption.
      * rewrite Hrt. destruct (timer_id t) as [| n] eqn:E; [lia |].
        apply shape_resetGame.
        -- pose proof (set_resetTimer_fields None (clearTimeout (S n) g)) as F.
           cbv zeta in F.
           destruct F as (_ & _ & _ & _ & _ & _ & _ & _ & _ & _ & -> & _).
           rewrite <- E. apply clearTimeout_single. exact Hts.
        -- apply resetTimer_cleared.
  - exact Hs.
Qed.

Lemma shape_timeout (id : nat) (g : Game) :
  timers_shape g -> timers_shape (handle (Timeout id) g).
Proof.
  intros Hs. simpl. pose proof Hs as Hs'. unfold timers_shape in Hs'.
  destruct (currentGameState g) eqn:Hph; try contradiction.
  - destruct Hs' as [_ Hts]. rewrite fireTimeout_none; assumption.
  - destruct Hs' as [_ Hts]. rewrite fireTimeout_none; assumption.
  - destruct Hs' as [[_ Hts] | (t & Hrt & Hid & Hts & Hcb)].
    + rewrite fireTimeout_none; assumption.
    + rewrite (fireTimeout_single id t) by exact Hts.
      destruct (Nat.eqb (timer_id t) id) eqn:E; [| exact Hs].
      apply Nat.eqb_eq in E. subst id.
      destruct (number_le_dec (deadline t) (now g)); [| exact Hs].
      rewrite Hcb. unfold runCallback. apply shape_reset.
      apply clearTimeout_single. exact Hts.
  - destruct Hs' as [Hrt (t & Hts & Hcb)].
    rewrite (fireTimeout_single id t) by exact Hts.
    destruct (Nat.eqb (timer_id t) id) eqn:E; [| exact Hs].
    apply Nat.eqb_eq in E. subst id.
    destruct (number_le_dec (deadline t) (now g)); [| exact Hs].
    rewrite Hcb. unfold runCallback.
    change (currentGameState (clearTimeout (timer_id t) g)) with (currentGameState g).
    rewrite Hph. unfold timers_shape.
    cbn [set_currentGameState currentGameState timers].
    change (resetTimer (set_currentGameState AIMING (clearTimeout (timer_id t) g)))
      with (resetTimer g).
    split; [exact Hrt |]. apply clearTimeout_single. exact Hts.
Qed.

(** Once the metadata is there the scene-ready callback has run and is no
    longer registered. *)
Lemma notifyOnReady_done (g : Game) :
  Queue g -> metadata g <> None -> handle SceneReady g = g.
Proof.
  intros [(_ & _ & H) _] Hm. unfold handle, notifyOnReady.
  destruct (onReadyObservable g) eqn:E; [| reflexivity].
  exfalso. apply Hm. apply H. reflexivity.
Qed.

Lemma Orderly_step (e : Event) (g : Game) :
  Inv g -> Queue g -> Orderly g -> Orderly (handle e g).
Proof.
  intros HI HQ [Hm Hs]. constructor; [apply metadata_kept; exact Hm |].
  destruct e as [dt | ballR pinR | | k | k | id |].
  - exact Hs.
  - exact Hs.
  - apply shape_frame; assumption.
  - apply shape_keydown. exact Hs.
  - apply shape_keyup. exact Hs.
  - apply shape_timeout. exact Hs.
  - rewrite notifyOnReady_done by assumption. exact Hs.
Qed.

Lemma run_reachable (es : list Event) (g : Game) : reachable g -> reachable (run es g).
Proof.
  revert g. induction es as [| e es IH]; intros g H; simpl.
  - exact H.
  - apply IH. apply reachable_step. exact H.
Qed.

Lemma Orderly_run (es : list Event) (g : Game) :
  reachable g -> Orderly g -> Orderly (run es g).
Proof.
  revert g. induction es as [| e es IH]; intros g Hr Ho; simpl.
  - exact Ho.
  - apply IH; [apply reachable_step; exact Hr |].
    apply Orderly_step; [apply reachable_Inv | apply reachable_Queue |]; assumption.
Qed.

(** The scene-ready callback, run while the queue is as the phase accounts
    for it, makes the state orderly. *)
Lemma Orderly_ready (g : Game) :
  Queue g -> metadata g = None -> timers_shape g -> Orderly (handle SceneReady g).
Proof.
  intros [(_ & _ & H) _] Hm Hs. unfold handle, notifyOnReady.
  assert (Eo : onReadyObservable g = true) by (apply H; exact Hm). rewrite Eo.
  pose proof (sceneReady_fields (set_onReadyObservable false g)) as F. cbv zeta in F.
  revert F. generalize (sceneReady (set_onReadyObservable false g)). intros g' F.
  destruct F as (_ & _ & _ & _ & _ & _ & _ & _ & Ets & _ & _ & _ & _ & Em & Eph & _).
  cbn in Ets, Em, Eph. rewrite Hm in Em.
  constructor; [rewrite Em; discriminate |].
  assert (Hrt : resetTimer g' = None) by (unfold resetTimer; rewrite Em; reflexivity).
  assert (Hrt0 : resetTimer g = None) by (apply resetTimer_None; exact Hm).
  unfold timers_shape in *. rewrite Eph, Hrt, Ets.
  destruct (currentGameState g); try contradiction.
  - destruct Hs as [_ Hts]. split; [reflexivity | exact Hts].
  - destruct Hs as [_ Hts]. split; [reflexivity | exact Hts].
  - destruct Hs as [[_ Hts] | (t & Hr & _)]; [| congruence].
    split; [reflexivity | exact Hts].
  - destruct Hs as [_ Hts]. split; [reflexivity | exact Hts].
Qed.

(** ** Frame lemmas for the settle detector *)

Lemma settleStep_fields (g : Game) :
  let g' := stateOf (settleStep g) in
  bowlingBall g' = bowlingBall g /\ pins g' = pins g
  /\ directionArrow g' = directionArrow g
  /\ score g' = score g /\ scoreText g' = scoreText g
  /\ fallenPinIndicesThisThrow g' = fallenPinIndicesThisThrow g
  /\ currentGameState g' = currentGameState g
  /\ currentAimAngle g' = currentAimAngle g
  /\ chargeStartTime g' = chargeStartTime g
  /\ launchPower g' = launchPower g /\ now g' = now g.
Proof.
  cbv zeta. unfold settleStep. destruct (truthy (isBallStopped g)).
  - destruct (negb (timer_truthy (resetTimer g))); [| repeat split; reflexivity].
    destruct (metadata g); repeat split; reflexivity.
  - destruct (resetTimer g) as [[| n] |]; try (repeat split; reflexivity).
    cbn [stateOf].
    pose proof (set_resetTimer_fields None (clearTimeout (S n) g)) as F. cbv zeta in F.
    revert F. generalize (set_resetTimer None (clearTimeout (S n) g)). intros h F.
    cbn in F. tauto.
Qed.

Lemma newlyFallenPins_hideArrow (g : Game) :
  newlyFallenPins (hideArrow g) = newlyFallenPins g.
Proof.
  unfold newlyFallenPins.
  destruct (hideArrow_fields g) as (_ & -> & _ & -> & _). reflexivity.
Qed.

(** What a frame does to scoring state while the ball rolls, whether or
    not it ends by throwing. *)
Lemma renderLoop_rolling_scoring (g : Game) :
  currentGameState g = BALL_ROLLING ->
  fallenPinIndicesThisThrow (handle Frame g)
  = newlyFallenPins g ∪ fallenPinIndicesThisThrow g
  /\ score (handle Frame g) = (score g + Z.of_nat (size (newlyFallenPins g)))%Z
  /\ pins (handle Frame g) = pins g
  /\ currentGameState (handle Frame g) = BALL_ROLLING
  /\ currentAimAngle (handle Frame g) = currentAimAngle g.
Proof.
  intros Hph. unfold handle. rewrite renderLoop_rolling by exact Hph.
  pose proof (settleStep_fields (checkFallenPins (hideArrow g))) as F. cbv zeta in F.
  destruct F as (_ & -> & _ & -> & _ & -> & -> & -> & _).
  destruct (checkFallenPins_spec (hideArrow g)) as (Hfr & -> & ->).
  apply scoring_frame_fields in Hfr.
  destruct Hfr as (_ & -> & _ & -> & -> & _).
  rewrite newlyFallenPins_hideArrow.
  destruct (hideArrow_fields g) as (_ & -> & -> & -> & -> & _).
  rewrite hideArrow_state. repeat split; try reflexivity. exact Hph.
Qed.

Lemma newlyFallenPins_elem (g : Game) (i : nat) :
  i ∈ newlyFallenPins g <->
  (i ∉ fallenPinIndicesThisThrow g)
  /\ exists pin imp, pins g !! i = Some (Some pin) /\ physicsImpostor pin = Some imp
                     /\ dotProduct pin < PIN_FALLEN_THRESHOLD.
Proof.
  unfold newlyFallenPins. rewrite newlyFallen_elem. simpl. split.
  - intros (k & -> & Hf & Hk). unfold fallsNow in Hf.
    destruct (pins g !! k) as [[pin |] |] eqn:E; simpl in Hf; try discriminate.
    destruct (physicsImpostor pin) as [imp |] eqn:Ei; [| discriminate].
    apply andb_true_iff in Hf. destruct Hf as [Hn Hd].
    apply bool_decide_eq_true in Hn. apply js_lt_true in Hd.
    split; [exact Hn |]. exists pin, imp. repeat split; assumption.
  - intros (Hn & pin & imp & E & Ei & Hd). exists i. split; [reflexivity |].
    rewrite E. simpl. rewrite Ei. split.
    + apply andb_true_iff. split; [apply bool_decide_eq_true; exact Hn |].
      apply js_lt_true. exact Hd.
    + apply lookup_lt_Some in E. exact E.
Qed.

Lemma Inv_pin_lookup (g : Game) (i : nat) :
  Inv g -> (i < 10)%nat ->
  exists pin imp, pins g !! i = Some (Some pin) /\ physicsImpostor pin = Some imp.
Proof.
  intros H Hi.
  destruct (lookup_lt_is_Some_2 (pins g) i) as [p Hp].
  { rewrite (inv_pins_length _ H). exact Hi. }
  pose proof (inv_pins _ H) as HF. rewrite Forall_lookup in HF.
  destruct (HF i p Hp) as (m & imp & -> & Himp).
  exists m, imp. split; assumption.
Qed.

(** ** How one event changes the phase, the score and the fallen set *)

Lemma resetGame_state (g : Game) : currentGameState (resetGame g) = RESETTING.
Proof.
  rewrite resetGame_rebuilt.
  pose proof (resetForNextThrow_fields (rebuilt g)) as F. cbv zeta in F. tauto.
Qed.

Lemma resetGame_scoring (g : Game) :
  fallenPinIndicesThisThrow (resetGame g) = ∅ /\ score (resetGame g) = 0%Z.
Proof.
  rewrite resetGame_rebuilt.
  pose proof (resetForNextThrow_fields (rebuilt g)) as F. cbv zeta in F.
  destruct F as (_ & -> & _ & -> & _).
  split; [reflexivity |]. apply rebuilt_fields.
Qed.

Lemma newlyFallenPins_disjoint (g : Game) :
  (newlyFallenPins g ∪ fallenPinIndicesThisThrow g) ∖ fallenPinIndicesThisThrow g
  = newlyFallenPins g.
Proof.
  apply set_eq. intros i. rewrite elem_of_difference, elem_of_union.
  pose proof (newlyFallenPins_elem g i). tauto.
Qed.

Lemma runCallback_settle_state (g : Game) :
  currentGameState (runCallback SettleReset g) = RESETTING.
Proof.
  unfold runCallback.
  pose proof (set_resetTimer_fields None (resetForNextThrow g)) as F. cbv zeta in F.
  destruct F as (_ & _ & _ & _ & _ & _ & -> & _).
  pose proof (resetForNextThrow_fields g) as F. cbv zeta in F. tauto.
Qed.

(** What the settle callback leaves of the scoring state. *)
Lemma runCallback_settle_scoring (g : Game) :
  fallenPinIndicesThisThrow (runCallback SettleReset g) = ∅
  /\ score (runCallback SettleReset g) = score g
  /\ pins (runCallback SettleReset g) = pins g.
Proof.
  unfold runCallback.
  pose proof (set_resetTimer_fields None (resetForNextThrow g)) as F. cbv zeta in F.
  destruct F as (_ & -> & _ & -> & _ & -> & _).
  pose proof (resetForNextThrow_fields g) as F. cbv zeta in F. tauto.
Qed.

(** What the scene-ready event leaves alone. *)
Lemma notifyOnReady_fields (g : Game) :
  let g' := handle SceneReady g in
  bowlingBall g' = bowlingBall g /\ pins g' = pins g
  /\ score g' = score g /\ scoreText g' = scoreText g
  /\ fallenPinIndicesThisThrow g' = fallenPinIndicesThisThrow g
  /\ currentAimAngle g' = currentAimAngle g
  /\ chargeStartTime g' = chargeStartTime g
  /\ launchPower g' = launchPower g /\ timers g' = timers g
  /\ nextTimerId g' = nextTimerId g /\ now g' = now g.
Proof.
  cbv zeta. unfold handle, notifyOnReady.
  destruct (onReadyObservable g); [| repeat split; reflexivity].
  pose proof (sceneReady_fields (set_onReadyObservable false g)) as F. cbv zeta in F.
  revert F. generalize (sceneReady (set_onReadyObservable false g)). intros g' F.
  cbn in F. tauto.
Qed.

(** One event does one of four things to the scoring state. *)
Lemma step_scoring (e : Event) (g : Game) :
  let g' := handle e g in
  (fullReset e g = true /\ fallenPinIndicesThisThrow g' = ∅ /\ score g' = 0%Z
   /\ currentGameState g' = RESETTING)
  \/ (fullReset e g = false /\ settleDue e g = true
      /\ fallenPinIndicesThisThrow g' = ∅ /\ score g' = score g
      /\ currentGameState g' = RESETTING)
  \/ (startsThrow e g = false /\ e = Frame /\ currentGameState g = BALL_ROLLING
      /\ fallenPinIndicesThisThrow g'
         = newlyFallenPins g ∪ fallenPinIndicesThisThrow g
      /\ score g' = (score g + Z.of_nat (size (newlyFallenPins g)))%Z)
  \/ (startsThrow e g = false
      /\ ~ (e = Frame /\ currentGameState g = BALL_ROLLING)
      /\ fallenPinIndicesThisThrow g' = fallenPinIndicesThisThrow g
      /\ score g' = score g).
Proof.
  cbv zeta. destruct e as [dt | ballR pinR | | k | k | id |].
  - right; right; right. repeat split; try reflexivity. intros [H _]; discriminate.
  - right; right; right. repeat split; try reflexivity. intros [H _]; discriminate.
  - destruct (currentGameState g) eqn:Hph.
    + right; right; right. unfold handle, renderLoop. rewrite Hph.
      destruct (directionArrow g); repeat split; try reflexivity;
        intros [_ H]; discriminate.
    + right; right; right. unfold handle, renderLoop. rewrite Hph.
      destruct (directionArrow g); repeat split; try reflexivity;
        intros [_ H]; discriminate.
    + right; right; left.
      destruct (renderLoop_rolling_scoring g Hph) as (HF & Hsc & _).
      repeat split; assumption.
    + right; right; right. unfold handle, renderLoop. rewrite Hph.
      repeat split; try reflexivity. intros [_ H]; discriminate.
    + right; right; right. unfold handle, renderLoop. rewrite Hph.
      repeat split; try reflexivity. intros [_ H]; discriminate.
  - right; right; right. unfold handle, keydown.
    split; [reflexivity |]. split; [intros [H _]; discriminate |].
    destruct k; try (split; reflexivity).
    destruct (currentGameState g); try (split; reflexivity).
    cbn [directionArrow set_chargeStartTime set_currentGameState].
    destruct (directionArrow g); split; reflexivity.
  - destruct k.
    + right; right; right.
      split; [reflexivity |]. split; [intros [H _]; discriminate |].
      unfold handle.
      destruct (currentGameState g) eqn:Hph;
        try (unfold keyup; rewrite Hph; split; reflexivity).
      pose proof (keyup_space_fields g Hph) as F. cbv zeta in F.
      change (keyup Space g) with (handle (KeyUp Space) g).
      destruct F as (_ & _ & -> & _ & -> & _). split; reflexivity.
    + unfold startsThrow, fullReset, settleDue, handle, keyup.
      destruct (currentGameState g) eqn:Hph; cbn [GameState_eqb negb orb];
        try (left; split; [reflexivity |];
             destruct (resetGame_scoring
                         match resetTimer g with
                         | Some (S _ as id) => set_resetTimer None (clearTimeout id g)
                         | _ => g
                         end) as [HF Hsc];
             split; [exact HF |]; split; [exact Hsc |]; apply resetGame_state).
      right; right; right. repeat split; try reflexivity. intros [H _]; discriminate.
    + right; right; right. repeat split; try reflexivity. intros [H _]; discriminate.
  - unfold startsThrow, fullReset, settleDue, handle, fireTimeout. cbn [orb].
    destruct (List.find (fun t => Nat.eqb (timer_id t) id) (timers g)) as [t |].
    + destruct (callback t) eqn:Hcb.
      * destruct (number_le_dec (deadline t) (now g)).
        -- right; left. split; [reflexivity |]. split; [reflexivity |].
           destruct (runCallback_settle_scoring (clearTimeout id g)) as (HF & Hsc & _).
           split; [exact HF |]. split; [exact Hsc |]. apply runCallback_settle_state.
        -- right; right; right. repeat split; try reflexivity. intros [H _]; discriminate.
      * right; right; right. split; [reflexivity |].
        split; [intros [H _]; discriminate |].
        destruct (number_le_dec (deadline t) (now g)); [| split; reflexivity].
        unfold runCallback.
        change (currentGameState (clearTimeout id g)) with (currentGameState g).
        destruct (currentGameState g); split; reflexivity.
    + right; right; right. repeat split; try reflexivity. intros [H _]; discriminate.
  - right; right; right. split; [reflexivity |]. split; [intros [H _]; discriminate |].
    pose proof (notifyOnReady_fields g) as F. cbv zeta in F.
    destruct F as (_ & _ & -> & _ & -> & _). split; reflexivity.
Qed.

(** An event that neither starts a throw nor is a frame drawn while Rolling
    leaves the score and the fallen set alone. *)
Lemma quiet_scoring (e : Event) (g : Game) :
  startsThrow e g = false -> ~ (e = Frame /\ currentGameState g = BALL_ROLLING) ->
  fallenPinIndicesThisThrow (handle e g) = fallenPinIndicesThisThrow g
  /\ score (handle e g) = score g.
Proof.
  intros Hno Hnf. pose proof (step_scoring e g) as H. cbv zeta in H.
  unfold startsThrow in *. apply orb_false_iff in Hno. destruct Hno as [Hf Hs].
  destruct H as [(Hf' & _) | [(_ & Hs' & _) | [(_ & He & Hph & _) | (_ & _ & H)]]].
  - congruence.
  - congruence.
  - exfalso. apply Hnf. split; assumption.
  - exact H.
Qed.

(** ** Facts about the sample states *)

Lemma reachable_Orderly_step (e : Event) (g : Game) :
  reachable g /\ Orderly g -> reachable (handle e g) /\ Orderly (handle e g).
Proof.
  intros [Hr Ho]. split; [apply reachable_step; exact Hr |].
  apply Orderly_step; [apply reachable_Inv | apply reachable_Queue |]; assumption.
Qed.

Lemma init_shape : timers_shape init.
Proof.
  unfold timers_shape. rewrite init_state, init_timers.
  split; [apply resetTimer_None, init_metadata |]. eexists. split; reflexivity.
Qed.

Lemma sampleReady_ok : reachable sampleReady /\ Orderly sampleReady.
Proof.
  split; [apply reachable_step, reachable_init |].
  apply Orderly_ready; [apply init_Queue | apply init_metadata | apply init_shape].
Qed.

Lemma notifyOnReady_state (g : Game) :
  currentGameState (handle SceneReady g)
  = if onReadyObservable g
    then match currentGameState g with RESETTING => RESETTING | _ => AIMING end
    else currentGameState g.
Proof.
  unfold handle, notifyOnReady. destruct (onReadyObservable g); [| reflexivity].
  pose proof (sceneReady_fields (set_onReadyObservable false g)) as F. cbv zeta in F.
  destruct F as (_ & _ & _ & _ & _ & _ & _ & _ & _ & _ & _ & _ & _ & _ & -> & _).
  reflexivity.
Qed.

Lemma sampleReady_facts :
  currentGameState sampleReady = RESETTING
  /\ timers sampleReady = [mkTimer 1 (0 + AIMING_DELAY) ToAiming]
  /\ now sampleReady = 0
  /\ score sampleReady = 0%Z
  /\ fallenPinIndicesThisThrow sampleReady = ∅.
Proof.
  pose proof (notifyOnReady_fields init) as F. cbv zeta in F.
  destruct F as (_ & _ & Es & _ & Ef & _ & _ & _ & Ets & _ & Enow).
  split; [rewrite notifyOnReady_state, init_observer, init_state; reflexivity |].
  split; [rewrite Ets; exact init_timers |].
  split; [rewrite Enow; reflexivity |].
  split; [rewrite Es; reflexivity |].
  rewrite Ef. reflexivity.
Qed.

(** What the Resetting-to-Aiming callback does when it comes due. *)
Lemma aiming_fires (g : Game) (t : Timer) :
  timers g = [t] -> callback t = ToAiming -> deadline t <= now g ->
  currentGameState g = RESETTING ->
  handle (Timeout (timer_id t)) g
  = set_currentGameState AIMING (set_timers [] g).
Proof.
  intros Hts Hcb Hdue Hph. unfold handle.
  rewrite (fireTimeout_single (timer_id t) t) by exact Hts.
  rewrite Nat.eqb_refl.
  destruct (number_le_dec (deadline t) (now g)); [| contradiction].
  rewrite Hcb. unfold runCallback.
  change (currentGameState (clearTimeout (timer_id t) g)) with (currentGameState g).
  rewrite Hph. unfold clearTimeout. rewrite Hts. cbn [List.filter].
  rewrite Nat.eqb_refl. reflexivity.
Qed.

Lemma elapse_fields (dt : nonnegreal) (g : Game) :
  let g' := handle (Elapse dt) g in
  currentGameState g' = currentGameState g /\ timers g' = timers g
  /\ now g' = now g + nonneg dt
  /\ score g' = score g
  /\ fallenPinIndicesThisThrow g' = fallenPinIndicesThisThrow g
  /\ resetTimer g' = resetTimer g /\ metadata g' = metadata g
  /\ nextTimerId g' = nextTimerId g /\ bowlingBall g' = bowlingBall g
  /\ pins g' = pins g.
Proof. repeat split; reflexivity. Qed.

Lemma sampleAiming_ok : reachable sampleAiming /\ Orderly sampleAiming.
Proof. do 2 apply reachable_Orderly_step. exact sampleReady_ok. Qed.

Lemma sampleAiming_eq :
  sampleAiming
  = set_currentGameState AIMING (set_timers [] (handle (Elapse ms100) sampleReady)).
Proof.
  destruct sampleReady_facts as (Hph & Hts & Hnow & _).
  pose proof (elapse_fields ms100 sampleReady) as F. cbv zeta in F.
  destruct F as (Eph & Ets & Enow & _).
  apply (aiming_fires (handle (Elapse ms100) sampleReady)
           (mkTimer 1 (0 + AIMING_DELAY) ToAiming)).
  - rewrite Ets. exact Hts.
  - reflexivity.
  - cbn [deadline]. rewrite Enow, Hnow. cbn [nonneg ms100]. unfold AIMING_DELAY. lra.
  - rewrite Eph. exact Hph.
Qed.

Lemma sampleAiming_facts :
  currentGameState sampleAiming = AIMING
  /\ timers sampleAiming = []
  /\ now sampleAiming = 100
  /\ score sampleAiming = 0%Z
  /\ fallenPinIndicesThisThrow sampleAiming = ∅.
Proof.
  destruct sampleReady_facts as (_ & _ & Hnow & Hs & Hf).
  pose proof (elapse_fields ms100 sampleReady) as F. cbv zeta in F.
  destruct F as (_ & _ & Enow & Es & Ef & _).
  rewrite sampleAiming_eq. revert Enow Es Ef.
  generalize (handle (Elapse ms100) sampleReady). intros g Enow Es Ef.
  cbn [set_currentGameState set_timers currentGameState timers now score
       fallenPinIndicesThisThrow].
  split; [reflexivity |]. split; [reflexivity |].
  split; [rewrite Enow, Hnow; cbn [nonneg ms100]; lra |].
  split; [rewrite Es; exact Hs | rewrite Ef; exact Hf].
Qed.

Lemma sampleAiming_state : currentGameState sampleAiming = AIMING.
Proof. apply sampleAiming_facts. Qed.

Lemma sampleAiming_reachable : reachable sampleAiming.
Proof. exact (proj1 sampleAiming_ok). Qed.

Lemma keydown_state (g : Game) :
  currentGameState g = AIMING ->
  currentGameState (handle (KeyDown Space) g) = CHARGING.
Proof.
  intros H. unfold handle, keydown. rewrite H.
  cbn [directionArrow set_chargeStartTime set_currentGameState].
  destruct (directionArrow g); reflexivity.
Qed.

Lemma elapse_state (dt : nonnegreal) (g : Game) :
  currentGameState (handle (Elapse dt) g) = currentGameState g.
Proof. reflexivity. Qed.

Lemma renderLoop_charging_state (g : Game) :
  currentGameState g = CHARGING -> currentGameState (handle Frame g) = CHARGING.
Proof.
  intros H. unfold handle, renderLoop. rewrite H.
  destruct (directionArrow g); [| exact H]. exact H.
Qed.

Lemma keyup_state (g : Game) :
  currentGameState g = CHARGING ->
  currentGameState (handle (KeyUp Space) g) = BALL_ROLLING.
Proof. intros H. apply (keyup_space_fields g H). Qed.

(** Stepping a fact about the phase, the score and the fallen set over an
    event that leaves the scoring state alone. *)
Lemma quiet_facts (e : Event) (g : Game) (s : Z) (F : gset nat) :
  startsThrow e g = false -> currentGameState g <> BALL_ROLLING ->
  score g = s /\ fallenPinIndicesThisThrow g = F ->
  score (handle e g) = s /\ fallenPinIndicesThisThrow (handle e g) = F.
Proof.
  intros Hno Hph [Hs Hf].
  destruct (quiet_scoring e g Hno) as [Ef Es].
  { intros [_ H]. contradiction. }
  rewrite Ef, Es. split; assumption.
Qed.

Lemma sampleCharging_ok : reachable sampleCharging /\ Orderly sampleCharging.
Proof. apply reachable_Orderly_step. exact sampleAiming_ok. Qed.

Lemma sampleCharging_state : currentGameState sampleCharging = CHARGING.
Proof. apply keydown_state, sampleAiming_state. Qed.

Lemma sampleCharging_reachable : reachable sampleCharging.
Proof. exact (proj1 sampleCharging_ok). Qed.

Lemma sampleCharging_scoring :
  score sampleCharging = 0%Z /\ fallenPinIndicesThisThrow sampleCharging = ∅.
Proof.
  destruct sampleAiming_facts as (Hph & _ & _ & Hs & Hf).
  apply quiet_facts; [reflexivity | rewrite Hph; discriminate | split; [exact Hs | exact Hf]].
Qed.

Lemma sampleCharged_ok : reachable sampleCharged /\ Orderly sampleCharged.
Proof. do 2 apply reachable_Orderly_step. exact sampleCharging_ok. Qed.

Lemma sampleCharged_state : currentGameState sampleCharged = CHARGING.
Proof.
  apply renderLoop_charging_state.
  rewrite elapse_state. exact sampleCharging_state.
Qed.

Lemma sampleCharged_reachable : reachable sampleCharged.
Proof. exact (proj1 sampleCharged_ok). Qed.

Lemma sampleCharged_scoring :
  score sampleCharged = 0%Z /\ fallenPinIndicesThisThrow sampleCharged = ∅.
Proof.
  apply quiet_facts; [reflexivity | |].
  - rewrite elapse_state, sampleCharging_state. discriminate.
  - apply quiet_facts; [reflexivity | | exact sampleCharging_scoring].
    rewrite sampleCharging_state. discriminate.
Qed.

Lemma sampleRolling_ok : reachable sampleRolling /\ Orderly sampleRolling.
Proof. apply reachable_Orderly_step. exact sampleCharged_ok. Qed.

Lemma sampleRolling_state : currentGameState sampleRolling = BALL_ROLLING.
Proof. apply keyup_state, sampleCharged_state. Qed.

Lemma sampleRolling_reachable : reachable sampleRolling.
Proof. exact (proj1 sampleRolling_ok). Qed.

Lemma sampleRolling_scoring :
  score sampleRolling = 0%Z /\ fallenPinIndicesThisThrow sampleRolling = ∅.
Proof.
  apply quiet_facts; [reflexivity | | exact sampleCharged_scoring].
  rewrite sampleCharged_state. discriminate.
Qed.

(** While Charging no callback is pending and no timer is recorded. *)
Lemma charging_no_timer (g : Game) :
  Queue g -> currentGameState g = CHARGING -> resetTimer g = None.
Proof.
  intros HQ Hph. apply recorded_not_rolling; [exact HQ |]. rewrite Hph. discriminate.
Qed.

Lemma orderly_charging (g : Game) :
  Orderly g -> currentGameState g = CHARGING -> resetTimer g = None /\ timers g = [].
Proof. intros [_ Hs] Hph. unfold timers_shape in Hs. rewrite Hph in Hs. exact Hs. Qed.

Lemma sampleRolling_queue : resetTimer sampleRolling = None /\ timers sampleRolling = [].
Proof.
  destruct (orderly_charging _ (proj2 sampleCharged_ok) sampleCharged_state) as [Hrt Hts].
  pose proof (keyup_space_fields _ sampleCharged_state) as F. cbv zeta in F.
  destruct F as (_ & _ & _ & _ & _ & _ & _ & _ & _ & Ert & Ets & _).
  rewrite Ert, Ets. split; [exact Hrt | exact Hts].
Qed.

(** ** Physics steps *)

Lemma physics_fields (ballR : BodyReading) (pinR : nat -> BodyReading) (g : Game) :
  let g' := handle (Physics ballR pinR) g in
  currentGameState g' = currentGameState g
  /\ resetTimer g' = resetTimer g
  /\ score g' = score g
  /\ fallenPinIndicesThisThrow g' = fallenPinIndicesThisThrow g
  /\ timers g' = timers g /\ metadata g' = metadata g
  /\ nextTimerId g' = nextTimerId g /\ now g' = now g
  /\ scoreText g' = scoreText g.
Proof. repeat split; reflexivity. Qed.

(** After a physics step every pin shows the orientation the engine
    reported for it. *)
Lemma physics_pin_lookup (ballR : BodyReading) (pinR : nat -> BodyReading) (g : Game)
    (i : nat) :
  Inv g -> (i < 10)%nat ->
  exists imp, pins (handle (Physics ballR pinR) g) !! i
              = Some (Some (mkMesh (r_position (pinR i)) (r_up (pinR i)) (Some imp))).
Proof.
  intros HI Hi. destruct (Inv_pin_lookup g i HI Hi) as (pin & imp & Hp & Himp).
  unfold handle, physicsStep. cbn [pins set_pins set_bowlingBall].
  rewrite list_lookup_imap, Hp. cbn [fmap option_fmap option_map].
  unfold integrate. rewrite Himp. eexists. reflexivity.
Qed.

Lemma isBallStopped_physics (ballR : BodyReading) (pinR : nat -> BodyReading) (g : Game) :
  pin_ok (bowlingBall g) ->
  isBallStopped (handle (Physics ballR pinR) g)
  = match r_linearVelocity ballR, r_angularVelocity ballR with
    | Some linVel, Some angVel =>
        JsBool (js_lt (lengthSquared linVel) 0.1 && js_lt (lengthSquared angVel) 0.1)
    | _, _ => JsNull
    end.
Proof.
  intros (ball & imp & Hb & Hi).
  unfold handle, physicsStep, isBallStopped.
  cbn [bowlingBall set_pins set_bowlingBall]. rewrite Hb. cbn [option_map].
  unfold integrate. rewrite Hi. cbn [physicsImpostor linearVelocity angularVelocity].
  destruct (r_linearVelocity ballR), (r_angularVelocity ballR); reflexivity.
Qed.

Lemma readsMoving_not_stopped (ballR : BodyReading) (pinR : nat -> BodyReading) (g : Game) :
  pin_ok (bowlingBall g) -> readsMoving ballR ->
  truthy (isBallStopped (handle (Physics ballR pinR) g)) = false.
Proof.
  intros Hb Hm. rewrite isBallStopped_physics by exact Hb.
  destruct (r_linearVelocity ballR) as [lv |] eqn:El; [| reflexivity].
  destruct (r_angularVelocity ballR) as [av |] eqn:Ea; [| reflexivity].
  cbn [truthy]. apply andb_false_iff.
  destruct Hm as [Hm | [Hm | [(v & Hv & Hge) | (v & Hv & Hge)]]].
  - congruence.
  - congruence.
  - rewrite El in Hv. injection Hv as <-. left. apply js_lt_false. lra.
  - rewrite Ea in Hv. injection Hv as <-. right. apply js_lt_false. lra.
Qed.

Lemma rollingReading_moving : readsMoving rollingReading.
Proof.
  right. right. left. exists (mkVector3 0 0 1). split; [reflexivity |].
  unfold lengthSquared. cbn [x y z]. lra.
Qed.

Lemma restReading_stopped (pinR : nat -> BodyReading) (g : Game) :
  pin_ok (bowlingBall g) ->
  truthy (isBallStopped (handle (Physics restReading pinR) g)) = true.
Proof.
  intros Hb. rewrite isBallStopped_physics by exact Hb.
  cbn [restReading r_linearVelocity r_angularVelocity truthy].
  assert (H1 : js_lt (lengthSquared (mkVector3 0 0 0.1)) 0.1 = true).
  { apply js_lt_true. unfold lengthSquared. cbn [x y z]. lra. }
  assert (H2 : js_lt (lengthSquared Vector3_Zero) 0.1 = true).
  { apply js_lt_true. unfold lengthSquared, Vector3_Zero. cbn [x y z]. lra. }
  rewrite H1, H2. reflexivity.
Qed.

(** ** The tilt test *)

Lemma lengthSquared_nonneg (v : Vector3) : 0 <= lengthSquared v.
Proof. unfold lengthSquared. nra. Qed.

Lemma length_nonneg (v : Vector3) : 0 <= BABYLON.length v.
Proof. unfold BABYLON.length. apply sqrt_pos. Qed.

Lemma y_le_length (v : Vector3) : Rabs (y v) <= BABYLON.length v.
Proof.
  unfold BABYLON.length. rewrite <- sqrt_Rsqr_abs.
  apply sqrt_le_1_alt. unfold Rsqr, lengthSquared. nra.
Qed.

Lemma length_zero_y (v : Vector3) : BABYLON.length v = 0 -> y v = 0.
Proof.
  intros H. pose proof (y_le_length v) as Hy. rewrite H in Hy.
  pose proof (Rabs_pos (y v)) as Hp.
  destruct (Req_dec (y v) 0) as [E | E]; [exact E |].
  apply Rabs_pos_lt in E. lra.
Qed.

(** The dot product of the tilt test is the vertical component of the up
    vector divided by its length (zero for the zero vector). *)
Lemma dotProduct_eq (pin : Mesh) :
  dotProduct pin
  = if number_eq_dec (BABYLON.length (up pin)) 0 then 0
    else y (up pin) / BABYLON.length (up pin).
Proof.
  unfold dotProduct, normalize. cbv zeta.
  destruct (number_eq_dec (BABYLON.length (up pin)) 0) as [E0 | N0].
  - unfold Vector3_Dot, Axis_Y. cbn [x y z]. rewrite (length_zero_y _ E0). ring.
  - destruct (number_eq_dec (BABYLON.length (up pin)) 1) as [E1 | N1].
    + unfold Vector3_Dot, Axis_Y. cbn [x y z]. rewrite E1. field.
    + unfold Vector3_Dot, Axis_Y, scale. cbn [x y z]. field. exact N0.
Qed.

(** For a pin whose up vector is not the zero vector the tilt test reads:
    the vertical component is less than 0.7 times the length. *)
Lemma tilt_components (pin : Mesh) :
  let u := up pin in
  sqrt (x u * x u + y u * y u + z u * z u) <> 0 ->
  (dotProduct pin < PIN_FALLEN_THRESHOLD
   <-> y u < 0.7 * sqrt (x u * x u + y u * y u + z u * z u)).
Proof.
  cbv zeta. intros Hn. rewrite dotProduct_eq. unfold PIN_FALLEN_THRESHOLD.
  change (sqrt (x (up pin) * x (up pin) + y (up pin) * y (up pin) + z (up pin) * z (up pin)))
    with (BABYLON.length (up pin)) in *.
  destruct (number_eq_dec (BABYLON.length (up pin)) 0) as [E0 | _]; [contradiction |].
  pose proof (length_nonneg (up pin)) as Hl.
  assert (Hpos : 0 < BABYLON.length (up pin)) by lra.
  split; intros H.
  - apply (Rmult_lt_compat_r (BABYLON.length (up pin))) in H; [| exact Hpos].
    unfold Rdiv in H. rewrite Rmult_assoc, Rinv_l, Rmult_1_r in H by exact Hn. exact H.
  - apply (Rmult_lt_reg_r (BABYLON.length (up pin))); [exact Hpos |].
    unfold Rdiv. rewrite Rmult_assoc, Rinv_l, Rmult_1_r by exact Hn. exact H.
Qed.

Lemma unit_length (v : Vector3) :
  x v * x v + y v * y v + z v * z v = 1 -> BABYLON.length v = 1.
Proof. intros H. unfold BABYLON.length, lengthSquared. rewrite H. apply sqrt_1. Qed.

Lemma dotProduct_unit (pos : Vector3) (u : Vector3) (imp : option PhysicsImpostor) :
  x u * x u + y u * y u + z u * z u = 1 -> dotProduct (mkMesh pos u imp) = y u.
Proof.
  intros H. rewrite dotProduct_eq. cbn [up]. rewrite (unit_length u H).
  destruct (number_eq_dec 1 0) as [E | _]; [lra | field].
Qed.

Lemma dotProduct_upright_mesh (pos : Vector3) (imp : option PhysicsImpostor) :
  dotProduct (mkMesh pos Axis_Y imp) = 1.
Proof.
  rewrite dotProduct_unit; [reflexivity |]. unfold Axis_Y. cbn [x y z]. ring.
Qed.

Lemma dotProduct_leaning (pos : Vector3) (imp : option PhysicsImpostor) :
  dotProduct (mkMesh pos leaningUp imp) = 0.8.
Proof.
  rewrite dotProduct_unit; [reflexivity |]. unfold leaningUp. cbn [x y z]. lra.
Qed.

Lemma dotProduct_falling (pos : Vector3) (imp : option PhysicsImpostor) :
  dotProduct (mkMesh pos fallingUp imp) = 0.6.
Proof.
  rewrite dotProduct_unit; [reflexivity |]. unfold fallingUp. cbn [x y z]. lra.
Qed.

(** The pins a scoring pass credits right after a physics step that
    reports pin 0 with the up-vector [u] and the others upright. *)
Lemma newlyFallenPins_rack (ballR : BodyReading) (u : Vector3) (g : Game) (i : nat) :
  Inv g ->
  i ∈ newlyFallenPins (handle (Physics ballR (rack u)) g)
  <-> i = 0%nat /\ (0%nat ∉ fallenPinIndicesThisThrow g)
      /\ dotProduct (mkMesh Vector3_Zero u None) < PIN_FALLEN_THRESHOLD.
Proof.
  intros HI. rewrite newlyFallenPins_elem.
  change (fallenPinIndicesThisThrow (handle (Physics ballR (rack u)) g))
    with (fallenPinIndicesThisThrow g).
  assert (Hdot : forall pos v imp imp', dotProduct (mkMesh pos v imp)
                                        = dotProduct (mkMesh Vector3_Zero v imp'))
    by reflexivity.
  split.
  - intros (Hout & pin & imp & Hp & Himp & Hd).
    assert (Hi : (i < 10)%nat).
    { apply lookup_lt_Some in Hp.
      rewrite (inv_pins_length _ (Inv_physics ballR (rack u) g HI)) in Hp. exact Hp. }
    destruct (physics_pin_lookup ballR (rack u) g i HI Hi) as (imp' & Hp').
    rewrite Hp in Hp'. injection Hp' as ->.
    destruct i as [| i].
    + cbn [rack r_up Nat.eqb] in Hd. split; [reflexivity |]. split; [exact Hout |].
      rewrite (Hdot _ _ _ (Some imp')). exact Hd.
    + exfalso. cbn [rack r_up r_position Nat.eqb] in Hd.
      rewrite dotProduct_upright_mesh in Hd. unfold PIN_FALLEN_THRESHOLD in Hd. lra.
  - intros (-> & Hout & Hd). split; [exact Hout |].
    destruct (physics_pin_lookup ballR (rack u) g 0 HI) as (imp & Hp); [lia |].
    eexists. exists imp. split; [exact Hp |]. split; [reflexivity |].
    cbn [rack r_up r_position Nat.eqb]. rewrite (Hdot _ _ _ None). exact Hd.
Qed.

(** A frame drawn while Rolling, right after such a physics step. *)
Lemma frame_rack (ballR : BodyReading) (u : Vector3) (g : Game) :
  Inv g -> currentGameState g = BALL_ROLLING ->
  let g2 := handle Frame (handle (Physics ballR (rack u)) g) in
  currentGameState g2 = BALL_ROLLING
  /\ (dotProduct (mkMesh Vector3_Zero u None) < PIN_FALLEN_THRESHOLD ->
      0%nat ∉ fallenPinIndicesThisThrow g ->
      fallenPinIndicesThisThrow g2 = {[ 0%nat ]} ∪ fallenPinIndicesThisThrow g
      /\ score g2 = (score g + 1)%Z)
  /\ (~ dotProduct (mkMesh Vector3_Zero u None) < PIN_FALLEN_THRESHOLD
      \/ 0%nat ∈ fallenPinIndicesThisThrow g ->
      fallenPinIndicesThisThrow g2 = fallenPinIndicesThisThrow g
      /\ score g2 = score g).
Proof.
  intros HI Hph. cbv zeta.
  assert (Hph1 : currentGameState (handle (Physics ballR (rack u)) g) = BALL_ROLLING)
    by exact Hph.
  destruct (renderLoop_rolling_scoring _ Hph1) as (HF & Hsc & _ & Hph2 & _).
  pose proof (fun i => newlyFallenPins_rack ballR u g i HI) as Hnew.
  change (fallenPinIndicesThisThrow (handle (Physics ballR (rack u)) g))
    with (fallenPinIndicesThisThrow g) in HF.
  change (score (handle (Physics ballR (rack u)) g)) with (score g) in Hsc.
  revert HF Hsc Hph2 Hnew.
  generalize (newlyFallenPins (handle (Physics ballR (rack u)) g)).
  generalize (handle Frame (handle (Physics ballR (rack u)) g)).
  intros g2 N HF Hsc Hph2 Hnew.
  split; [exact Hph2 |]. split.
  - intros Hd Hout.
    assert (HN : N = {[ 0%nat ]}).
    { apply set_eq. intros i. rewrite Hnew, elem_of_singleton. tauto. }
    rewrite HF, Hsc, HN, size_singleton. split; [reflexivity | lia].
  - intros Hno.
    assert (HN : N = ∅).
    { apply set_eq. intros i. rewrite Hnew. split; [| set_solver].
      intros (_ & Hout & Hd). destruct Hno as [Hno | Hin]; contradiction. }
    rewrite HF, Hsc, HN, size_empty. split; [set_solver | lia].
Qed.

(** ** The throw in which pin 0 falls *)

Lemma leaning_stands : ~ dotProduct (mkMesh Vector3_Zero leaningUp None) < PIN_FALLEN_THRESHOLD.
Proof. rewrite dotProduct_leaning. unfold PIN_FALLEN_THRESHOLD. lra. Qed.

Lemma falling_falls : dotProduct (mkMesh Vector3_Zero fallingUp None) < PIN_FALLEN_THRESHOLD.
Proof. rewrite dotProduct_falling. unfold PIN_FALLEN_THRESHOLD. lra. Qed.

Lemma sampleLeaning_ok : reachable sampleLeaning /\ Orderly sampleLeaning.
Proof. do 2 apply reachable_Orderly_step. exact sampleRolling_ok. Qed.

Lemma sampleLeaning_facts :
  currentGameState sampleLeaning = BALL_ROLLING
  /\ score sampleLeaning = 0%Z /\ fallenPinIndicesThisThrow sampleLeaning = ∅.
Proof.
  pose proof (frame_rack rollingReading leaningUp sampleRolling
                (reachable_Inv _ sampleRolling_reachable) sampleRolling_state) as H.
  cbv zeta in H. destruct H as (Hph & _ & H).
  destruct (H (or_introl leaning_stands)) as [HF Hs].
  destruct sampleRolling_scoring as [Hs0 HF0].
  split; [exact Hph |]. split; [rewrite Hs; exact Hs0 | rewrite HF; exact HF0].
Qed.

Lemma sampleFalling_ok : reachable sampleFalling /\ Orderly sampleFalling.
Proof. apply reachable_Orderly_step. exact sampleLeaning_ok. Qed.

Lemma sampleFalling_facts :
  currentGameState sampleFalling = BALL_ROLLING
  /\ score sampleFalling = 0%Z /\ fallenPinIndicesThisThrow sampleFalling = ∅
  /\ exists imp, pins sampleFalling !! 0%nat
                 = Some (Some (mkMesh Vector3_Zero fallingUp (Some imp))).
Proof.
  destruct sampleLeaning_facts as (Hph & Hs & HF).
  pose proof (physics_fields rollingReading (rack fallingUp) sampleLeaning) as F.
  cbv zeta in F. destruct F as (Eph & _ & Es & Ef & _).
  split; [rewrite Eph; exact Hph |]. split; [rewrite Es; exact Hs |].
  split; [rewrite Ef; exact HF |].
  apply (physics_pin_lookup rollingReading (rack fallingUp) sampleLeaning 0);
    [exact (reachable_Inv _ (proj1 sampleLeaning_ok)) | lia].
Qed.

Lemma sampleScored_ok : reachable sampleScored /\ Orderly sampleScored.
Proof. apply reachable_Orderly_step. exact sampleFalling_ok. Qed.

Lemma sampleScored_facts :
  currentGameState sampleScored = BALL_ROLLING
  /\ score sampleScored = 1%Z /\ fallenPinIndicesThisThrow sampleScored = {[ 0%nat ]}.
Proof.
  destruct sampleLeaning_facts as (Hph & Hs & HF).
  pose proof (frame_rack rollingReading fallingUp sampleLeaning
                (reachable_Inv _ (proj1 sampleLeaning_ok)) Hph) as H.
  cbv zeta in H. destruct H as (Hph' & H & _).
  destruct H as [HF' Hs']; [exact falling_falls | rewrite HF; apply not_elem_of_empty |].
  split; [exact Hph' |]. split; [rewrite Hs', Hs; reflexivity |].
  rewrite HF', HF. apply (right_id_L ∅ (∪)).
Qed.

Lemma sampleSwung_ok : reachable sampleSwung /\ Orderly sampleSwung.
Proof. do 3 apply reachable_Orderly_step. exact sampleScored_ok. Qed.

Lemma sampleSwung_facts :
  currentGameState sampleSwung = BALL_ROLLING
  /\ score sampleSwung = 1%Z /\ fallenPinIndicesThisThrow sampleSwung = {[ 0%nat ]}
  /\ exists imp, pins sampleSwung !! 0%nat
                 = Some (Some (mkMesh Vector3_Zero fallingUp (Some imp))).
Proof.
  destruct sampleScored_facts as (Hph & Hs & HF).
  pose proof (frame_rack rollingReading leaningUp sampleScored
                (reachable_Inv _ (proj1 sampleScored_ok)) Hph) as H.
  cbv zeta in H. destruct H as (Hph1 & _ & H).
  destruct (H (or_introl leaning_stands)) as [HF1 Hs1].
  assert (Hr1 : reachable (handle Frame (handle (Physics rollingReading (rack leaningUp))
                                                sampleScored)))
    by (do 2 apply reachable_step; exact (proj1 sampleScored_ok)).
  revert Hph1 HF1 Hs1 Hr1.
  generalize (handle Frame (handle (Physics rollingReading (rack leaningUp)) sampleScored)).
  intros g1 Hph1 HF1 Hs1 Hr1.
  split; [exact Hph1 |]. split; [rewrite <- Hs; exact Hs1 |].
  split; [rewrite <- HF; exact HF1 |].
  apply (physics_pin_lookup rollingReading (rack fallingUp) g1 0);
    [exact (reachable_Inv _ Hr1) | lia].
Qed.

Lemma sampleSwung_frame :
  score (handle Frame sampleSwung) = 1%Z
  /\ fallenPinIndicesThisThrow (handle Frame sampleSwung) = {[ 0%nat ]}.
Proof.
  destruct sampleScored_facts as (Hph & Hs & HF).
  pose proof (frame_rack rollingReading leaningUp sampleScored
                (reachable_Inv _ (proj1 sampleScored_ok)) Hph) as H.
  cbv zeta in H. destruct H as (Hph1 & _ & H).
  destruct (H (or_introl leaning_stands)) as [HF1 Hs1].
  assert (Hr1 : reachable (handle Frame (handle (Physics rollingReading (rack leaningUp))
                                                sampleScored)))
    by (do 2 apply reachable_step; exact (proj1 sampleScored_ok)).
  rewrite HF in HF1. rewrite Hs in Hs1. clear H Hph Hs HF.
  revert Hph1 HF1 Hs1 Hr1.
  generalize (handle Frame (handle (Physics rollingReading (rack leaningUp)) sampleScored)).
  intros g1 Hph1 HF1 Hs1 Hr1.
  pose proof (frame_rack rollingReading fallingUp g1 (reachable_Inv _ Hr1) Hph1) as H.
  cbv zeta in H. destruct H as (_ & _ & H).
  destruct H as [HF2 Hs2].
  { right. rewrite HF1. apply elem_of_singleton. reflexivity. }
  rewrite Hs2, HF2. split; assumption.
Qed.

(** ** The score over a throw *)

Lemma run_nil (g : Game) : run [] g = g.
Proof. reflexivity. Qed.

Lemma run_cons (e : Event) (es : list Event) (g : Game) :
  run (e :: es) g = run es (handle e g).
Proof. reflexivity. Qed.

Lemma startsThrow_frame (g : Game) : startsThrow Frame g = false.
Proof. reflexivity. Qed.

Lemma startsThrow_physics (ballR : BodyReading) (pinR : nat -> BodyReading) (g : Game) :
  startsThrow (Physics ballR pinR) g = false.
Proof. reflexivity. Qed.

Lemma startsThrow_elapse (dt : nonnegreal) (g : Game) : startsThrow (Elapse dt) g = false.
Proof. reflexivity. Qed.

(** As long as no reset runs, the fallen set only grows and the score grows
    by the number of indices added. *)
Lemma sameThrow_scoring (es : list Event) (g : Game) :
  sameThrow es g ->
  fallenPinIndicesThisThrow g ⊆ fallenPinIndicesThisThrow (run es g)
  /\ score (run es g)
     = (score g + Z.of_nat (size (fallenPinIndicesThisThrow (run es g)
                                  ∖ fallenPinIndicesThisThrow g)))%Z.
Proof.
  revert g. induction es as [| e es IH]; intros g Hs.
  - rewrite run_nil. split; [reflexivity |].
    replace (fallenPinIndicesThisThrow g ∖ fallenPinIndicesThisThrow g)
      with (∅ : gset nat) by set_solver.
    rewrite size_empty. lia.
  - destruct Hs as [Hno Hs]. rewrite run_cons.
    destruct (IH (handle e g) Hs) as [Hsub Hsc].
    pose proof (step_scoring e g) as Hstep. cbv zeta in Hstep.
    unfold startsThrow in Hno, Hstep. apply orb_false_iff in Hno. destruct Hno as [Hf Hd].
    revert Hsub Hsc. generalize (run es (handle e g)). intros gn Hsub Hsc.
    destruct Hstep as [(Hf' & _) | [(_ & Hd' & _) | [(_ & _ & _ & HF & Hs1)
                      | (_ & _ & HF & Hs1)]]].
    + congruence.
    + congruence.
    + rewrite HF in Hsub, Hsc. rewrite Hs1 in Hsc.
      pose proof (newlyFallenPins_elem g) as Hel.
      revert Hsub Hsc Hel. generalize (newlyFallenPins g). intros N Hsub Hsc Hel.
      split; [set_solver |].
      assert (Hd1 : N ## fallenPinIndicesThisThrow gn ∖ (N ∪ fallenPinIndicesThisThrow g))
        by set_solver.
      assert (Hd2 : fallenPinIndicesThisThrow gn ∖ fallenPinIndicesThisThrow g
                    = N ∪ fallenPinIndicesThisThrow gn ∖ (N ∪ fallenPinIndicesThisThrow g)).
      { apply set_eq. intros i. rewrite elem_of_union, !elem_of_difference, elem_of_union.
        split.
        - intros [Hi Hn]. destruct (decide (i ∈ N)); [left; assumption | right].
          split; [exact Hi | tauto].
        - intros [Hi | [Hi Hn]].
          + split; [apply Hsub; set_solver | apply (Hel i); exact Hi].
          + split; [exact Hi | tauto]. }
      rewrite Hd2, size_union by exact Hd1. lia.
    + rewrite HF in Hsub, Hsc. rewrite Hs1 in Hsc. split; assumption.
Qed.

(** * The claims *)

(** C1. On a frame drawn while the ball rolls, a pin is credited exactly
    when its index is not yet in the fallen set and the dot product of its
    normalised up-vector with the vertical is below 0.7, that is, for an
    up-vector other than zero, when its vertical component is less than 0.7
    times its length; each credited pin adds its index to the set and one
    point to the score, so the score grows by exactly the number of indices
    added; indices already in the set stay. And as long as no reset starts
    a new throw, however the pins move in between, the set only grows and
    the score gained equals the number of indices added: no pin is
    credited twice. *)
Theorem C1_scoring_pass (g : Game) (es : list Event) :
  reachable g -> currentGameState g = BALL_ROLLING ->
  let F := fallenPinIndicesThisThrow g in
  let F' := fallenPinIndicesThisThrow (handle Frame g) in
  (forall i, (i < 10)%nat -> exists pin, pins g !! i = Some (Some pin))
  /\ (forall i, i ∈ F' ∖ F -> exists pin, pins g !! i = Some (Some pin))
  /\ (forall i pin, pins g !! i = Some (Some pin) ->
        (i ∈ F' ∖ F <-> (i ∉ F) /\ Vector3_Dot (normalize (up pin)) Axis_Y < 0.7))
  /\ (forall i pin, pins g !! i = Some (Some pin) ->
        let u := up pin in
        sqrt (x u * x u + y u * y u + z u * z u) <> 0 ->
        (i ∈ F' ∖ F
         <-> (i ∉ F) /\ y u < 0.7 * sqrt (x u * x u + y u * y u + z u * z u)))
  /\ F ⊆ F'
  /\ score (handle Frame g) = (score g + Z.of_nat (size (F' ∖ F)))%Z
  /\ (sameThrow es g ->
      F ⊆ fallenPinIndicesThisThrow (run es g)
      /\ score (run es g)
         = (score g + Z.of_nat (size (fallenPinIndicesThisThrow (run es g) ∖ F)))%Z).
Proof.
  intros Hr Hph F F'. pose proof (reachable_Inv _ Hr) as HI.
  destruct (renderLoop_rolling_scoring g Hph) as (HF & Hsc & _).
  assert (Hnew : F' ∖ F = newlyFallenPins g).
  { subst F F'. rewrite HF. apply newlyFallenPins_disjoint. }
  assert (Hiff : forall i pin, pins g !! i = Some (Some pin) ->
                   (i ∈ F' ∖ F <-> (i ∉ F) /\ dotProduct pin < PIN_FALLEN_THRESHOLD)).
  { intros i pin Hp. rewrite Hnew, newlyFallenPins_elem. split.
    - intros (Hout & pin' & _ & Hp' & _ & Hd). rewrite Hp in Hp'. injection Hp' as <-.
      split; assumption.
    - intros [Hout Hd]. split; [exact Hout |].
      assert (Hi : (i < 10)%nat).
      { apply lookup_lt_Some in Hp. rewrite (inv_pins_length _ HI) in Hp. exact Hp. }
      destruct (Inv_pin_lookup g i HI Hi) as (pin' & imp & Hp' & Himp).
      rewrite Hp in Hp'. injection Hp' as <-.
      exists pin, imp. repeat split; assumption. }
  split.
  { intros i Hi. destruct (Inv_pin_lookup g i HI Hi) as (pin & _ & Hp & _).
    exists pin. exact Hp. }
  split.
  { intros i Hi. rewrite Hnew in Hi. apply newlyFallenPins_elem in Hi.
    destruct Hi as (_ & pin & _ & Hp & _). exists pin. exact Hp. }
  split; [exact Hiff |].
  split.
  { intros i pin Hp u Hn. rewrite (Hiff i pin Hp).
    pose proof (tilt_components pin) as Ht. cbv zeta in Ht. fold u in Ht.
    rewrite (Ht Hn). reflexivity. }
  split.
  { subst F F'. rewrite HF. set_solver. }
  split; [rewrite Hnew; exact Hsc |].
  apply sameThrow_scoring.
Qed.

Lemma C1_scoring_pass_witness :
  0%nat ∈ fallenPinIndicesThisThrow (handle Frame sampleFalling)
          ∖ fallenPinIndicesThisThrow sampleFalling
  /\ score (handle Frame sampleFalling) = (score sampleFalling + 1)%Z
  /\ score (handle Frame sampleSwung) = (score sampleFalling + 1)%Z.
Proof.
  destruct sampleFalling_facts as (Hph & Hs & HF & imp & Hp).
  pose proof (C1_scoring_pass sampleFalling
                [Frame; Physics rollingReading (rack leaningUp); Frame;
                 Physics rollingReading (rack fallingUp); Frame]
                (proj1 sampleFalling_ok) Hph) as H.
  cbv zeta in H. destruct H as (_ & _ & Hiff & _ & _ & Hsc & Hrun).
  destruct sampleScored_facts as (_ & Hs1 & HF1).
  destruct sampleSwung_frame as (Hs2 & HF2).
  split; [| split].
  - apply (Hiff 0%nat _ Hp). split; [rewrite HF; apply not_elem_of_empty |].
    apply falling_falls.
  - rewrite Hs1, Hs. reflexivity.
  - rewrite Hs2, Hs. reflexivity.
Defined.

Lemma updateArrowCharging_power (arrow : ArrowMesh) (d : R) (g : Game) :
  launchPower (updateArrowCharging arrow d g) = powerAfter d.
Proof. reflexivity. Qed.

Lemma chargeRatio_mono (d1 d2 : R) : d1 <= d2 -> chargeRatio d1 <= chargeRatio d2.
Proof.
  intros H. unfold chargeRatio, MAX_CHARGE_TIME.
  apply Rle_min_compat_r. lra.
Qed.

Lemma chargeRatio_saturated (d : R) : 1500 <= d -> chargeRatio d = 1.
Proof.
  intros H. unfold chargeRatio, MAX_CHARGE_TIME.
  rewrite Rmin_right; lra.
Qed.

(** C2. For every charge duration [d >= 0] the charge ratio is
    [min (d / 1500) 1] and lies in [0, 1]; the launch power the charging
    update stores is [20 + (150 - 20) * ratio], lies in [20, 150], does not
    decrease when [d] grows, and is exactly 150 from 1500 ms on. A frame
    drawn while Charging processes the duration [now - chargeStartTime],
    which is never negative. *)
Theorem C2_charge_ramp (g : Game) (arrow : ArrowMesh) (d d' : R) :
  reachable g -> currentGameState g = CHARGING -> 0 <= d -> d <= d' ->
  chargeRatio d = Rmin (d / 1500) 1
  /\ 0 <= chargeRatio d <= 1
  /\ launchPower (updateArrowCharging arrow d g) = 20 + (150 - 20) * chargeRatio d
  /\ 20 <= launchPower (updateArrowCharging arrow d g) <= 150
  /\ launchPower (updateArrowCharging arrow d g)
     <= launchPower (updateArrowCharging arrow d' g)
  /\ (1500 <= d -> launchPower (updateArrowCharging arrow d g) = 150)
  /\ 0 <= now g - chargeStartTime g
  /\ launchPower (handle Frame g)
     = 20 + (150 - 20) * chargeRatio (now g - chargeStartTime g).
Proof.
  intros Hr Hph Hd Hdd'. rewrite !updateArrowCharging_power. unfold powerAfter.
  pose proof (chargeRatio_range d Hd) as Hrange.
  pose proof (chargeRatio_mono d d' Hdd') as Hmono.
  pose proof (reachable_Inv _ Hr) as HI.
  unfold MIN_LAUNCH_FORCE, MAX_LAUNCH_FORCE.
  split.
  { unfold chargeRatio, MAX_CHARGE_TIME. f_equal. lra. }
  split; [exact Hrange |]. split; [reflexivity |].
  split; [lra |]. split; [lra |].
  split; [intros Hs; rewrite (chargeRatio_saturated d Hs); lra |].
  split; [pose proof (inv_clock _ HI); lra |].
  unfold handle, renderLoop. rewrite Hph.
  destruct (inv_arrow _ HI) as [a ->]. reflexivity.
Qed.

Lemma C2_charge_ramp_witness :
  launchPower (updateArrowCharging CreateCylinder 2000 sampleCharging) = 150.
Proof.
  assert (H1 : 0 <= 2000) by lra.
  assert (H2 : 2000 <= 2000) by lra.
  assert (H3 : 1500 <= 2000) by lra.
  exact (proj1 (proj2 (proj2 (proj2 (proj2 (proj2
           (C2_charge_ramp sampleCharging CreateCylinder 2000 2000
              sampleCharging_reachable sampleCharging_state H1 H2)))))) H3).
Defined.

Lemma launchDirection_eq (g : Game) :
  launchDirection g
  = mkVector3 (- sin (currentAimAngle g)) 0 (cos (currentAimAngle g)).
Proof. unfold launchDirection. apply normalize_aim_vector. Qed.

Lemma launchDirection_length (g : Game) : BABYLON.length (launchDirection g) = 1.
Proof. rewrite launchDirection_eq. apply aim_vector_length. Qed.

Lemma keyup_space_ball (g : Game) (ball : Mesh) (imp : PhysicsImpostor) :
  currentGameState g = CHARGING ->
  bowlingBall g = Some ball -> physicsImpostor ball = Some imp ->
  bowlingBall (keyup Space g)
  = Some (set_physicsImpostor
            (Some (applyImpulse (scale (launchDirection g) (launchPower g))
                                (position ball) (wakeUp imp))) ball).
Proof.
  intros Hph Hb Hi. unfold keyup. rewrite Hph.
  destruct g as [b ps [a |] sc st F ph aim cs lp rt ts nid t lf ob];
    cbn in *; subst b; rewrite Hi; reflexivity.
Qed.

(** C3. When the launch key is released while Charging, the phase becomes
    Rolling; the launch direction is [normalize (-sin a, 0, cos a)] for the
    aim angle [a] held then, a unit vector with no vertical component; the
    impulse applied to the ball, at the ball's position, is that direction
    scaled by the current launch power, so its magnitude is the launch
    power; and for [a = 0] the direction is [(0, 0, 1)]. *)
Theorem C3_launch_impulse (g : Game) :
  reachable g -> currentGameState g = CHARGING ->
  let a := currentAimAngle g in
  let direction := launchDirection g in
  let impulse := scale direction (launchPower g) in
  currentGameState (handle (KeyUp Space) g) = BALL_ROLLING
  /\ direction = normalize (mkVector3 (- sin a) 0 (cos a))
  /\ BABYLON.length direction = 1
  /\ BABYLON.y direction = 0
  /\ (exists ball imp,
        bowlingBall g = Some ball /\ physicsImpostor ball = Some imp
        /\ bowlingBall (handle (KeyUp Space) g)
           = Some (set_physicsImpostor
                     (Some (applyImpulse impulse (position ball) (wakeUp imp))) ball))
  /\ BABYLON.length impulse = launchPower g
  /\ (a = 0 -> direction = mkVector3 0 0 1).
Proof.
  intros Hr Hph a direction impulse. pose proof (reachable_Inv _ Hr) as HI.
  split; [apply keyup_state; exact Hph |].
  change (handle (KeyUp Space) g) with (keyup Space g).
  split; [reflexivity |].
  split; [apply launchDirection_length |].
  split; [subst direction; rewrite launchDirection_eq; reflexivity |].
  split.
  { destruct (inv_ball _ HI) as (ball & imp & Hb & Hi).
    exists ball, imp. split; [exact Hb |]. split; [exact Hi |].
    apply keyup_space_ball; assumption. }
  split.
  { subst impulse direction. rewrite length_scale.
    - rewrite launchDirection_length. ring.
    - pose proof (inv_power _ HI) as Hp. unfold MIN_LAUNCH_FORCE in Hp. lra. }
  intros Ha. subst direction. rewrite launchDirection_eq. fold a. rewrite Ha.
  rewrite sin_0, cos_0, Ropp_0. reflexivity.
Qed.

Lemma C3_launch_impulse_witness :
  currentGameState (handle (KeyUp Space) sampleCharged) = BALL_ROLLING
  /\ BABYLON.length (scale (launchDirection sampleCharged) (launchPower sampleCharged))
     = launchPower sampleCharged.
Proof.
  pose proof (C3_launch_impulse sampleCharged sampleCharged_reachable sampleCharged_state)
    as H.
  cbv zeta in H. split; [apply H |]. apply H.
Defined.

(** ** The aim angle is frozen while Charging *)

Lemma charging_step_aim (e : Event) (g : Game) :
  currentGameState g = CHARGING ->
  currentGameState (handle e g) = CHARGING ->
  currentAimAngle (handle e g) = currentAimAngle g.
Proof.
  intros Hph Hph'.
  destruct e as [dt | ballR pinR | | k | k | id |].
  - reflexivity.
  - reflexivity.
  - unfold handle, renderLoop. rewrite Hph.
    destruct (directionArrow g); reflexivity.
  - change (handle (KeyDown k) g) with (keydown k g). unfold keydown.
    rewrite Hph. destruct k; reflexivity.
  - destruct k.
    + rewrite keyup_state in Hph' by exact Hph. discriminate.
    + unfold handle, keyup in Hph'. rewrite Hph in Hph'.
      rewrite resetGame_state in Hph'. discriminate.
    + reflexivity.
  - unfold handle in *.
    destruct (fireTimeout_cases id g) as [-> | (t & _ & _ & _ & _ & E)]; [reflexivity |].
    rewrite E in *. destruct (callback t).
    + rewrite runCallback_settle_state in Hph'. discriminate.
    + unfold runCallback.
      change (currentGameState (clearTimeout id g)) with (currentGameState g).
      rewrite Hph. reflexivity.
  - rewrite notifyOnReady_state, Hph in Hph'.
    pose proof (notifyOnReady_fields g) as F. cbv zeta in F.
    destruct F as (_ & _ & _ & _ & _ & -> & _). reflexivity.
Qed.

Lemma staysCharging_aim (es : list Event) (g : Game) :
  staysCharging es g ->
  currentGameState (run es g) = CHARGING
  /\ currentAimAngle (run es g) = currentAimAngle g.
Proof.
  revert g. induction es as [| e es IH]; intros g [Hph Hrest].
  - split; [exact Hph | reflexivity].
  - assert (Hph' : currentGameState (handle e g) = CHARGING) by (destruct es; apply Hrest).
    destruct (IH (handle e g) Hrest) as (H2 & H3).
    rewrite run_cons. split; [exact H2 |]. rewrite H3.
    apply charging_step_aim; assumption.
Qed.

Lemma keydown_aim (k : Key) (g : Game) :
  currentAimAngle (keydown k g) = currentAimAngle g.
Proof.
  unfold keydown. destruct k; try reflexivity.
  destruct (currentGameState g); try reflexivity.
  cbn [directionArrow set_chargeStartTime set_currentGameState].
  destruct (directionArrow g); reflexivity.
Qed.

(** C6. A frame drawn while Aiming sets the aim angle to
    [sin (t * 1.5) * (PI / 6)] for the absolute time [t] in seconds, a value
    in [-PI/6, PI/6]; a frame drawn while Charging or Rolling leaves the aim
    angle as it is; and however long the run of events during which the game
    stays Charging, the launch direction at its end is built from the aim
    angle held when the launch key was pressed. *)
Theorem C6_aim_oscillator (g : Game) (es : list Event) :
  reachable g ->
  (currentGameState g = AIMING ->
     currentAimAngle (handle Frame g) = sin (now g / 1000 * 1.5) * (PI / 6)
     /\ - (PI / 6) <= currentAimAngle (handle Frame g) <= PI / 6)
  /\ (currentGameState g = CHARGING \/ currentGameState g = BALL_ROLLING ->
      currentAimAngle (handle Frame g) = currentAimAngle g)
  /\ (currentGameState g = AIMING ->
      staysCharging es (handle (KeyDown Space) g) ->
      launchDirection (run es (handle (KeyDown Space) g))
      = normalize (mkVector3 (- sin (currentAimAngle g)) 0 (cos (currentAimAngle g)))).
Proof.
  intros Hr. pose proof (reachable_Inv _ Hr) as HI.
  split; [| split].
  - intros Hph. unfold handle, renderLoop. rewrite Hph.
    destruct (inv_arrow _ HI) as [a ->].
    cbn [stateOf updateArrowAiming currentAimAngle set_currentAimAngle set_directionArrow].
    replace (now g / 1000.0) with (now g / 1000) by lra.
    split; [reflexivity |]. apply aim_range.
  - intros [Hph | Hph].
    + unfold handle, renderLoop. rewrite Hph. destruct (directionArrow g); reflexivity.
    + apply (renderLoop_rolling_scoring g Hph).
  - intros Hph Hstay.
    destruct (staysCharging_aim es _ Hstay) as (_ & Haim).
    unfold launchDirection. rewrite Haim.
    change (handle (KeyDown Space) g) with (keydown Space g).
    rewrite keydown_aim. reflexivity.
Qed.

Lemma C6_sample_stays :
  staysCharging [Elapse ms1500; Frame] (handle (KeyDown Space) sampleAiming).
Proof.
  pose proof sampleCharging_state as H1.
  pose proof sampleCharged_state as H2.
  cbn [staysCharging]. rewrite elapse_state.
  split; [exact H1 |]. split; [exact H1 |]. split; [exact H2 | exact I].
Qed.

Lemma C6_aim_oscillator_witness :
  currentAimAngle (handle Frame sampleAiming)
  = sin (now sampleAiming / 1000 * 1.5) * (PI / 6)
  /\ launchDirection (run [Elapse ms1500; Frame] (handle (KeyDown Space) sampleAiming))
     = normalize (mkVector3 (- sin (currentAimAngle sampleAiming)) 0
                            (cos (currentAimAngle sampleAiming))).
Proof.
  pose proof (C6_aim_oscillator sampleAiming [Elapse ms1500; Frame]
                sampleAiming_reachable) as (H1 & _ & H3).
  split.
  - apply (H1 sampleAiming_state).
  - apply (H3 sampleAiming_state C6_sample_stays).
Defined.

(** ** The fallen set and the score, event by event *)

Lemma fallen_size_bound (g : Game) :
  Inv g -> (size (fallenPinIndicesThisThrow g) <= 10)%nat.
Proof.
  intros HI.
  rewrite <- (size_set_seq (C := gset nat) 0 10).
  apply subseteq_size. intros i Hi. apply elem_of_set_seq.
  pose proof (inv_fallen _ HI i Hi). lia.
Qed.

Lemma fullReset_startsThrow (e : Event) (g : Game) :
  fullReset e g = true -> startsThrow e g = true.
Proof. intros H. unfold startsThrow. rewrite H. reflexivity. Qed.

Lemma resetKey_rolling (g : Game) :
  currentGameState g = BALL_ROLLING -> fullReset (KeyUp KeyR) g = true.
Proof. intros H. unfold fullReset. rewrite H. reflexivity. Qed.

(** C4. In every reachable state the fallen set holds at most 10 indices.
    The scoring pass only adds indices. An event that starts a new throw
    (the settle reset coming due, or the reset key released outside
    Resetting) empties the set and enters Resetting; every other event keeps
    all the indices the set holds. Both reset routines leave the set empty,
    whatever the state they run in. *)
Theorem C4_fallen_set (g : Game) (e : Event) :
  reachable g ->
  let F := fallenPinIndicesThisThrow g in
  let F' := fallenPinIndicesThisThrow (handle e g) in
  (size F <= 10)%nat
  /\ F ⊆ fallenPinIndicesThisThrow (checkFallenPins g)
  /\ (startsThrow e g = false -> F ⊆ F')
  /\ (startsThrow e g = true -> F' = ∅ /\ currentGameState (handle e g) = RESETTING)
  /\ (forall h, fallenPinIndicesThisThrow (resetForNextThrow h) = ∅)
  /\ (forall h, fallenPinIndicesThisThrow (resetGame h) = ∅).
Proof.
  intros Hr F F'. pose proof (reachable_Inv _ Hr) as HI.
  split; [apply fallen_size_bound; exact HI |].
  split.
  { destruct (checkFallenPins_spec g) as (_ & -> & _). set_solver. }
  pose proof (step_scoring e g) as Hstep. cbv zeta in Hstep. unfold startsThrow in *.
  split; [| split; [| split]].
  - intros Hno. subst F F'.
    destruct Hstep as [(Hf & _) | [(_ & Hs & _) | [(_ & _ & _ & -> & _) | (_ & _ & -> & _)]]].
    + rewrite Hf in Hno. discriminate.
    + rewrite Hs, orb_true_r in Hno. discriminate.
    + set_solver.
    + reflexivity.
  - intros Hyes. subst F F'.
    destruct Hstep as [(_ & HF & _ & Hph) | [(_ & _ & HF & _ & Hph) | [(Hno & _) | (Hno & _)]]].
    + split; assumption.
    + split; assumption.
    + rewrite Hno in Hyes. discriminate.
    + rewrite Hno in Hyes. discriminate.
  - intros h. pose proof (resetForNextThrow_fields h) as Fd. cbv zeta in Fd. tauto.
  - intros h. apply resetGame_scoring.
Qed.

Lemma C4_fallen_set_witness :
  fallenPinIndicesThisThrow sampleScored = {[ 0%nat ]}
  /\ (size (fallenPinIndicesThisThrow sampleScored) <= 10)%nat
  /\ fallenPinIndicesThisThrow sampleScored
     ⊆ fallenPinIndicesThisThrow (handle Frame sampleScored)
  /\ fallenPinIndicesThisThrow (handle (KeyUp KeyR) sampleScored) = ∅
  /\ fallenPinIndicesThisThrow (resetForNextThrow sampleScored) = ∅.
Proof.
  destruct sampleScored_facts as (Hph & _ & HF).
  pose proof (C4_fallen_set sampleScored Frame (proj1 sampleScored_ok)) as H1.
  pose proof (C4_fallen_set sampleScored (KeyUp KeyR) (proj1 sampleScored_ok)) as H2.
  cbv zeta in H1, H2.
  destruct H1 as (Hsize & _ & Hkeep & _ & Hreset & _).
  destruct H2 as (_ & _ & _ & Hclear & _).
  split; [exact HF |]. split; [exact Hsize |].
  split; [exact (Hkeep (startsThrow_frame _)) |].
  split; [| exact (Hreset _)].
  exact (proj1 (Hclear (fullReset_startsThrow _ _ (resetKey_rolling _ Hph)))).
Defined.

(** C5. The score is never negative. The reset key released outside
    Resetting sets it to zero; every other event adds to it exactly the
    number of indices that event adds to the fallen set (so it cannot
    decrease), and leaves it unchanged unless the event is a frame drawn
    while Rolling. The per-throw reset keeps the score and the full reset
    zeroes it, whatever the state they run in. *)
Theorem C5_score (g : Game) (e : Event) :
  reachable g ->
  let F := fallenPinIndicesThisThrow g in
  let F' := fallenPinIndicesThisThrow (handle e g) in
  (0 <= score g)%Z
  /\ (fullReset e g = true -> score (handle e g) = 0%Z)
  /\ (fullReset e g = false ->
      score (handle e g) = (score g + Z.of_nat (size (F' ∖ F)))%Z
      /\ (score g <= score (handle e g))%Z
      /\ (~ (e = Frame /\ currentGameState g = BALL_ROLLING) ->
          score (handle e g) = score g))
  /\ ((score (handle e g) < score g)%Z -> fullReset e g = true)
  /\ (forall h, score (resetForNextThrow h) = score h)
  /\ (forall h, score (resetGame h) = 0%Z).
Proof.
  intros Hr F F'. pose proof (reachable_Inv _ Hr) as HI.
  pose proof (inv_score _ HI) as Hpos.
  pose proof (step_scoring e g) as Hstep. cbv zeta in Hstep. unfold startsThrow in *.
  assert (Hnf : fullReset e g = false ->
                score (handle e g) = (score g + Z.of_nat (size (F' ∖ F)))%Z
                /\ (~ (e = Frame /\ currentGameState g = BALL_ROLLING) ->
                    score (handle e g) = score g)).
  { intros Hno. subst F F'.
    destruct Hstep as [(Hf & _) | [(_ & _ & HF & Hsc & _)
                      | [(_ & He & Hph & HF & Hsc) | (_ & _ & HF & Hsc)]]].
    - rewrite Hf in Hno. discriminate.
    - rewrite HF, Hsc.
      replace (∅ ∖ fallenPinIndicesThisThrow g) with (∅ : gset nat) by set_solver.
      rewrite size_empty. split; [lia | reflexivity].
    - rewrite HF, Hsc, newlyFallenPins_disjoint.
      split; [reflexivity |]. intros Hn. exfalso. apply Hn. split; assumption.
    - rewrite HF, Hsc.
      replace (fallenPinIndicesThisThrow g ∖ fallenPinIndicesThisThrow g)
        with (∅ : gset nat) by set_solver.
      rewrite size_empty. split; [lia | reflexivity]. }
  split; [exact Hpos |].
  split.
  { intros Hyes.
    destruct Hstep as [(_ & _ & Hsc & _) | [(Hno & _) | [(Hno & _) | (Hno & _)]]];
      [exact Hsc | | |].
    - rewrite Hno in Hyes. discriminate.
    - rewrite Hyes in Hno. discriminate.
    - rewrite Hyes in Hno. discriminate. }
  split.
  { intros Hno. destruct (Hnf Hno) as [H1 H2].
    split; [exact H1 |]. split; [lia | exact H2]. }
  split.
  { intros Hlt. destruct (fullReset e g) eqn:Hf; [reflexivity |].
    destruct (Hnf eq_refl) as [H1 _]. lia. }
  split.
  - intros h. pose proof (resetForNextThrow_fields h) as Fd. cbv zeta in Fd. tauto.
  - intros h. apply resetGame_scoring.
Qed.

Lemma C5_score_witness :
  score sampleFalling = 0%Z
  /\ score (handle Frame sampleFalling) = 1%Z
  /\ (score sampleScored <= score (handle Frame sampleScored))%Z
  /\ score (resetForNextThrow sampleScored) = 1%Z
  /\ score (handle (KeyUp KeyR) sampleScored) = 0%Z.
Proof.
  destruct sampleScored_facts as (Hph & Hs & _).
  destruct sampleFalling_facts as (_ & Hs0 & _).
  pose proof (C5_score sampleScored Frame (proj1 sampleScored_ok)) as H1.
  pose proof (C5_score sampleScored (KeyUp KeyR) (proj1 sampleScored_ok)) as H2.
  cbv zeta in H1, H2.
  destruct H1 as (_ & _ & Hinc & _ & Hkeep & _).
  destruct H2 as (_ & Hzero & _).
  split; [exact Hs0 |]. split; [exact Hs |].
  split; [exact (proj1 (proj2 (Hinc eq_refl))) |].
  split; [rewrite (Hkeep _); exact Hs |].
  exact (Hzero (resetKey_rolling _ Hph)).
Defined.

(** ** The settle detector *)

Lemma isBallStopped_ext (g h : Game) :
  bowlingBall h = bowlingBall g -> isBallStopped h = isBallStopped g.
Proof. intros H. unfold isBallStopped. rewrite H. reflexivity. Qed.



(** While Rolling, a frame is the settle step run on a state that agrees
    with the frame's input on the ball, the queue, the metadata and the
    clock. *)
Lemma renderLoop_settle_view (g : Game) :
  currentGameState g = BALL_ROLLING ->
  exists g1, renderLoop g = settleStep g1
             /\ isBallStopped g1 = isBallStopped g
             /\ resetTimer g1 = resetTimer g /\ timers g1 = timers g
             /\ nextTimerId g1 = nextTimerId g /\ now g1 = now g
             /\ metadata g1 = metadata g.
Proof.
  intros Hph. exists (checkFallenPins (hideArrow g)).
  split; [apply renderLoop_rolling; exact Hph |].
  pose proof (settle_input g) as F. cbv zeta in F.
  destruct F as (_ & _ & _ & _ & _ & _ & Em & Ert & Ets & Enid & Enow & _ & _ & Est).
  repeat split; assumption.
Qed.

(** A frame that finds the ball stopped with no reset recorded, while the
    metadata is there and nothing is pending, schedules exactly one settle
    reset, 500 ms ahead, and records it. *)
Lemma frame_schedules (g : Game) :
  metadata g <> None -> currentGameState g = BALL_ROLLING ->
  truthy (isBallStopped g) = true -> resetTimer g = None -> timers g = [] ->
  renderLoop g = Normal (handle Frame g)
  /\ timers (handle Frame g) = [mkTimer (nextTimerId g) (now g + SETTLE_DELAY) SettleReset]
  /\ resetTimer (handle Frame g) = Some (nextTimerId g)
  /\ nextTimerId (handle Frame g) = S (nextTimerId g)
  /\ now (handle Frame g) = now g.
Proof.
  intros Hm Hph Hyes Hnone Hts. unfold handle.
  destruct (renderLoop_settle_view g Hph)
    as (g1 & -> & Hstop & Ert & Ets & Enid & Enow & Em).
  unfold settleStep. rewrite Hstop, Hyes, Ert, Hnone, Em.
  cbn [timer_truthy negb].
  destruct (metadata g) as [m |]; [| contradiction].
  cbn [stateOf scheduled setTimeout snd set_metadata set_nextTimerId set_timers
       timers nextTimerId now resetTimer metadata md_resetTimer].
  rewrite Ets, Hts, Enid, Enow. repeat split; reflexivity.
Qed.



Lemma renderLoop_state (g : Game) :
  currentGameState (handle Frame g) = currentGameState g.
Proof.
  destruct (currentGameState g) eqn:Hph.
  - unfold handle, renderLoop. rewrite Hph. destruct (directionArrow g); exact Hph.
  - unfold handle, renderLoop. rewrite Hph. destruct (directionArrow g); exact Hph.
  - destruct (renderLoop_rolling_scoring g Hph) as (_ & _ & _ & H & _). exact H.
  - unfold handle, renderLoop. rewrite Hph. exact Hph.
  - unfold handle, renderLoop. rewrite Hph. exact Hph.
Qed.

Lemma renderLoop_rolling_ball (g : Game) :
  currentGameState g = BALL_ROLLING -> bowlingBall (handle Frame g) = bowlingBall g.
Proof.
  intros Hph. unfold handle. rewrite renderLoop_rolling by exact Hph.
  pose proof (settleStep_fields (checkFallenPins (hideArrow g))) as F. cbv zeta in F.
  destruct F as (-> & _).
  pose proof (settle_input g) as F. cbv zeta in F. apply F.
Qed.

(** ** The stopped ball of the sample run *)

Lemma physics_ball (ballR : BodyReading) (pinR : nat -> BodyReading) (g : Game)
    (ball : Mesh) (imp : PhysicsImpostor) :
  bowlingBall g = Some ball -> physicsImpostor ball = Some imp ->
  bowlingBall (handle (Physics ballR pinR) g)
  = Some (mkMesh (r_position ballR) (r_up ballR)
            (Some (mkImpostor (r_linearVelocity ballR) (r_angularVelocity ballR)
                              (awake imp) []))).
Proof.
  intros Hb Hi. unfold handle, physicsStep. cbn [bowlingBall set_pins set_bowlingBall].
  rewrite Hb. cbn [option_map]. unfold integrate. rewrite Hi. reflexivity.
Qed.


Lemma sampleStopped_ok : reachable sampleStopped /\ Orderly sampleStopped.
Proof. apply reachable_Orderly_step. exact sampleRolling_ok. Qed.

Lemma sampleStopped_facts :
  currentGameState sampleStopped = BALL_ROLLING
  /\ truthy (isBallStopped sampleStopped) = true
  /\ resetTimer sampleStopped = None /\ timers sampleStopped = []
  /\ metadata sampleStopped <> None
  /\ exists imp, bowlingBall sampleStopped
                 = Some (mkMesh (mkVector3 0 BALL_START_Y 18) Axis_Y
                           (Some (mkImpostor (Some (mkVector3 0 0 0.1)) (Some Vector3_Zero)
                                             (awake imp) []))).
Proof.
  pose proof (physics_fields restReading (fun _ => restReading) sampleRolling) as F.
  cbv zeta in F. destruct F as (Hph & Hrt & _ & _ & Hts & _).
  destruct sampleRolling_queue as [Hrt0 Hts0].
  pose proof (inv_ball _ (reachable_Inv _ sampleRolling_reachable)) as Hb.
  split; [rewrite Hph; exact sampleRolling_state |].
  split; [apply restReading_stopped; exact Hb |].
  split; [rewrite Hrt; exact Hrt0 |]. split; [rewrite Hts; exact Hts0 |].
  split; [apply (ord_metadata _ (proj2 sampleStopped_ok)) |].
  destruct Hb as (ball & imp & Hball & Himp). exists imp.
  apply (physics_ball restReading (fun _ => restReading) _ ball imp Hball Himp).
Qed.

Lemma sampleScheduled_ok : reachable sampleScheduled /\ Orderly sampleScheduled.
Proof. apply reachable_Orderly_step. exact sampleStopped_ok. Qed.

Lemma sampleScheduled_facts :
  currentGameState sampleScheduled = BALL_ROLLING
  /\ timers sampleScheduled
     = [mkTimer (nextTimerId sampleStopped) (now sampleStopped + SETTLE_DELAY) SettleReset]
  /\ resetTimer sampleScheduled = Some (nextTimerId sampleStopped)
  /\ now sampleScheduled = now sampleStopped
  /\ bowlingBall sampleScheduled = bowlingBall sampleStopped.
Proof.
  destruct sampleStopped_facts as (Hph & Hyes & Hrt & Hts & Hm & _).
  destruct (frame_schedules _ Hm Hph Hyes Hrt Hts) as (_ & H1 & H2 & _ & H3).
  split; [rewrite renderLoop_state; exact Hph |].
  split; [exact H1 |]. split; [exact H2 |]. split; [exact H3 |].
  apply renderLoop_rolling_ball. exact Hph.
Qed.

(** ** The per-throw reset *)

Lemma clearTimeout_fields_all (id : nat) (g : Game) :
  bowlingBall (clearTimeout id g) = bowlingBall g.
Proof. reflexivity. Qed.

Lemma find_fresh (l : list Timer) (t : Timer) :
  (forall t', In t' l -> timer_id t' <> timer_id t) ->
  List.find (fun t' => Nat.eqb (timer_id t') (timer_id t)) (l ++ [t]) = Some t.
Proof.
  induction l as [| a l IH]; intros H; cbn [app List.find].
  - rewrite Nat.eqb_refl. reflexivity.
  - destruct (Nat.eqb (timer_id a) (timer_id t)) eqn:E.
    + apply Nat.eqb_eq in E. exfalso. apply (H a); [left; reflexivity | exact E].
    + apply IH. intros t' Ht'. apply H. right. exact Ht'.
Qed.

(** A due settle reset runs [resetForNextThrow] on the state from which the
    host has removed the fired timer, and then clears the recorded
    handle. *)
Lemma settleDue_fires (id : nat) (g : Game) :
  settleDue (Timeout id) g = true ->
  handle (Timeout id) g = set_resetTimer None (resetForNextThrow (clearTimeout id g)).
Proof.
  unfold settleDue, handle, fireTimeout.
  destruct (List.find (fun t => Nat.eqb (timer_id t) id) (timers g)) as [t |];
    [| discriminate].
  destruct (callback t); [| discriminate].
  destruct (number_le_dec (deadline t) (now g)); [reflexivity | discriminate].
Qed.

(** The callback the per-throw reset schedules, fired alone. *)
Lemma toAiming_fires (g : Game) (dt : nonnegreal) :
  (forall t, In t (timers g) -> timer_id t <> nextTimerId g) ->
  let g' := handle (Elapse dt) (resetForNextThrow g) in
  (AIMING_DELAY <= nonneg dt ->
   currentGameState (handle (Timeout (nextTimerId g)) g') = AIMING)
  /\ (nonneg dt < AIMING_DELAY -> handle (Timeout (nextTimerId g)) g' = g').
Proof.
  intros Hfresh. cbv zeta.
  pose proof (resetForNextThrow_fields g) as F. cbv zeta in F.
  revert F. generalize (resetForNextThrow g). intros g' F.
  destruct F as (_ & _ & _ & _ & Hph & _ & _ & _ & _ & Ht & _ & Hnow & _).
  set (t := mkTimer (nextTimerId g) (now g + AIMING_DELAY) ToAiming) in *.
  assert (Hfind : List.find (fun t' => Nat.eqb (timer_id t') (nextTimerId g))
                            (timers (handle (Elapse dt) g')) = Some t).
  { cbn [handle timers set_now]. rewrite Ht. apply (find_fresh (timers g) t). exact Hfresh. }
  unfold handle at 1 3. unfold fireTimeout. rewrite Hfind.
  cbn [deadline t handle now set_now callback]. rewrite Hnow.
  split; intros Hdt.
  - destruct (number_le_dec (now g + AIMING_DELAY) (now g + nonneg dt)); [| lra].
    unfold runCallback. cbn [clearTimeout set_timers set_now currentGameState].
    rewrite Hph. reflexivity.
  - destruct (number_le_dec (now g + AIMING_DELAY) (now g + nonneg dt)); [lra |].
    reflexivity.
Qed.

(** C7. Whatever the state it runs in, the per-throw reset zeroes the linear
    and angular velocity of the ball's physics body, puts the ball at its
    start position and the aim indicator at its start pose, empties the
    fallen set, restores the minimum launch power and a zero aim angle,
    enters Resetting and schedules one callback, 100 ms ahead, under the
    next handle; that callback, fired after 100 ms or more, enters Aiming,
    and does nothing earlier. The score and the pin array (each pin's
    presence, position, orientation and physics body) are as before. The
    settle callback runs it in this way: in a reachable state with a settle
    reset due, the ball, its body and the indicator exist, and the handle
    of the new callback is not in use. *)
Theorem C7_resetForNextThrow (g g0 : Game) (id : nat) (dt : nonnegreal) :
  let g' := resetForNextThrow g in
  (forall ball, bowlingBall g = Some ball ->
     exists ball', bowlingBall g' = Some ball'
       /\ position ball' = BALL_START_POS
       /\ (forall imp, physicsImpostor ball = Some imp ->
             exists imp', physicsImpostor ball' = Some imp'
               /\ linearVelocity imp' = Some Vector3_Zero
               /\ angularVelocity imp' = Some Vector3_Zero))
  /\ (forall arrow, directionArrow g = Some arrow ->
        exists arrow', directionArrow g' = Some arrow'
          /\ arrow_position arrow' = arrowStartPosition
          /\ rotation_z arrow' = 0 /\ scaling_y arrow' = ARROW_LENGTH_MIN
          /\ isVisible arrow' = true)
  /\ fallenPinIndicesThisThrow g' = ∅
  /\ launchPower g' = MIN_LAUNCH_FORCE
  /\ currentAimAngle g' = 0
  /\ currentGameState g' = RESETTING
  /\ timers g' = timers g ++ [mkTimer (nextTimerId g) (now g + 100) ToAiming]
  /\ score g' = score g
  /\ pins g' = pins g
  /\ ((forall t, In t (timers g) -> timer_id t <> nextTimerId g) ->
      (100 <= nonneg dt ->
       currentGameState (handle (Timeout (nextTimerId g)) (handle (Elapse dt) g')) = AIMING)
      /\ (nonneg dt < 100 ->
          handle (Timeout (nextTimerId g)) (handle (Elapse dt) g') = handle (Elapse dt) g'))
  /\ (reachable g0 -> settleDue (Timeout id) g0 = true ->
      handle (Timeout id) g0
      = set_resetTimer None (resetForNextThrow (clearTimeout id g0))
      /\ (exists ball imp, bowlingBall (clearTimeout id g0) = Some ball
                           /\ physicsImpostor ball = Some imp)
      /\ (exists arrow, directionArrow (clearTimeout id g0) = Some arrow)
      /\ (forall t, In t (timers (clearTimeout id g0)) ->
            timer_id t <> nextTimerId (clearTimeout id g0))).
Proof.
  cbv zeta.
  pose proof (toAiming_fires g dt) as Hfire. cbv zeta in Hfire.
  pose proof (resetForNextThrow_fields g) as F. cbv zeta in F.
  revert F Hfire. generalize (resetForNextThrow g). intros g' F Hfire.
  destruct F as (Hp & Hs & _ & Hf & Hph & Haim & Hlp & Hcs & Hrt & Ht & Hn & Hnow
                 & Hball & Harr & _).
  split.
  { intros ball Hb. rewrite Hb in Hball. cbn [option_map] in Hball.
    eexists. split; [exact Hball |]. split; [reflexivity |].
    intros imp Hi. cbn [physicsImpostor]. rewrite Hi. cbn [option_map].
    eexists. split; [reflexivity |]. split; reflexivity. }
  split.
  { intros arrow Ha. rewrite Ha in Harr. cbn [option_map] in Harr.
    eexists. split; [exact Harr |]. repeat split; reflexivity. }
  split; [exact Hf |]. split; [exact Hlp |]. split; [exact Haim |].
  split; [exact Hph |]. split; [exact Ht |]. split; [exact Hs |]. split; [exact Hp |].
  split; [exact Hfire |].
  intros Hr Hdue. pose proof (reachable_Inv _ Hr) as HI.
  pose proof (reachable_Queue _ Hr) as [(Hids & _) _].
  split; [apply settleDue_fires; exact Hdue |].
  split; [apply (inv_ball _ HI) |]. split; [apply (inv_arrow _ HI) |].
  intros t Hin. apply clearTimeout_In_iff in Hin. destruct Hin as [Hin _].
  specialize (Hids t Hin). cbn [clearTimeout nextTimerId set_timers]. lia.
Qed.

Lemma settleDue_single (g : Game) (id : nat) (d : R) :
  timers g = [mkTimer id d SettleReset] -> d <= now g ->
  settleDue (Timeout id) g = true.
Proof.
  intros Hts Hdue. unfold settleDue. rewrite Hts. cbn [List.find timer_id].
  rewrite Nat.eqb_refl. cbn [callback deadline].
  destruct (number_le_dec d (now g)); [reflexivity | contradiction].
Qed.

Lemma sampleDue_ok : reachable sampleDue /\ Orderly sampleDue.
Proof. apply reachable_Orderly_step. exact sampleScheduled_ok. Qed.

Lemma sampleDue_facts :
  currentGameState sampleDue = BALL_ROLLING
  /\ settleDue (Timeout (nextTimerId sampleStopped)) sampleDue = true
  /\ resetTimer sampleDue = Some (nextTimerId sampleStopped)
  /\ exists imp, bowlingBall sampleDue
                 = Some (mkMesh (mkVector3 0 BALL_START_Y 18) Axis_Y
                           (Some (mkImpostor (Some (mkVector3 0 0 0.1)) (Some Vector3_Zero)
                                             (awake imp) []))).
Proof.
  destruct sampleScheduled_facts as (Hph & Hts & Hrt & Hnow & Hb).
  destruct sampleStopped_facts as (_ & _ & _ & _ & _ & imp & Hball).
  pose proof (elapse_fields ms500 sampleScheduled) as F. cbv zeta in F.
  destruct F as (Eph & Ets & Enow & _ & _ & Ert & _ & _ & Eb & _).
  split; [rewrite Eph; exact Hph |].
  split.
  { apply (settleDue_single sampleDue (nextTimerId sampleStopped)
             (now sampleStopped + SETTLE_DELAY)).
    - rewrite Ets. exact Hts.
    - rewrite Enow, Hnow. cbn [nonneg ms500]. unfold SETTLE_DELAY. lra. }
  split; [rewrite Ert; exact Hrt |].
  exists imp. rewrite Eb, Hb. exact Hball.
Qed.

Lemma C7_resetForNextThrow_witness :
  (exists imp, bowlingBall (clearTimeout (nextTimerId sampleStopped) sampleDue)
               = Some (mkMesh (mkVector3 0 BALL_START_Y 18) Axis_Y
                         (Some (mkImpostor (Some (mkVector3 0 0 0.1)) (Some Vector3_Zero)
                                           (awake imp) []))))
  /\ (exists ball' imp',
        bowlingBall (resetForNextThrow (clearTimeout (nextTimerId sampleStopped) sampleDue))
        = Some ball'
        /\ position ball' = BALL_START_POS
        /\ physicsImpostor ball' = Some imp'
        /\ linearVelocity imp' = Some Vector3_Zero
        /\ angularVelocity imp' = Some Vector3_Zero)
  /\ handle (Timeout (nextTimerId sampleStopped)) sampleDue
     = set_resetTimer None
         (resetForNextThrow (clearTimeout (nextTimerId sampleStopped) sampleDue)).
Proof.
  destruct sampleDue_facts as (_ & Hdue & _ & imp & Hb).
  pose proof (C7_resetForNextThrow (clearTimeout (nextTimerId sampleStopped) sampleDue)
                sampleDue (nextTimerId sampleStopped) ms100) as H.
  cbv zeta in H. destruct H as (Hball & _ & _ & _ & _ & _ & _ & _ & _ & _ & Hsite).
  destruct (Hsite (proj1 sampleDue_ok) Hdue) as (Hrun & _).
  assert (Hb' : bowlingBall (clearTimeout (nextTimerId sampleStopped) sampleDue)
                = bowlingBall sampleDue) by apply clearTimeout_fields_all.
  split; [exists imp; rewrite Hb'; exact Hb |].
  split; [| exact Hrun].
  rewrite <- Hb' in Hb. destruct (Hball _ Hb) as (ball' & E1 & E2 & E3).
  destruct (E3 _ eq_refl) as (imp' & E4 & E5 & E6).
  exists ball', imp'. repeat split; assumption.
Defined.

(** ** Pending callbacks, event by event *)

Lemma elapsed_nonneg (es : list Event) : 0 <= elapsed es.
Proof.
  induction es as [| e es IH]; cbn [elapsed]; [lra |].
  destruct e; try exact IH. pose proof (cond_nonneg dt). lra.
Qed.

Lemma resetForNextThrow_timers (g : Game) (t : Timer) :
  now (resetForNextThrow g) = now g
  /\ nextTimerId (resetForNextThrow g) = S (nextTimerId g)
  /\ (In t (timers (resetForNextThrow g)) ->
      In t (timers g)
      \/ (timer_id t = nextTimerId g /\ deadline t = now g + delayOf (callback t))).
Proof.
  pose proof (resetForNextThrow_fields g) as F. cbv zeta in F.
  revert F. generalize (resetForNextThrow g). intros g' F.
  destruct F as (_ & _ & _ & _ & _ & _ & _ & _ & _ & Ht & Hn & Hnow & _).
  split; [exact Hnow |]. split; [exact Hn |]. rewrite Ht. intros H. apply in_app_or in H.
  destruct H as [H | [<- | []]]; [left; exact H | right; split; reflexivity].
Qed.

Lemma resetGame_timers (g : Game) (t : Timer) :
  now (resetGame g) = now g
  /\ nextTimerId (resetGame g) = S (nextTimerId g)
  /\ (In t (timers (resetGame g)) ->
      In t (timers g)
      \/ (timer_id t = nextTimerId g /\ deadline t = now g + delayOf (callback t))).
Proof.
  rewrite resetGame_rebuilt.
  destruct (resetForNextThrow_timers (rebuilt g) t) as (Hnow & Hn & Hin).
  destruct (rebuilt_fields g) as (_ & _ & _ & _ & _ & _ & Ets & En & Enow & _).
  rewrite Ets, Enow, En in *. repeat split; assumption.
Qed.

Lemma settleStep_timers (g : Game) (t : Timer) :
  (nextTimerId g <= nextTimerId (stateOf (settleStep g)))%nat
  /\ (In t (timers (stateOf (settleStep g))) ->
      In t (timers g)
      \/ (timer_id t = nextTimerId g /\ callback t = SettleReset
          /\ deadline t = now g + SETTLE_DELAY)).
Proof.
  unfold settleStep. destruct (truthy (isBallStopped g)).
  - destruct (negb (timer_truthy (resetTimer g)));
      [| cbn [stateOf]; split; [lia | left; assumption]].
    destruct (metadata g);
      cbn [stateOf scheduled setTimeout snd set_metadata set_nextTimerId set_timers timers
           nextTimerId];
      (split; [lia |]; intros H; apply in_app_or in H;
       destruct H as [H | [<- | []]]; [left; exact H | right; repeat split; reflexivity]).
  - destruct (resetTimer g) as [[| n] |]; cbn [stateOf];
      try (split; [lia | left; assumption]).
    pose proof (set_resetTimer_fields None (clearTimeout (S n) g)) as F. cbv zeta in F.
    destruct F as (_ & _ & _ & _ & _ & _ & _ & _ & _ & _ & -> & -> & _).
    split; [cbn; lia |]. intros H. left. apply clearTimeout_In_iff in H. apply H.
Qed.

(** One event moves the clock forward by the time it stands for, never
    lowers the next handle, and every callback pending after it either was
    pending before or has just been scheduled, under the next handle, with
    its delay. *)
Lemma timers_step (e : Event) (g : Game) (t : Timer) :
  now (handle e g) = now g + elapsed [e]
  /\ (nextTimerId g <= nextTimerId (handle e g))%nat
  /\ (In t (timers (handle e g)) ->
      In t (timers g)
      \/ (timer_id t = nextTimerId g
          /\ deadline t = now (handle e g) + delayOf (callback t))).
Proof.
  assert (Hsame : forall h, now h = now g -> nextTimerId h = nextTimerId g ->
                            timers h = timers g ->
                  now h = now g + 0
                  /\ (nextTimerId g <= nextTimerId h)%nat
                  /\ (In t (timers h) ->
                      In t (timers g)
                      \/ (timer_id t = nextTimerId g
                          /\ deadline t = now h + delayOf (callback t)))).
  { intros h E1 E2 E3. rewrite E1, E2, E3. split; [lra |]. split; [lia |]. tauto. }
  destruct e as [dt | ballR pinR | | k | k | id |]; cbn [elapsed].
  - split; [cbn [handle now set_now]; lra |]. split; [cbn; lia |]. intros H. left. exact H.
  - apply Hsame; reflexivity.
  - unfold handle. destruct (currentGameState g) eqn:Hph.
    + unfold renderLoop. rewrite Hph.
      destruct (directionArrow g); apply Hsame; reflexivity.
    + unfold renderLoop. rewrite Hph.
      destruct (directionArrow g); apply Hsame; reflexivity.
    + destruct (renderLoop_settle_view g Hph) as (g1 & -> & _ & _ & Ets & Enid & Enow & _).
      pose proof (settleStep_fields g1) as F. cbv zeta in F.
      destruct F as (_ & _ & _ & _ & _ & _ & _ & _ & _ & _ & En).
      destruct (settleStep_timers g1 t) as [Hle Hin].
      rewrite En, Enow. rewrite Enid in Hle. split; [lra |]. split; [exact Hle |].
      intros H. apply Hin in H. rewrite Ets, Enid, Enow in H.
      destruct H as [H | (H1 & H2 & H3)]; [left; exact H | right].
      split; [exact H1 |]. rewrite H2. exact H3.
    + unfold renderLoop. rewrite Hph. apply Hsame; reflexivity.
    + unfold renderLoop. rewrite Hph. apply Hsame; reflexivity.
  - unfold handle, keydown.
    destruct k; try (apply Hsame; reflexivity).
    destruct (currentGameState g); try (apply Hsame; reflexivity).
    cbn [directionArrow set_chargeStartTime set_currentGameState].
    destruct (directionArrow g); apply Hsame; reflexivity.
  - unfold handle. destruct k.
    + destruct (currentGameState g) eqn:Hph;
        try (unfold keyup; rewrite Hph; apply Hsame; reflexivity).
      pose proof (keyup_space_fields g Hph) as F. cbv zeta in F.
      change (keyup Space g) with (handle (KeyUp Space) g).
      apply Hsame; apply F.
    + unfold keyup. destruct (currentGameState g);
        try (apply Hsame; reflexivity);
        match goal with
        | |- context [resetGame ?h] =>
            pose proof (resetGame_timers h t) as Ht;
            assert (Eh : now h = now g /\ nextTimerId h = nextTimerId g
                         /\ (In t (timers h) -> In t (timers g)))
              by (destruct (resetTimer g) as [[| n] |];
                  try (repeat split; try reflexivity; intros H; exact H);
                  pose proof (set_resetTimer_fields None (clearTimeout (S n) g)) as F;
                  cbv zeta in F;
                  destruct F as (_ & _ & _ & _ & _ & _ & _ & _ & _ & _ & -> & -> & -> & _);
                  repeat split; try reflexivity;
                  intros H; apply clearTimeout_In_iff in H; apply H);
            destruct Eh as (Eh1 & Eh2 & Eh3); rewrite Eh1, Eh2 in Ht; revert Ht;
            generalize (resetGame h); intros g' (Hnow & Hn & Hin); rewrite Hnow, Hn;
            split; [lra |]; split; [lia |]; intros H;
            destruct (Hin H) as [H' | H']; [left; apply Eh3; exact H' | right; exact H']
        end.
    + apply Hsame; reflexivity.
  - unfold handle.
    destruct (fireTimeout_cases id g) as [-> | (tm & _ & _ & _ & _ & ->)];
      [apply Hsame; reflexivity |].
    destruct (callback tm); unfold runCallback.
    + destruct (resetForNextThrow_timers (clearTimeout id g) t) as (Hnow & Hn & Hin).
      pose proof (set_resetTimer_fields None (resetForNextThrow (clearTimeout id g))) as F.
      cbv zeta in F.
      destruct F as (_ & _ & _ & _ & _ & _ & _ & _ & _ & _ & -> & -> & -> & _).
      rewrite Hnow, Hn. cbn [clearTimeout now nextTimerId set_timers] in *.
      split; [lra |]. split; [lia |]. intros H.
      destruct (Hin H) as [H' | H']; [left | right; exact H'].
      apply filter_In in H'. apply H'.
    + change (currentGameState (clearTimeout id g)) with (currentGameState g).
      destruct (currentGameState g);
        (split; [cbn; lra |]; split; [cbn; lia |]; intros H; left;
         apply (clearTimeout_In_iff id g t); exact H).
  - pose proof (notifyOnReady_fields g) as F. cbv zeta in F.
    apply Hsame; apply F.
Qed.

Lemma reachable_deadlines (g : Game) : reachable g -> deadlines_ok g.
Proof.
  induction 1 as [| e g Hr IH].
  - intros t Hin. rewrite init_timers in Hin. destruct Hin as [<- | []].
    change (now init) with 0. cbn [deadline callback delayOf]. lra.
  - intros t Hin. destruct (timers_step e g t) as (Hnow & _ & Hstep).
    destruct (Hstep Hin) as [Hold | [_ Hnew]].
    + pose proof (IH t Hold). pose proof (elapsed_nonneg [e]). lra.
    + rewrite Hnew. apply Rle_refl.
Qed.


(** ** The grace period *)

Lemma keydown_other_state (k : Key) (g : Game) :
  (k <> Space \/ currentGameState g <> AIMING) -> keydown k g = g.
Proof.
  intros H. unfold keydown. destruct k; try reflexivity.
  destruct (currentGameState g); try reflexivity.
  destruct H as [H | H]; contradiction.
Qed.






Lemma settleDue_state (id : nat) (g : Game) :
  settleDue (Timeout id) g = true ->
  currentGameState (handle (Timeout id) g) = RESETTING.
Proof.
  intros H. rewrite (settleDue_fires id g H).
  pose proof (set_resetTimer_fields None (resetForNextThrow (clearTimeout id g))) as F.
  cbv zeta in F. destruct F as (_ & _ & _ & _ & _ & _ & -> & _).
  pose proof (resetForNextThrow_fields (clearTimeout id g)) as F. cbv zeta in F. tauto.
Qed.


Lemma sampleResumed_facts :
  currentGameState sampleResumed = BALL_ROLLING
  /\ truthy (isBallStopped sampleResumed) = false
  /\ now sampleResumed = now sampleScheduled + 100
  /\ timers sampleResumed
     = [mkTimer (nextTimerId sampleStopped) (now sampleStopped + SETTLE_DELAY) SettleReset]
  /\ resetTimer sampleResumed = Some (nextTimerId sampleStopped).
Proof.
  destruct sampleScheduled_facts as (Hph & Hts & Hrt & Hnow & _).
  pose proof (elapse_fields ms100 sampleScheduled) as F. cbv zeta in F.
  destruct F as (Eph & Ets & Enow & _ & _ & Ert & _).
  assert (Hr : reachable (handle (Elapse ms100) sampleScheduled))
    by (apply reachable_step; exact (proj1 sampleScheduled_ok)).
  revert Eph Ets Enow Ert Hr. generalize (handle (Elapse ms100) sampleScheduled).
  intros g1 Eph Ets Enow Ert Hr.
  pose proof (physics_fields rollingReading (fun _ => restReading) g1) as F.
  cbv zeta in F. destruct F as (Fph & Frt & _ & _ & Fts & _ & _ & Fnow & _).
  split; [rewrite Fph, Eph; exact Hph |].
  split.
  { apply readsMoving_not_stopped; [apply (inv_ball _ (reachable_Inv _ Hr)) |].
    exact rollingReading_moving. }
  split; [rewrite Fnow, Enow; reflexivity |].
  split; [rewrite Fts, Ets; exact Hts |].
  rewrite Frt, Ert. exact Hrt.
Qed.


(** The settle reset is cancelled only by a frame: the ball has resumed
    motion 100 ms after the scheduling, no frame is drawn before the 500 ms
    are over, and the reset runs. *)
Lemma C8_reset_fires_unobserved_motion :
  resetTimer sampleScheduled = Some (nextTimerId sampleStopped)
  /\ now sampleResumed = now sampleScheduled + 100
  /\ truthy (isBallStopped sampleResumed) = false
  /\ currentGameState sampleLate = BALL_ROLLING
  /\ now sampleLate = now sampleScheduled + 500
  /\ currentGameState (handle (Timeout (nextTimerId sampleStopped)) sampleLate) = RESETTING.
Proof.
  destruct sampleScheduled_facts as (_ & _ & Hrt & Hnow & _).
  destruct sampleResumed_facts as (Hph & Hno & Hnow1 & Hts & _).
  pose proof (elapse_fields ms400 sampleResumed) as F. cbv zeta in F.
  destruct F as (Eph & Ets & Enow & _).
  split; [exact Hrt |]. split; [exact Hnow1 |]. split; [exact Hno |].
  split; [rewrite Eph; exact Hph |].
  split; [rewrite Enow, Hnow1; cbn [nonneg ms400]; lra |].
  apply settleDue_state.
  apply (settleDue_single sampleLate (nextTimerId sampleStopped)
           (now sampleStopped + SETTLE_DELAY)).
  - rewrite Ets. exact Hts.
  - rewrite Enow, Hnow1, Hnow. cbn [nonneg ms400]. unfold SETTLE_DELAY. lra.
Qed.

(** ** Deferred callbacks *)
















(** ** The settle detector without a ball *)

(** C10. With no ball, or a ball without a physics impostor,
    [isBallStopped] returns [true], so a frame drawn while Rolling with no
    reset timer outstanding schedules the settle reset (and records its
    handle when the metadata object exists; when it does not, the frame
    fails after the scheduling and no handle is recorded); with a ball and
    an impostor one of whose velocity accessors returns [null], it returns
    that [null], which is falsy, and a frame drawn while Rolling leaves no
    reset timer recorded. *)
Theorem C10_missing_ball (g : Game) :
  ((bowlingBall g = None
    \/ exists ball, bowlingBall g = Some ball /\ physicsImpostor ball = None) ->
   isBallStopped g = JsBool true
   /\ (currentGameState g = BALL_ROLLING -> timer_truthy (resetTimer g) = false ->
       In (mkTimer (nextTimerId g) (now g + 500) SettleReset) (timers (handle Frame g))
       /\ (metadata g <> None ->
           renderLoop g = Normal (handle Frame g)
           /\ resetTimer (handle Frame g) = Some (nextTimerId g))
       /\ (metadata g = None -> throws g /\ resetTimer (handle Frame g) = None)))
  /\ (forall ball imp,
        bowlingBall g = Some ball -> physicsImpostor ball = Some imp ->
        linearVelocity imp = None \/ angularVelocity imp = None ->
        isBallStopped g = JsNull
        /\ truthy (isBallStopped g) = false
        /\ (currentGameState g = BALL_ROLLING ->
            renderLoop g = Normal (handle Frame g)
            /\ timer_truthy (resetTimer (handle Frame g)) = false)).
Proof.
  split.
  - intros Hmissing.
    assert (Hstopped : isBallStopped g = JsBool true).
    { unfold isBallStopped.
      destruct Hmissing as [-> | (ball & -> & ->)]; reflexivity. }
    split; [exact Hstopped |].
    intros Hph Hfree. unfold throws, handle.
    destruct (renderLoop_settle_view g Hph)
      as (g1 & -> & Hstop & Ert & Ets & Enid & Enow & Em).
    unfold settleStep. rewrite Hstop, Hstopped, Ert, Hfree, Em.
    cbn [truthy negb].
    destruct (metadata g) as [m |] eqn:Hm; cbn [stateOf].
    + split.
      { cbn [scheduled setTimeout snd set_nextTimerId set_timers set_metadata timers].
        rewrite Ets, Enid, Enow. apply in_or_app. right. left. reflexivity. }
      split; [| intros H; discriminate].
      intros _. split; [reflexivity |].
      unfold resetTimer. cbn [set_metadata metadata md_resetTimer].
      rewrite Enid. reflexivity.
    + split.
      { cbn [scheduled setTimeout snd set_nextTimerId set_timers timers].
        rewrite Ets, Enid, Enow. apply in_or_app. right. left. reflexivity. }
      split; [intros H; contradiction |].
      intros _. split; [eexists; reflexivity |].
      unfold resetTimer.
      cbn [scheduled setTimeout snd set_nextTimerId set_timers metadata].
      rewrite Em. reflexivity.
  - intros ball imp Hb Hi Hnull.
    assert (Hval : isBallStopped g = JsNull).
    { unfold isBallStopped. rewrite Hb, Hi.
      destruct Hnull as [-> | Ha]; [reflexivity |].
      rewrite Ha. destruct (linearVelocity imp); reflexivity. }
    split; [exact Hval |]. split; [rewrite Hval; reflexivity |].
    intros Hph. unfold handle.
    destruct (renderLoop_settle_view g Hph) as (g1 & -> & Hstop & Ert & _).
    unfold settleStep. rewrite Hstop, Hval. cbn [truthy].
    destruct (resetTimer g1) as [[| n] |] eqn:E; cbn [stateOf];
      (split; [reflexivity |]); rewrite ?E, ?resetTimer_cleared; reflexivity.
Qed.

Lemma set_bowlingBall_fields (v : option Mesh) (g : Game) :
  bowlingBall (set_bowlingBall v g) = v
  /\ currentGameState (set_bowlingBall v g) = currentGameState g
  /\ resetTimer (set_bowlingBall v g) = resetTimer g
  /\ metadata (set_bowlingBall v g) = metadata g.
Proof. repeat split; reflexivity. Qed.

Lemma sampleNoBall_facts :
  bowlingBall sampleNoBall = None
  /\ currentGameState sampleNoBall = BALL_ROLLING
  /\ timer_truthy (resetTimer sampleNoBall) = false
  /\ metadata sampleNoBall <> None.
Proof.
  destruct (set_bowlingBall_fields None sampleRolling) as (Hb & Hph & Hrt & Hm).
  split; [exact Hb |]. split; [rewrite Hph; exact sampleRolling_state |].
  split.
  - rewrite Hrt, (proj1 sampleRolling_queue). reflexivity.
  - rewrite Hm. exact (ord_metadata _ (proj2 sampleRolling_ok)).
Qed.

Lemma C10_missing_ball_witness :
  isBallStopped sampleNoBall = JsBool true
  /\ In (mkTimer (nextTimerId sampleNoBall) (now sampleNoBall + 500) SettleReset)
        (timers (handle Frame sampleNoBall))
  /\ resetTimer (handle Frame sampleNoBall) = Some (nextTimerId sampleNoBall).
Proof.
  destruct sampleNoBall_facts as (Hb & Hph & Hrt & Hm).
  destruct (C10_missing_ball sampleNoBall) as [H _].
  destruct (H (or_introl Hb)) as [H1 H2].
  destruct (H2 Hph Hrt) as (H3 & H4 & _).
  split; [exact H1 |]. split; [exact H3 |].
  exact (proj2 (H4 Hm)).
Defined.

(** * Further properties of the script *)

(** ** The phase machine *)





(** ** The full reset *)

Lemma rebuilt_scoreText (g : Game) :
  scoreText (rebuilt g) = option_map (fun _ => 0%Z) (scoreText g).
Proof.
  unfold rebuilt, updateScoreDisplay.
  destruct g as [b ps a sc [st |] F ph aim cs lp md ts nid t lf ob]; reflexivity.
Qed.

(** The post-state of [resetGame], field by field. *)
Lemma resetGame_fields (g : Game) :
  pins (resetGame g)
  = map (fun pos => Some (mkMesh pos Axis_Y (Some newPhysicsImpostor))) pinPositions
  /\ bowlingBall (resetGame g)
     = Some (mkMesh BALL_START_POS Axis_Y (Some newPhysicsImpostor))
  /\ directionArrow (resetGame g)
     = Some (mkArrow arrowStartPosition (PI / 2) 0 ARROW_LENGTH_MIN true)
  /\ score (resetGame g) = 0%Z
  /\ scoreText (resetGame g) = option_map (fun _ => 0%Z) (scoreText g)
  /\ fallenPinIndicesThisThrow (resetGame g) = ∅
  /\ currentGameState (resetGame g) = RESETTING
  /\ launchPower (resetGame g) = MIN_LAUNCH_FORCE
  /\ currentAimAngle (resetGame g) = 0.
Proof.
  rewrite resetGame_rebuilt.
  pose proof (resetForNextThrow_fields (rebuilt g)) as F. cbv zeta in F.
  revert F. generalize (resetForNextThrow (rebuilt g)). intros g' F.
  destruct F as (Hp & Hs & Hst & Hf & Hph & Haim & Hlp & _ & _ & _ & _ & _ & Hball & Harr
                 & _).
  destruct (rebuilt_fields g) as (Ep & Eb & Ea & Es & _).
  rewrite Ep in Hp. rewrite Eb in Hball. rewrite Ea in Harr. rewrite Es in Hs.
  rewrite rebuilt_scoreText in Hst.
  repeat split; assumption.
Qed.

(** X2. Whatever the state before, the full reset leaves ten upright pins
    with fresh physics bodies at the ten fixed positions, a ball with a
    fresh body at rest at the start position, the aim indicator visible at
    its start pose, a zero score (shown as zero if there is a score
    display), an empty fallen set, the minimum launch power, a zero aim
    angle and the phase Resetting; and a scoring pass over that state
    credits no pin. *)
Theorem X2_resetGame_rebuilds (g : Game) :
  pins (resetGame g)
  = map (fun pos => Some (mkMesh pos Axis_Y (Some newPhysicsImpostor))) pinPositions
  /\ List.length (pins (resetGame g)) = 10%nat
  /\ bowlingBall (resetGame g)
     = Some (mkMesh BALL_START_POS Axis_Y (Some newPhysicsImpostor))
  /\ directionArrow (resetGame g)
     = Some (mkArrow arrowStartPosition (PI / 2) 0 ARROW_LENGTH_MIN true)
  /\ score (resetGame g) = 0%Z
  /\ scoreText (resetGame g) = option_map (fun _ => 0%Z) (scoreText g)
  /\ fallenPinIndicesThisThrow (resetGame g) = ∅
  /\ currentGameState (resetGame g) = RESETTING
  /\ launchPower (resetGame g) = MIN_LAUNCH_FORCE
  /\ currentAimAngle (resetGame g) = 0
  /\ newlyFallenPins (resetGame g) = ∅.
Proof.
  pose proof (resetGame_fields g) as H. revert H.
  generalize (resetGame g). intros g' (Hp & Hb & Ha & Hs & Hst & Hf & Hph & Hlp & Haim).
  split; [exact Hp |]. split; [rewrite Hp; reflexivity |].
  split; [exact Hb |]. split; [exact Ha |]. split; [exact Hs |].
  split; [exact Hst |]. split; [exact Hf |]. split; [exact Hph |].
  split; [exact Hlp |]. split; [exact Haim |].
  apply set_eq. intros i. rewrite newlyFallenPins_elem.
  split; [| intros Hi; apply elem_of_empty in Hi; contradiction].
  intros (_ & pin & imp & Hl & _ & Hd). exfalso.
  rewrite Hp in Hl. apply list_elem_of_lookup_2, list_elem_of_In, in_map_iff in Hl.
  destruct Hl as (pos & Hpos & _). injection Hpos as <-.
  rewrite dotProduct_upright_mesh in Hd. unfold PIN_FALLEN_THRESHOLD in Hd. lra.
Qed.

(** ** The display, the credit and the indicator stay coherent *)

Lemma checkFallenPins_display (g : Game) :
  scoreText g = Some (score g) ->
  scoreText (checkFallenPins g) = Some (score (checkFallenPins g)).
Proof.
  intros H. unfold checkFallenPins.
  pose proof (forEachPin_spec (pins g) 0 g 0%Z) as Hs. cbn zeta in Hs.
  destruct (forEachPin (pins g) 0 (g, 0%Z)) as [g' n]. cbn [fst snd] in Hs.
  destruct Hs as (_ & Htxt & _ & Hsc & Hn).
  destruct (0 <? n)%Z eqn:E.
  - unfold updateScoreDisplay. rewrite Htxt, H. reflexivity.
  - apply Z.ltb_ge in E. rewrite Htxt, H, Hsc. f_equal. lia.
Qed.

(** What a deferred callback leaves of the display and the indicator. *)
Lemma runCallback_fields (cb : Callback) (g : Game) :
  score (runCallback cb g) = score g
  /\ scoreText (runCallback cb g) = scoreText g
  /\ (currentGameState (runCallback cb g) = BALL_ROLLING ->
      cb = ToAiming /\ runCallback cb g = g)
  /\ (cb = ToAiming ->
      directionArrow (runCallback cb g) = directionArrow g
      /\ currentAimAngle (runCallback cb g) = currentAimAngle g
      /\ launchPower (runCallback cb g) = launchPower g)
  /\ (cb = SettleReset ->
      directionArrow (runCallback cb g)
      = option_map (fun arrow => mkArrow arrowStartPosition (rotation_x arrow) 0
                                         ARROW_LENGTH_MIN true) (directionArrow g)
      /\ currentAimAngle (runCallback cb g) = 0
      /\ launchPower (runCallback cb g) = MIN_LAUNCH_FORCE).
Proof.
  destruct cb.
  - unfold runCallback.
    pose proof (set_resetTimer_fields None (resetForNextThrow g)) as S. cbv zeta in S.
    destruct S as (_ & _ & Sa & Ss & Sst & _ & Sph & Saim & _ & Slp & _).
    pose proof (resetForNextThrow_fields g) as F. cbv zeta in F.
    destruct F as (_ & Hs & Hst & _ & Hph & Haim & Hlp & _ & _ & _ & _ & _ & _ & Harr & _).
    rewrite Sa, Ss, Sst, Sph, Saim, Slp, Hs, Hst, Hph, Haim, Hlp, Harr.
    split; [reflexivity |]. split; [reflexivity |].
    split; [intros E; discriminate |].
    split; [discriminate |]. intros _. repeat split; reflexivity.
  - unfold runCallback.
    split; [destruct (currentGameState g); reflexivity |].
    split; [destruct (currentGameState g); reflexivity |].
    split.
    { destruct (currentGameState g) eqn:E; cbn [set_currentGameState currentGameState];
        intros H; try discriminate; split; reflexivity. }
    split; [| discriminate].
    intros _. destruct (currentGameState g); repeat split; reflexivity.
Qed.

Lemma keyup_reset_input (g : Game) :
  exists h, keyup KeyR g = g
            \/ (keyup KeyR g = resetGame h /\ scoreText h = scoreText g).
Proof.
  unfold keyup. destruct (currentGameState g).
  4: { exists g. left. reflexivity. }
  all: eexists; right; split; [reflexivity |];
    destruct (resetTimer g) as [[| n] |]; try reflexivity;
    apply (set_resetTimer_fields None (clearTimeout (S n) g)).
Qed.

Lemma display_step (e : Event) (g : Game) :
  scoreText g = Some (score g) ->
  scoreText (handle e g) = Some (score (handle e g)).
Proof.
  intros H. destruct e as [dt | ballR pinR | | k | k | id |].
  - exact H.
  - exact H.
  - unfold handle. destruct (currentGameState g) eqn:Hph.
    + unfold renderLoop. rewrite Hph. destruct (directionArrow g); exact H.
    + unfold renderLoop. rewrite Hph. destruct (directionArrow g); exact H.
    + rewrite renderLoop_rolling by exact Hph.
      pose proof (settleStep_fields (checkFallenPins (hideArrow g))) as F.
      cbv zeta in F. destruct F as (_ & _ & _ & -> & -> & _).
      apply checkFallenPins_display.
      destruct (hideArrow_fields g)
        as (_ & _ & -> & _ & _ & _ & _ & _ & _ & _ & _ & _ & _ & _ & ->).
      exact H.
    + unfold renderLoop. rewrite Hph. exact H.
    + unfold renderLoop. rewrite Hph. exact H.
  - unfold handle, keydown. destruct k; try exact H.
    destruct (currentGameState g); try exact H.
    cbn [directionArrow set_chargeStartTime set_currentGameState].
    destruct (directionArrow g); exact H.
  - unfold handle. destruct k; try exact H.
    + destruct (currentGameState g) eqn:Hph; try (unfold keyup; rewrite Hph; exact H).
      pose proof (keyup_space_fields g Hph) as F. cbv zeta in F.
      change (keyup Space g) with (handle (KeyUp Space) g).
      destruct F as (_ & _ & -> & -> & _). exact H.
    + destruct (keyup_reset_input g) as (h & [-> | [-> Hh]]); [exact H |].
      destruct (resetGame_fields h) as (_ & _ & _ & -> & -> & _).
      rewrite Hh, H. reflexivity.
  - unfold handle.
    destruct (fireTimeout_cases id g) as [-> | (t & _ & _ & _ & _ & ->)]; [exact H |].
    destruct (runCallback_fields (callback t) (clearTimeout id g)) as (-> & -> & _).
    exact H.
  - pose proof (notifyOnReady_fields g) as F. cbv zeta in F.
    destruct F as (_ & _ & -> & -> & _). exact H.
Qed.

Lemma credit_step (e : Event) (g : Game) :
  (0 <= score g)%Z ->
  (Z.of_nat (size (fallenPinIndicesThisThrow g)) <= score g)%Z ->
  (Z.of_nat (size (fallenPinIndicesThisThrow (handle e g))) <= score (handle e g))%Z.
Proof.
  intros Hpos H. pose proof (step_scoring e g) as Hstep. cbv zeta in Hstep.
  destruct Hstep as [(_ & -> & -> & _) | [(_ & _ & -> & -> & _)
                    | [(_ & _ & _ & -> & ->) | (_ & _ & -> & ->)]]].
  - rewrite size_empty. lia.
  - rewrite size_empty. lia.
  - rewrite size_union.
    + lia.
    + intros i Hi HF. apply newlyFallenPins_elem in Hi. destruct Hi as [Hout _].
      exact (Hout HF).
  - exact H.
Qed.

Lemma arrow_step (e : Event) (g : Game) :
  arrow_coherent g -> arrow_coherent (handle e g).
Proof.
  intros H. destruct e as [dt | ballR pinR | | k | k | id |].
  - exact H.
  - exact H.
  - unfold handle. destruct H as (a & Ha & Hz & Hy & Hx & Hpos & Hvis).
    destruct (currentGameState g) eqn:Hph.
    + unfold renderLoop. rewrite Hph, Ha. eexists. split; [reflexivity |].
      cbn. rewrite Hph. repeat split; try assumption; try discriminate.
    + unfold renderLoop. rewrite Hph, Ha. eexists. split; [reflexivity |].
      cbn. rewrite Hph. repeat split; try assumption; try discriminate.
      unfold MIN_LAUNCH_FORCE, MAX_LAUNCH_FORCE, ARROW_LENGTH_MIN, ARROW_LENGTH_MAX.
      ring.
    + rewrite renderLoop_rolling by exact Hph.
      pose proof (settleStep_fields (checkFallenPins (hideArrow g))) as F.
      cbv zeta in F. destruct F as (_ & _ & Ea & _ & _ & _ & Eph & Eaim & _ & Elp & _).
      destruct (checkFallenPins_spec (hideArrow g)) as (Hfr & _).
      apply scoring_frame_fields in Hfr.
      destruct Hfr as (_ & _ & Ea' & Eph' & Eaim' & _ & Elp' & _).
      rewrite Ea' in Ea. rewrite Eaim' in Eaim. rewrite Elp' in Elp.
      assert (Eh : directionArrow (hideArrow g) = Some (set_isVisible false a)
                   /\ currentAimAngle (hideArrow g) = currentAimAngle g
                   /\ launchPower (hideArrow g) = launchPower g).
      { unfold hideArrow. rewrite Ha. repeat split; reflexivity. }
      destruct Eh as (Eh1 & Eh2 & Eh3).
      rewrite Eh1 in Ea. rewrite Eh2 in Eaim. rewrite Eh3 in Elp.
      revert Ea Eaim Elp.
      generalize (stateOf (settleStep (checkFallenPins (hideArrow g)))).
      intros g' Ea Eaim Elp.
      exists (set_isVisible false a). rewrite Ea, Eaim, Elp.
      repeat split; try assumption.
    + unfold renderLoop. rewrite Hph. exists a. cbn [stateOf]. rewrite Hph.
      repeat split; try assumption; try discriminate.
    + unfold renderLoop. rewrite Hph. exists a. cbn [stateOf]. rewrite Hph.
      repeat split; try assumption; try discriminate.
  - unfold handle, keydown. destruct k; try exact H.
    destruct (currentGameState g) eqn:Hph; try exact H.
    destruct H as (a & Ha & Hz & Hy & Hx & Hpos & Hvis).
    cbn [directionArrow set_chargeStartTime set_currentGameState]. rewrite Ha.
    eexists. split; [reflexivity |]. cbn.
    repeat split; try assumption; try discriminate.
    unfold MIN_LAUNCH_FORCE, MAX_LAUNCH_FORCE, ARROW_LENGTH_MIN, ARROW_LENGTH_MAX.
    ring.
  - unfold handle. destruct k; try exact H.
    + destruct (currentGameState g) eqn:Hph; try (unfold keyup; rewrite Hph; exact H).
      destruct H as (a & Ha & Hz & Hy & Hx & Hpos & Hvis).
      pose proof (keyup_space_fields g Hph) as F. cbv zeta in F.
      change (keyup Space g) with (handle (KeyUp Space) g).
      destruct F as (_ & _ & _ & _ & _ & Eaim & _ & Elp & _ & _ & _ & _ & _ & _ & _ & Ea).
      rewrite Ha in Ea. cbn [option_map] in Ea.
      exists (set_isVisible false a). rewrite Ea, Eaim, Elp.
      repeat split; assumption.
    + destruct (keyup_reset_input g) as (h & [-> | [-> _]]); [exact H |].
      pose proof (resetGame_fields h) as Hf. revert Hf. generalize (resetGame h).
      intros g' (_ & _ & Ea & _ & _ & _ & Eph & Elp & Eaim).
      eexists. split; [exact Ea |]. rewrite Eph, Elp, Eaim.
      cbn [rotation_z scaling_y rotation_x arrow_position isVisible].
      repeat split; try reflexivity; try discriminate. ring.
  - unfold handle.
    destruct (fireTimeout_cases id g) as [-> | (t & _ & _ & _ & _ & ->)]; [exact H |].
    destruct H as (a & Ha & Hz & Hy & Hx & Hpos & Hvis).
    destruct (runCallback_fields (callback t) (clearTimeout id g))
      as (_ & _ & Hroll & Hto & Hsettle).
    destruct (callback t).
    + destruct (Hsettle eq_refl) as (Ea & Eaim & Elp).
      change (directionArrow (clearTimeout id g)) with (directionArrow g) in Ea.
      rewrite Ha in Ea. cbn [option_map] in Ea.
      revert Hroll Ea Eaim Elp.
      generalize (runCallback SettleReset (clearTimeout id g)).
      intros g' Hroll Ea Eaim Elp.
      eexists. split; [exact Ea |]. rewrite Eaim, Elp.
      cbn [rotation_z scaling_y rotation_x arrow_position isVisible].
      split; [reflexivity |]. split; [ring |]. split; [exact Hx |].
      split; [reflexivity |].
      intros E. destruct (Hroll E) as [Hd _]. discriminate.
    + destruct (Hto eq_refl) as (Ea & Eaim & Elp).
      change (directionArrow (clearTimeout id g)) with (directionArrow g) in Ea.
      change (currentAimAngle (clearTimeout id g)) with (currentAimAngle g) in Eaim.
      change (launchPower (clearTimeout id g)) with (launchPower g) in Elp.
      assert (Hvis' : currentGameState (runCallback ToAiming (clearTimeout id g))
                      = BALL_ROLLING -> isVisible a = false).
      { intros E. destruct (Hroll E) as [_ Heq]. rewrite Heq in E. apply Hvis. exact E. }
      revert Hvis' Ea Eaim Elp.
      generalize (runCallback ToAiming (clearTimeout id g)).
      intros g' Hvis' Ea Eaim Elp.
      exists a. rewrite Ea, Eaim, Elp. repeat split; assumption.
  - destruct H as (a & Ha & Hz & Hy & Hx & Hpos & Hvis).
    pose proof (notifyOnReady_fields g) as F. cbv zeta in F.
    destruct F as (_ & _ & _ & _ & _ & Eaim & _ & Elp & _).
    pose proof (notifyOnReady_state g) as Eph.
    unfold handle, notifyOnReady in *.
    destruct (onReadyObservable g).
    + pose proof (sceneReady_fields (set_onReadyObservable false g)) as F.
      cbv zeta in F.
      destruct F as (_ & _ & _ & _ & _ & _ & _ & _ & _ & _ & _ & _ & _ & _ & _ & Ea).
      cbn [set_onReadyObservable directionArrow] in Ea. rewrite Ha in Ea.
      cbn [option_map] in Ea.
      revert Eaim Elp Eph Ea. generalize (sceneReady (set_onReadyObservable false g)).
      intros g' Eaim Elp Eph Ea.
      eexists. split; [exact Ea |]. rewrite Eaim, Elp.
      cbn [rotation_z scaling_y rotation_x arrow_position isVisible set_isVisible].
      split; [exact Hz |]. split; [exact Hy |]. split; [exact Hx |].
      split; [exact Hpos |].
      intros E. rewrite E in Eph. destruct (currentGameState g); discriminate.
    + exists a. repeat split; assumption.
Qed.

Lemma init_Coherent : Coherent init.
Proof.
  constructor.
  - reflexivity.
  - change (fallenPinIndicesThisThrow init) with (∅ : gset nat).
    rewrite size_empty. change (score init) with 0%Z. lia.
  - exists (mkArrow arrowStartPosition (PI / 2) 0 ARROW_LENGTH_MIN true).
    split; [reflexivity |].
    change (currentAimAngle init) with 0.
    change (launchPower init) with MIN_LAUNCH_FORCE.
    change (currentGameState init) with RESETTING.
    cbn [rotation_z scaling_y rotation_x arrow_position isVisible].
    repeat split; try reflexivity; try discriminate. ring.
Qed.

Lemma reachable_Coherent (g : Game) : reachable g -> Coherent g.
Proof.
  induction 1 as [| e g Hr IH].
  - apply init_Coherent.
  - destruct IH as [Hd Hc Ha]. constructor.
    + apply display_step. exact Hd.
    + apply credit_step; [apply (inv_score _ (reachable_Inv _ Hr)) | exact Hc].
    + apply arrow_step. exact Ha.
Qed.

(** X3. In every reachable state the score display shows the current
    score. *)
Theorem X3_display_shows_score (g : Game) :
  reachable g -> scoreText g = Some (score g).
Proof. intros Hr. apply (coh_display _ (reachable_Coherent _ Hr)). Qed.

Lemma X3_display_shows_score_witness :
  score sampleFalling = 0%Z /\ scoreText sampleScored = Some 1%Z.
Proof.
  destruct sampleFalling_facts as (_ & Hs0 & _).
  destruct sampleScored_facts as (_ & Hs & _).
  pose proof (X3_display_shows_score sampleScored (proj1 sampleScored_ok)) as H.
  rewrite Hs in H. split; [exact Hs0 | exact H].
Defined.

(** X6. In every reachable state the aim indicator exists, sits at its
    start pose, is rotated about its Z axis by exactly the current aim
    angle, and has the length that corresponds linearly to the current
    launch power: 1.5 at the minimum force, 4.0 at the maximum, and always
    between the two. *)
Theorem X6_indicator_mirrors_state (g : Game) :
  reachable g ->
  exists a,
    directionArrow g = Some a
    /\ rotation_z a = currentAimAngle g
    /\ scaling_y a
       = ARROW_LENGTH_MIN
         + (ARROW_LENGTH_MAX - ARROW_LENGTH_MIN)
           * ((launchPower g - MIN_LAUNCH_FORCE) / (MAX_LAUNCH_FORCE - MIN_LAUNCH_FORCE))
    /\ ARROW_LENGTH_MIN <= scaling_y a <= ARROW_LENGTH_MAX
    /\ rotation_x a = PI / 2
    /\ arrow_position a = arrowStartPosition.
Proof.
  intros Hr.
  destruct (coh_arrow _ (reachable_Coherent _ Hr)) as (a & Ha & Hz & Hy & Hx & Hpos & _).
  pose proof (inv_power _ (reachable_Inv _ Hr)) as Hp.
  exists a. unfold MIN_LAUNCH_FORCE, MAX_LAUNCH_FORCE, ARROW_LENGTH_MIN,
    ARROW_LENGTH_MAX in *.
  split; [exact Ha |]. split; [exact Hz |].
  assert (Hs : scaling_y a = 1.5 + (4.0 - 1.5) * ((launchPower g - 20) / (150 - 20))).
  { field_simplify. lra. }
  split; [exact Hs |]. split; [lra |]. split; assumption.
Qed.

Lemma X6_indicator_mirrors_state_witness :
  exists a,
    directionArrow sampleCharged = Some a
    /\ rotation_z a = currentAimAngle sampleCharged
    /\ ARROW_LENGTH_MIN <= scaling_y a <= ARROW_LENGTH_MAX.
Proof.
  destruct (X6_indicator_mirrors_state sampleCharged sampleCharged_reachable)
    as (a & H1 & H2 & _ & H4 & _).
  exists a. split; [exact H1 |]. split; [exact H2 | exact H4].
Defined.

(** X7. In every reachable state the aim indicator is hidden while the
    ball rolls, and a frame drawn while Aiming leaves it visible. *)
Theorem X7_indicator_visibility (g : Game) :
  reachable g ->
  (currentGameState g = BALL_ROLLING ->
   exists a, directionArrow g = Some a /\ isVisible a = false)
  /\ (currentGameState g = AIMING ->
      exists a, directionArrow (handle Frame g) = Some a /\ isVisible a = true).
Proof.
  intros Hr.
  destruct (coh_arrow _ (reachable_Coherent _ Hr)) as (a & Ha & _ & _ & _ & _ & Hvis).
  split.
  - intros Hph. exists a. split; [exact Ha | apply Hvis; exact Hph].
  - intros Hph. unfold handle, renderLoop. rewrite Hph, Ha.
    eexists. split; reflexivity.
Qed.

Lemma X7_indicator_visibility_witness :
  (exists a, directionArrow sampleRolling = Some a /\ isVisible a = false)
  /\ (exists a, directionArrow (handle Frame sampleAiming) = Some a /\ isVisible a = true).
Proof.
  split.
  - apply (X7_indicator_visibility sampleRolling sampleRolling_reachable).
    exact sampleRolling_state.
  - apply (X7_indicator_visibility sampleAiming sampleAiming_reachable).
    exact sampleAiming_state.
Defined.

(** X8. In every reachable state the score is at least the number of
    indices in the fallen set (every pin recorded as fallen has been
    credited), and one frame raises the score by at most the number of pins
    not yet in the fallen set. *)
Theorem X8_score_accounting (g : Game) :
  reachable g ->
  (Z.of_nat (size (fallenPinIndicesThisThrow g)) <= score g)%Z
  /\ (score (handle Frame g)
      <= score g + (10 - Z.of_nat (size (fallenPinIndicesThisThrow g))))%Z.
Proof.
  intros Hr. split; [apply (coh_credit _ (reachable_Coherent _ Hr)) |].
  pose proof (reachable_Inv _ Hr) as HI.
  assert (Hr' : reachable (handle Frame g)) by (apply reachable_step; exact Hr).
  pose proof (fallen_size_bound _ (reachable_Inv _ Hr')) as Hb'.
  pose proof (fallen_size_bound _ HI) as Hb.
  pose proof (step_scoring Frame g) as Hstep. cbv zeta in Hstep.
  revert Hb' Hstep. generalize (handle Frame g). intros g' Hb' Hstep.
  destruct Hstep as [(Hf & _) | [(_ & Hs & _)
                    | [(_ & _ & _ & HF & Hsc) | (_ & _ & _ & Hsc)]]].
  - discriminate.
  - discriminate.
  - rewrite HF in Hb'. rewrite size_union in Hb'.
    + lia.
    + intros i Hi HFi. apply newlyFallenPins_elem in Hi. destruct Hi as [Hout _].
      exact (Hout HFi).
  - lia.
Qed.

Lemma X8_score_accounting_witness :
  fallenPinIndicesThisThrow sampleScored = {[ 0%nat ]}
  /\ score sampleFalling = 0%Z
  /\ (Z.of_nat (size (fallenPinIndicesThisThrow sampleScored)) <= score sampleScored)%Z
  /\ (score sampleScored
      <= score sampleFalling
         + (10 - Z.of_nat (size (fallenPinIndicesThisThrow sampleFalling))))%Z.
Proof.
  destruct sampleFalling_facts as (_ & Hs0 & _).
  destruct sampleScored_facts as (_ & _ & HF).
  split; [exact HF |]. split; [exact Hs0 |].
  split.
  - exact (proj1 (X8_score_accounting sampleScored (proj1 sampleScored_ok))).
  - exact (proj2 (X8_score_accounting sampleFalling (proj1 sampleFalling_ok))).
Defined.

(** ** The input handlers *)

Lemma chargeRatio_zero : chargeRatio 0 = 0.
Proof.
  unfold chargeRatio, MAX_CHARGE_TIME. replace (0 / 1500) with 0 by lra.
  apply Rmin_left. lra.
Qed.

(** What pressing the launch key while Aiming changes, given the aim
    indicator [a]. *)
Lemma keydown_space_eq (g : Game) (a : ArrowMesh) :
  currentGameState g = AIMING -> directionArrow g = Some a ->
  keydown Space g
  = set_directionArrow (Some (set_scaling_y ARROW_LENGTH_MIN a))
      (set_launchPower MIN_LAUNCH_FORCE
         (set_chargeStartTime (now g) (set_currentGameState CHARGING g))).
Proof.
  intros Hph Ha. unfold keydown. rewrite Hph.
  cbn [directionArrow set_chargeStartTime set_currentGameState]. rewrite Ha.
  unfold updateArrowCharging. rewrite chargeRatio_zero.
  replace (MIN_LAUNCH_FORCE + (MAX_LAUNCH_FORCE - MIN_LAUNCH_FORCE) * 0)
    with MIN_LAUNCH_FORCE by ring.
  replace (ARROW_LENGTH_MIN + (ARROW_LENGTH_MAX - ARROW_LENGTH_MIN) * 0)
    with ARROW_LENGTH_MIN by ring.
  reflexivity.
Qed.

(** X4. The key-down handler acts only on the launch key while Aiming: any
    other key, or the launch key in any other phase, leaves the state as it
    is. In a reachable Aiming state the launch key enters Charging, records
    the current time as the charge start, sets the launch power to the
    minimum and the indicator to its minimum length, and changes nothing
    else. The key-up handler leaves the state as it is for any other key,
    for the launch key outside Charging and for the reset key while
    Resetting. *)
Theorem X4_key_handlers (g : Game) (k : Key) :
  ((k <> Space \/ currentGameState g <> AIMING) -> handle (KeyDown k) g = g)
  /\ (reachable g -> currentGameState g = AIMING ->
      exists a,
        directionArrow g = Some a
        /\ handle (KeyDown Space) g
           = set_directionArrow (Some (set_scaling_y ARROW_LENGTH_MIN a))
               (set_launchPower MIN_LAUNCH_FORCE
                  (set_chargeStartTime (now g) (set_currentGameState CHARGING g))))
  /\ ((k = OtherKey \/ (k = Space /\ currentGameState g <> CHARGING)
       \/ (k = KeyR /\ currentGameState g = RESETTING)) ->
      handle (KeyUp k) g = g).
Proof.
  split; [| split].
  - intros H. unfold handle. apply keydown_other_state. exact H.
  - intros Hr Hph. destruct (inv_arrow _ (reachable_Inv _ Hr)) as [a Ha].
    exists a. split; [exact Ha |]. unfold handle.
    apply keydown_space_eq; assumption.
  - intros [-> | [[-> Hph] | [-> Hph]]]; unfold handle, keyup.
    + reflexivity.
    + destruct (currentGameState g); try reflexivity. contradiction.
    + rewrite Hph. reflexivity.
Qed.

Lemma X4_key_handlers_witness :
  handle (KeyDown Space) sampleRolling = sampleRolling
  /\ handle (KeyUp Space) sampleRolling = sampleRolling.
Proof.
  destruct (X4_key_handlers sampleRolling Space) as (H1 & _ & H3).
  split.
  - apply H1. right. rewrite sampleRolling_state. discriminate.
  - apply H3. right. left. split; [reflexivity |].
    rewrite sampleRolling_state. discriminate.
Defined.

(** X5. The launch power is only recomputed by frames: if the launch key
    is pressed in a reachable Aiming state and released before any frame is
    drawn, then however long it was held, the ball is launched with the
    minimum force, 20, along the direction of the aim angle held at the
    press. *)
Theorem X5_release_before_frame (g : Game) (dt : nonnegreal) :
  reachable g -> currentGameState g = AIMING ->
  let g' := handle (KeyUp Space) (handle (Elapse dt) (handle (KeyDown Space) g)) in
  let impulse := scale (launchDirection g) MIN_LAUNCH_FORCE in
  currentGameState g' = BALL_ROLLING
  /\ BABYLON.length impulse = 20
  /\ exists ball imp,
       bowlingBall g = Some ball /\ physicsImpostor ball = Some imp
       /\ bowlingBall g'
          = Some (set_physicsImpostor
                    (Some (applyImpulse impulse (position ball) (wakeUp imp))) ball).
Proof.
  intros Hr Hph. cbv zeta. pose proof (reachable_Inv _ Hr) as HI.
  destruct (inv_arrow _ HI) as [a Ha].
  destruct (inv_ball _ HI) as (ball & imp & Hb & Hi).
  change (handle (KeyDown Space) g) with (keydown Space g).
  rewrite (keydown_space_eq g a Hph Ha).
  set (g1 := handle (Elapse dt) _).
  assert (H1 : currentGameState g1 = CHARGING) by reflexivity.
  assert (H2 : bowlingBall g1 = Some ball) by exact Hb.
  assert (H3 : launchDirection g1 = launchDirection g) by reflexivity.
  assert (H4 : launchPower g1 = MIN_LAUNCH_FORCE) by reflexivity.
  clearbody g1.
  split; [apply keyup_state; exact H1 |].
  split.
  { rewrite length_scale by (unfold MIN_LAUNCH_FORCE; lra).
    rewrite launchDirection_length. unfold MIN_LAUNCH_FORCE. ring. }
  exists ball, imp. split; [exact Hb |]. split; [exact Hi |].
  change (handle (KeyUp Space) g1) with (keyup Space g1).
  rewrite (keyup_space_ball g1 ball imp H1 H2 Hi), H3, H4. reflexivity.
Qed.

Lemma X5_release_before_frame_witness :
  currentGameState
    (handle (KeyUp Space) (handle (Elapse ms1500) (handle (KeyDown Space) sampleAiming)))
  = BALL_ROLLING.
Proof.
  apply (X5_release_before_frame sampleAiming ms1500 sampleAiming_reachable
           sampleAiming_state).
Defined.
